(** * NachOS MP4 file header (filesys/filehdr.cc)

    A shallow embedding of [FileHeader] -- the i-node of the NachOS file
    system with direct, single-indirect and double-indirect sector pointers --
    and the verification of its allocation, translation, deallocation and
    persistence routines.

    Conventions.
    - A C++ [int] is a [Z].  All quantities handled here are sector numbers,
      sector counts and byte offsets of one file.
    - A sector is the list of the [int] words it holds: the only sectors this
      file reads or writes are [FileHeader] and [Indirect] records, which
      consist of [int] fields only.  [Print] alone reads the data sectors of
      a file; it sees them as chars, through [charAt].
    - The member functions run in a state-and-fault monad over [Machine]: the
      header object [this], the bitmap passed as [freeMap] and the disk behind
      [kernel->synchDisk].  [ASSERT] failures and out-of-range array accesses
      stop the run with a [Fault] that keeps the state reached.
    - [while] and [do ... while] loops are fixpoints over a fuel counter that
      bounds the number of iterations; [OutOfFuel] is the only outcome that is
      not a behaviour of the program. *)

From Stdlib Require Import ZArith List Bool Lia.
Import ListNotations.
Open Scope Z_scope.

(** ** Fixed-size [int] arrays *)

Definition inBounds (l : list Z) (i : Z) : bool :=
  (0 <=? i) && (i <? Z.of_nat (length l)).

Definition zget (l : list Z) (i : Z) : Z := nth (Z.to_nat i) l 0.

Fixpoint set_nth (n : nat) (x : Z) (l : list Z) : list Z :=
  match l, n with
  | [], _ => []
  | _ :: t, O => x :: t
  | a :: t, S n' => a :: set_nth n' x t
  end.

Definition zset (l : list Z) (i : Z) (x : Z) : list Z := set_nth (Z.to_nat i) x l.

(** [take_words n ws]: the first [n] words of [ws], as an array of exactly
    [n] entries (a sector shorter than the record is read as zeroes). *)
Definition take_words (n : nat) (ws : list Z) : list Z := firstn n (ws ++ repeat 0 n).

(** ** The free-sector bitmap *)

Module Bitmap.

(** Modelled from the spec: the bitmap class (bitmap.cc, pbitmap.cc) is not
    part of the sources at hand.  The spec lists the interface consumed:
    [findAndMark() -> sectorNumber] (fails if none free),
    [test(sectorNumber) -> bool], [clear(sectorNumber)], [freeCount() -> int].
    A bitmap is the list of its bits, [true] for a marked (allocated)
    sector.  A failed [FindAndSet] leaves the map as it is and is reported
    through the sentinel [-1], the one out-of-band sector number of the
    record layouts. *)
Definition t := list bool.

Definition Test (which : Z) (b : t) : bool :=
  (0 <=? which) && nth (Z.to_nat which) b false.

Fixpoint set_bit (n : nat) (v : bool) (b : t) : t :=
  match b, n with
  | [], _ => []
  | _ :: r, O => v :: r
  | a :: r, S n' => a :: set_bit n' v r
  end.

Definition Mark (which : Z) (b : t) : t :=
  if 0 <=? which then set_bit (Z.to_nat which) true b else b.

Definition Clear (which : Z) (b : t) : t :=
  if 0 <=? which then set_bit (Z.to_nat which) false b else b.

Fixpoint NumClear (b : t) : Z :=
  match b with
  | [] => 0
  | x :: r => (if x then 0 else 1) + NumClear r
  end.

(** Index of the first clear bit. *)
Fixpoint find_clear (b : t) : option nat :=
  match b with
  | [] => None
  | false :: _ => Some O
  | true :: r => option_map S (find_clear r)
  end.

Definition FindAndSet (b : t) : Z * t :=
  match find_clear b with
  | Some i => (Z.of_nat i, Mark (Z.of_nat i) b)
  | None => (-1, b)
  end.

End Bitmap.

(** ** Records *)

Record FileHeader := mkFileHeader {
  numBytes : Z;
  numSectors : Z;
  dataSectors : list Z;
  singleIndirectSector : Z;
  doubleIndirectSector : Z;
  headerSector : Z
}.

Module Indirect.
Record t := mk {
  numSectors : Z;
  dataSectors : list Z
}.
End Indirect.

(** ** The disk *)

Definition Sector := list Z.

Inductive Request := ReadRequest (sectorNumber : Z) | WriteRequest (sectorNumber : Z).

(** Modelled from the spec: the synchronous disk (synchdisk.cc, disk.cc) is
    not part of the sources at hand.  The spec gives
    [readSector(index) -> bytes[SectorSize]] and
    [writeSector(index, bytes[SectorSize])]: a store of sectors addressed by
    an integer.  The requests served are recorded, so that statements about
    device I/O can be made. *)
Record Disk := mkDisk {
  sectors : Z -> Sector;
  requests : list Request
}.

Definition Disk_read (d : Disk) (n : Z) : Sector * Disk :=
  (sectors d n, mkDisk (sectors d) (requests d ++ [ReadRequest n])).

Definition Disk_write (d : Disk) (n : Z) (s : Sector) : Disk :=
  mkDisk (fun k => if k =? n then s else sectors d k) (requests d ++ [WriteRequest n]).

(** ** Machine state and the monad of member functions *)

Record Machine := mkMachine {
  this : FileHeader;
  freeMap : Bitmap.t;
  synchDisk : Disk
}.

Inductive fault := AssertionFailed | OutOfBounds.

Inductive result (A : Type) :=
| Ret (a : A) (m : Machine)
| Fault (f : fault) (m : Machine)
| OutOfFuel.
Arguments Ret {A} a m.
Arguments Fault {A} f m.
Arguments OutOfFuel {A}.

Definition M (A : Type) := Machine -> result A.

Definition ret {A} (a : A) : M A := fun m => Ret a m.

Definition bind {A B} (c : M A) (k : A -> M B) : M B :=
  fun m => match c m with
           | Ret a m' => k a m'
           | Fault f m' => Fault f m'
           | OutOfFuel => OutOfFuel
           end.

Notation "x <- c ;; k" := (bind c (fun x => k))
  (at level 61, c at next level, right associativity).
Notation "c ;; k" := (bind c (fun _ => k))
  (at level 61, right associativity).

Definition stop {A} (f : fault) : M A := fun m => Fault f m.

Definition getThis : M FileHeader := fun m => Ret (this m) m.

Definition setThis (h : FileHeader) : M unit :=
  fun m => Ret tt (mkMachine h (freeMap m) (synchDisk m)).

Definition getFreeMap : M Bitmap.t := fun m => Ret (freeMap m) m.

Definition setFreeMap (b : Bitmap.t) : M unit :=
  fun m => Ret tt (mkMachine (this m) b (synchDisk m)).

(** [ASSERT(condition)] of debug.h: abort unless the condition holds. *)
Definition ASSERT (condition : bool) : M unit :=
  if condition then ret tt else stop AssertionFailed.

(** [a[i]] as an r-value and [a[i] = x]; an index outside the array stops
    the run. *)
Definition load (a : list Z) (i : Z) : M Z :=
  if inBounds a i then ret (zget a i) else stop OutOfBounds.

Definition store (a : list Z) (i : Z) (x : Z) : M (list Z) :=
  if inBounds a i then ret (zset a i x) else stop OutOfBounds.

Definition FindAndSet : M Z :=
  fun m => let (x, b) := Bitmap.FindAndSet (freeMap m) in
           Ret x (mkMachine (this m) b (synchDisk m)).

Definition ReadSector (sectorNumber : Z) : M Sector :=
  fun m => let (s, d) := Disk_read (synchDisk m) sectorNumber in
           Ret s (mkMachine (this m) (freeMap m) d).

Definition WriteSector (sectorNumber : Z) (data : Sector) : M unit :=
  fun m => Ret tt (mkMachine (this m) (freeMap m) (Disk_write (synchDisk m) sectorNumber data)).

(** Field assignments on [this]. *)
Definition set_numBytes (v : Z) (h : FileHeader) : FileHeader :=
  mkFileHeader v (numSectors h) (dataSectors h)
               (singleIndirectSector h) (doubleIndirectSector h) (headerSector h).
Definition set_numSectors (v : Z) (h : FileHeader) : FileHeader :=
  mkFileHeader (numBytes h) v (dataSectors h)
               (singleIndirectSector h) (doubleIndirectSector h) (headerSector h).
Definition set_dataSectors (v : list Z) (h : FileHeader) : FileHeader :=
  mkFileHeader (numBytes h) (numSectors h) v
               (singleIndirectSector h) (doubleIndirectSector h) (headerSector h).
Definition set_singleIndirectSector (v : Z) (h : FileHeader) : FileHeader :=
  mkFileHeader (numBytes h) (numSectors h) (dataSectors h)
               v (doubleIndirectSector h) (headerSector h).
Definition set_doubleIndirectSector (v : Z) (h : FileHeader) : FileHeader :=
  mkFileHeader (numBytes h) (numSectors h) (dataSectors h)
               (singleIndirectSector h) v (headerSector h).

Definition modifyThis (f : FileHeader -> FileHeader) : M unit :=
  fun m => Ret tt (mkMachine (f (this m)) (freeMap m) (synchDisk m)).

(** ** The member functions of filehdr.cc *)

(** The constants of disk.h and filehdr.h, which are not part of the sources
    at hand: the size of a sector in bytes, the number of sector pointers in
    a header and in an indirect block. *)
Class Constants := {
  SectorSize : Z;
  NumDirect : Z;
  NumIndirect : Z
}.

Section FileHdr.

Context {K : Constants}.

(** [FileHeader::FileHeader]. *)
Definition FileHeader_new : FileHeader :=
  {| numBytes := 0;
     numSectors := 0;
     dataSectors := repeat (-1) (Z.to_nat NumDirect);
     headerSector := -1;
     singleIndirectSector := -1;
     doubleIndirectSector := -1 |}.

(** Modelled from the spec: the class [Indirect] (filehdr.h) is not part of
    the sources at hand.  The spec gives the record ([entryCount], the
    number of valid entries, and [pointers[NumIndirect]], sentinel [-1]
    when unused); a new block holds no entry. *)
Definition Indirect_new : Indirect.t :=
  {| Indirect.numSectors := 0;
     Indirect.dataSectors := repeat (-1) (Z.to_nat NumIndirect) |}.

(** The records as sector images (the object handed to the disk as a byte
    buffer); the fields in the order of the layout tables of the spec. *)
Definition Indirect_image (b : Indirect.t) : Sector :=
  Indirect.numSectors b :: Indirect.dataSectors b.

Definition Indirect_of_image (s : Sector) : Indirect.t :=
  {| Indirect.numSectors := nth 0 s 0;
     Indirect.dataSectors := take_words (Z.to_nat NumIndirect) (skipn 1 s) |}.

Definition FileHeader_image (h : FileHeader) : Sector :=
  numBytes h :: numSectors h :: dataSectors h ++
  [singleIndirectSector h; doubleIndirectSector h; headerSector h].

Definition FileHeader_of_image (s : Sector) : FileHeader :=
  let n := Z.to_nat NumDirect in
  {| numBytes := nth 0 s 0;
     numSectors := nth 1 s 0;
     dataSectors := take_words n (skipn 2 s);
     singleIndirectSector := nth (2 + n) s 0;
     doubleIndirectSector := nth (3 + n) s 0;
     headerSector := nth (4 + n) s 0 |}.

(** [FileHeader::AllocateDirectBlocks]: the [while] loop. *)
Fixpoint AllocateDirectBlocks (fuel : nat) (fileSize : Z) : M unit :=
  match fuel with
  | O => fun _ => OutOfFuel
  | S fuel' =>
    h <- getThis ;;
    if (numBytes h >=? 0) && (numBytes h <? NumDirect * SectorSize) then
      if fileSize <=? numSectors h * SectorSize then
        modifyThis (set_numBytes fileSize)            (* break *)
      else
        modifyThis (set_numBytes (numSectors h * SectorSize)) ;;
        (if numSectors h <? NumDirect then
           x <- FindAndSet ;;
           a <- store (dataSectors h) (numSectors h) x ;;
           modifyThis (set_dataSectors a) ;;
           modifyThis (set_numSectors (numSectors h + 1))
         else ret tt) ;;
        AllocateDirectBlocks fuel' fileSize
    else ret tt
  end.

(** [FileHeader::CreateSingleIndirectBlock]. *)
Definition CreateSingleIndirectBlock (fileSize : Z) : M unit :=
  h <- getThis ;;
  if singleIndirectSector h =? -1 then
    let singleIndirect := Indirect_new in
    x <- FindAndSet ;;
    modifyThis (set_singleIndirectSector x) ;;
    WriteSector x (Indirect_image singleIndirect)
  else ret tt.

(** The [while] loop of [FileHeader::AllocateIndirectSpace], on the
    in-memory copy [indirect] of the block. *)
Fixpoint AllocateIndirectSpace_loop (fuel : nat) (fileSize start end_ : Z)
         (indirect : Indirect.t) : M Indirect.t :=
  match fuel with
  | O => fun _ => OutOfFuel
  | S fuel' =>
    h <- getThis ;;
    if (numBytes h >=? start) && (numBytes h <? end_) then
      if fileSize <=? numSectors h * SectorSize then
        modifyThis (set_numBytes fileSize) ;;
        ret indirect                                   (* break *)
      else
        modifyThis (set_numBytes (numSectors h * SectorSize)) ;;
        if Indirect.numSectors indirect <? NumIndirect then
          x <- FindAndSet ;;
          a <- store (Indirect.dataSectors indirect) (Indirect.numSectors indirect) x ;;
          modifyThis (set_numSectors (numSectors h + 1)) ;;
          AllocateIndirectSpace_loop fuel' fileSize start end_
            (Indirect.mk (Indirect.numSectors indirect + 1) a)
        else
          AllocateIndirectSpace_loop fuel' fileSize start end_ indirect
    else ret indirect
  end.

(** [FileHeader::AllocateIndirectSpace]. *)
Definition AllocateIndirectSpace (fuel : nat) (fileSize sector start : Z) : M Z :=
  let end_ := start + NumIndirect * SectorSize in
  s <- ReadSector sector ;;
  indirect <- AllocateIndirectSpace_loop fuel fileSize start end_ (Indirect_of_image s) ;;
  WriteSector sector (Indirect_image indirect) ;;
  h <- getThis ;;
  ret (fileSize - numBytes h).

(** The [do ... while] loop of [FileHeader::AllocateDoubleIndirectBlock];
    [n] bounds its iterations, [fuel] those of each inner loop. *)
Fixpoint AllocateDoubleIndirectBlock_loop (n fuel : nat) (fileSize : Z)
         (doubleIndirect : Indirect.t) (cur_numSectors : Z) : M unit :=
  match n with
  | O => fun _ => OutOfFuel
  | S n' =>
    ASSERT (cur_numSectors <=? Indirect.numSectors doubleIndirect) ;;
    e <- load (Indirect.dataSectors doubleIndirect) cur_numSectors ;;
    doubleIndirect' <-
      (if negb (e =? -1) then
         _ <- ReadSector e ;;
         ret doubleIndirect
       else
         indSector <- FindAndSet ;;
         a <- store (Indirect.dataSectors doubleIndirect)
                    (Indirect.numSectors doubleIndirect) indSector ;;
         let doubleIndirect' :=
           Indirect.mk (Indirect.numSectors doubleIndirect + 1) a in
         WriteSector indSector (Indirect_image Indirect_new) ;;
         h <- getThis ;;
         WriteSector (doubleIndirectSector h) (Indirect_image doubleIndirect') ;;
         ret doubleIndirect') ;;
    let start := SectorSize * (NumDirect + NumIndirect * (1 + cur_numSectors)) in
    sector <- load (Indirect.dataSectors doubleIndirect') cur_numSectors ;;
    allocated <- AllocateIndirectSpace fuel fileSize sector start ;;
    if negb (allocated =? 0) then
      AllocateDoubleIndirectBlock_loop n' fuel fileSize doubleIndirect' (cur_numSectors + 1)
    else ret tt
  end.

(** [FileHeader::AllocateDoubleIndirectBlock]. *)
Definition AllocateDoubleIndirectBlock (fuel : nat) (fileSize : Z) : M unit :=
  h <- getThis ;;
  doubleIndirect <-
    (if negb (doubleIndirectSector h =? -1) then
       s <- ReadSector (doubleIndirectSector h) ;;
       ret (Indirect_of_image s)
     else
       x <- FindAndSet ;;
       modifyThis (set_doubleIndirectSector x) ;;
       WriteSector x (Indirect_image Indirect_new) ;;
       ret Indirect_new) ;;
  AllocateDoubleIndirectBlock_loop fuel fuel fileSize doubleIndirect 0.

(** [FileHeader::Allocate]. *)
Definition Allocate (fuel : nat) (fileSize : Z) : M bool :=
  h <- getThis ;;
  b <- getFreeMap ;;
  if Bitmap.NumClear b <? numSectors h then
    ret false                                          (* not enough space *)
  else
    AllocateDirectBlocks fuel fileSize ;;
    if fileSize <=? NumDirect * SectorSize then ret true
    else
      h <- getThis ;;
      ASSERT (numBytes h >=? NumDirect * SectorSize) ;;
      CreateSingleIndirectBlock fileSize ;;
      h <- getThis ;;
      allocated <- AllocateIndirectSpace fuel fileSize (singleIndirectSector h)
                                         (NumDirect * SectorSize) ;;
      if allocated =? 0 then ret true
      else
        ASSERT (allocated >? 0) ;;
        AllocateDoubleIndirectBlock fuel fileSize ;;
        ret true.

(** [FileHeader::GetPhysicSector]; [/] and [%] of C++ truncate. *)
Definition GetPhysicSector (localSector : Z) : M Z :=
  h <- getThis ;;
  if localSector <? NumDirect then
    load (dataSectors h) localSector
  else if localSector <? NumDirect + NumIndirect then
    ASSERT (negb (singleIndirectSector h =? -1)) ;;
    ASSERT (localSector <? NumDirect + NumIndirect) ;;
    s <- ReadSector (singleIndirectSector h) ;;
    let singleIndirect := Indirect_of_image s in
    load (Indirect.dataSectors singleIndirect) (localSector - NumDirect)
  else
    ASSERT (negb (doubleIndirectSector h =? -1)) ;;
    ASSERT (localSector >=? NumDirect + NumIndirect) ;;
    s <- ReadSector (doubleIndirectSector h) ;;
    let doubleIndirect := Indirect_of_image s in
    let single := Z.quot (localSector - (NumDirect + NumIndirect)) NumIndirect in
    e <- load (Indirect.dataSectors doubleIndirect) single ;;
    s' <- ReadSector e ;;
    let ind := Indirect_of_image s' in
    let pos := Z.rem (localSector - (NumDirect + NumIndirect)) NumIndirect in
    load (Indirect.dataSectors ind) pos.

(** [FileHeader::ByteToSector]. *)
Definition ByteToSector (offset : Z) : M Z :=
  let localSector := Z.quot offset SectorSize in
  GetPhysicSector localSector.

(** [FileHeader::FileLength]. *)
Definition FileLength : M Z :=
  h <- getThis ;; ret (numBytes h).

(** The [for] loop of [FileHeader::Deallocate], from index [i] on. *)
Fixpoint Deallocate_loop (fuel : nat) (i : Z) : M unit :=
  match fuel with
  | O => fun _ => OutOfFuel
  | S fuel' =>
    h <- getThis ;;
    if i <? numSectors h then
      pos <- GetPhysicSector i ;;
      b <- getFreeMap ;;
      ASSERT (Bitmap.Test pos b) ;;                    (* ought to be marked! *)
      setFreeMap (Bitmap.Clear pos b) ;;
      Deallocate_loop fuel' (i + 1)
    else ret tt
  end.

(** [FileHeader::Deallocate]. *)
Definition Deallocate (fuel : nat) : M unit :=
  Deallocate_loop fuel 0 ;;
  h <- getThis ;;
  (if negb (singleIndirectSector h =? -1) then
     b <- getFreeMap ;;
     if Bitmap.Test (singleIndirectSector h) b
     then setFreeMap (Bitmap.Clear (singleIndirectSector h) b)
     else ret tt
   else ret tt) ;;
  h <- getThis ;;
  (if negb (doubleIndirectSector h =? -1) then
     b <- getFreeMap ;;
     if Bitmap.Test (doubleIndirectSector h) b
     then setFreeMap (Bitmap.Clear (doubleIndirectSector h) b)
     else ret tt
   else ret tt).

(** [FileHeader::FetchFrom]: the sector read over [this]. *)
Definition FetchFrom (sector : Z) : M unit :=
  s <- ReadSector sector ;;
  setThis (FileHeader_of_image s).

(** [FileHeader::WriteBack]. *)
Definition WriteBack (sector : Z) : M unit :=
  h <- getThis ;;
  WriteSector sector (FileHeader_image h).

End FileHdr.

(** ** [FileHeader::Print] *)

(** What [printf] is asked to print, call by call: each constructor is one
    of the format strings of [Print] with its argument. *)
Inductive Printed :=
| PrintSize (numBytes : Z)   (* "FileHeader contents.  File size: %d.  File blocks:\n" *)
| PrintDirect (sector : Z)   (* "%d " *)
| PrintSingle (sector : Z)   (* "*%d* " *)
| PrintDouble (sector : Z)   (* "**%d** " *)
| PrintContents              (* "\nFile contents:\n" *)
| PrintChar (c : Z)          (* "%c" *)
| PrintHex (c : Z)           (* "\\%x" of an unsigned char *)
| PrintNewline.              (* "\n" *)

Section Printing.

Context {K : Constants}.

(** [charAt data j]: the [char] at index [j] of a sector read into a buffer
    of [SectorSize] chars.  How the bytes of a sector make up its words is a
    matter of the host, and is left open. *)
Variable charAt : Sector -> Z -> Z.

(** The [printf] of the first loop, by the range of the logical sector. *)
Definition print_block (i sector : Z) : Printed :=
  if i <? NumDirect then PrintDirect sector
  else if i <? NumDirect + NumIndirect then PrintSingle sector
  else PrintDouble sector.

(** The [printf] of the innermost loop: the char itself when it is between
    ['\040'] and ['\176'], its value as an unsigned char otherwise. *)
Definition print_char (c : Z) : Printed :=
  if (32 <=? c) && (c <=? 126) then PrintChar c else PrintHex (c mod 256).

(** The first [for] loop of [FileHeader::Print], from index [i] on; [out]
    is what has been printed so far. *)
Fixpoint Print_blocks (fuel : nat) (i : Z) (out : list Printed) : M (list Printed) :=
  match fuel with
  | O => fun _ => OutOfFuel
  | S fuel' =>
    h <- getThis ;;
    if i <? numSectors h then
      sector <- GetPhysicSector i ;;
      Print_blocks fuel' (i + 1) (out ++ [print_block i sector])
    else ret out
  end.

(** The innermost [for] loop, over the chars of one sector. *)
Fixpoint Print_chars (fuel : nat) (data : Sector) (j k : Z) (out : list Printed)
  : M (Z * list Printed) :=
  match fuel with
  | O => fun _ => OutOfFuel
  | S fuel' =>
    h <- getThis ;;
    if (j <? SectorSize) && (k <? numBytes h) then
      Print_chars fuel' data (j + 1) (k + 1) (out ++ [print_char (charAt data j)])
    else ret (k, out)
  end.

(** The second [for] loop; [n] bounds its iterations, [fuel] those of each
    inner loop. *)
Fixpoint Print_contents (n fuel : nat) (i k : Z) (out : list Printed) : M (list Printed) :=
  match n with
  | O => fun _ => OutOfFuel
  | S n' =>
    h <- getThis ;;
    if i <? numSectors h then
      sector <- GetPhysicSector i ;;
      data <- ReadSector sector ;;
      r <- Print_chars fuel data 0 k out ;;
      Print_contents n' fuel (i + 1) (fst r) (snd r ++ [PrintNewline])
    else ret out
  end.

(** [FileHeader::Print]; the value returned is what has been printed. *)
Definition Print (n fuel : nat) : M (list Printed) :=
  h <- getThis ;;
  out <- Print_blocks n 0 [PrintSize (numBytes h)] ;;
  Print_contents n fuel 0 0 (out ++ [PrintContents]).

End Printing.

(** * Vocabulary of the specifications *)

(** [tabf f c N]: the array of [N] pointers whose first [c] entries are
    [f 0], ..., [f (c - 1)] and whose other entries are unused. *)
Definition tabf (f : Z -> Z) (c N : Z) : list Z :=
  map (fun j : nat => if Z.of_nat j <? c then f (Z.of_nat j) else -1)
      (seq 0 (Z.to_nat N)).

(** The map after [t] successive draws, and the sector returned by the draw
    that follows them. *)
Fixpoint draws (t : nat) (b : Bitmap.t) : Bitmap.t :=
  match t with
  | O => b
  | S t' => snd (Bitmap.FindAndSet (draws t' b))
  end.

Definition after (b : Bitmap.t) (t : Z) : Bitmap.t := draws (Z.to_nat t) b.

Definition drawn (b : Bitmap.t) (t : Z) : Z := fst (Bitmap.FindAndSet (after b t)).

Section Layout.

Context {K : Constants}.

(** [divRoundUp] of utility.h. *)
Definition divRoundUp (n s : Z) : Z := (n + s - 1) / s.

(** The logical sectors of a file of [fileSize] bytes. *)
Definition sectorsFor (fileSize : Z) : Z :=
  if fileSize <=? 0 then 0 else divRoundUp fileSize SectorSize.

(** The secondary indirect blocks and the index blocks of a file of [T]
    logical sectors. *)
Definition secondaryBlocks (T : Z) : Z :=
  divRoundUp (T - NumDirect - NumIndirect) NumIndirect.

Definition indexBlocks (T : Z) : Z :=
  if T <=? NumDirect then 0
  else if T <=? NumDirect + NumIndirect then 1
  else 2 + secondaryBlocks T.

(** The sectors a request of [fileSize] bytes draws from the map. *)
Definition sectorsNeeded (fileSize : Z) : Z :=
  sectorsFor fileSize + indexBlocks (sectorsFor fileSize).

(** The capacity of a header, in logical sectors and in bytes. *)
Definition maxSectors : Z := NumDirect + NumIndirect + NumIndirect * NumIndirect.
Definition maxCapacity : Z := maxSectors * SectorSize.

(** The order in which an allocation draws its sectors: the direct
    sectors, the single-indirect block and its sectors, the double-indirect
    block, then each secondary block followed by its sectors. *)
Definition doublePos : Z := NumDirect + NumIndirect + 1.
Definition secondaryPos (k : Z) : Z := NumDirect + NumIndirect + 2 + k * (NumIndirect + 1).
Definition firstLogical (k : Z) : Z := NumDirect + NumIndirect * (1 + k).
Definition drawIndex (i : Z) : Z :=
  if i <? NumDirect then i
  else if i <? NumDirect + NumIndirect then i + 1
  else i + 3 + (i - (NumDirect + NumIndirect)) / NumIndirect.

(** A machine whose header is new. *)
Definition zeroed (b : Bitmap.t) (d : Disk) : Machine := mkMachine FileHeader_new b d.

(** The index blocks an allocation of [T] logical sectors leaves on the
    disk, in terms of the sectors drawn from the map [b0]. *)
Definition singleBlock (b0 : Bitmap.t) (T : Z) : Indirect.t :=
  Indirect.mk (Z.min (T - NumDirect) NumIndirect)
    (tabf (fun j => drawn b0 (NumDirect + 1 + j))
          (Z.min (T - NumDirect) NumIndirect) NumIndirect).

Definition doubleBlock (b0 : Bitmap.t) (T : Z) : Indirect.t :=
  Indirect.mk (secondaryBlocks T)
    (tabf (fun k => drawn b0 (secondaryPos k)) (secondaryBlocks T) NumIndirect).

Definition secondaryBlock (b0 : Bitmap.t) (T k : Z) : Indirect.t :=
  Indirect.mk (Z.min (T - firstLogical k) NumIndirect)
    (tabf (fun j => drawn b0 (secondaryPos k + 1 + j))
          (Z.min (T - firstLogical k) NumIndirect) NumIndirect).

(** [allocated_store b0 s h c]: the header [h] and the sectors [c] of the
    disk describe a file of [s] bytes allocated from the map [b0]. *)
Definition allocated_store (b0 : Bitmap.t) (s : Z) (h : FileHeader) (c : Z -> Sector) : Prop :=
  let T := sectorsFor s in
  h = mkFileHeader s T (tabf (drawn b0) (Z.min T NumDirect) NumDirect)
        (if T <=? NumDirect then -1 else drawn b0 NumDirect)
        (if T <=? NumDirect + NumIndirect then -1 else drawn b0 doublePos)
        (-1) /\
  (NumDirect < T -> c (drawn b0 NumDirect) = Indirect_image (singleBlock b0 T)) /\
  (NumDirect + NumIndirect < T ->
   c (drawn b0 doublePos) = Indirect_image (doubleBlock b0 T) /\
   forall k, 0 <= k < secondaryBlocks T ->
     c (drawn b0 (secondaryPos k)) = Indirect_image (secondaryBlock b0 T k)).

(** [allocated_layout b0 s m]: the machine [m] right after the allocation. *)
Definition allocated_layout (b0 : Bitmap.t) (s : Z) (m : Machine) : Prop :=
  allocated_store b0 s (this m) (sectors (synchDisk m)) /\
  freeMap m = after b0 (sectorsNeeded s).

(** The release of an index block, as [Deallocate] does it twice after its
    loop: the sector is cleared if the header points to one and the map has
    it marked. *)
Definition release_index (sector : Z) : M unit :=
  if negb (sector =? -1) then
    b <- getFreeMap ;;
    if Bitmap.Test sector b then setFreeMap (Bitmap.Clear sector b) else ret tt
  else ret tt.

(** Two machines with the same header and the same sectors on the disk. *)
Definition same_file (m m' : Machine) : Prop :=
  this m' = this m /\ sectors (synchDisk m') = sectors (synchDisk m).

(** The sectors [Deallocate] hands back: those of the logical sectors, and
    the two index blocks the header points to. *)
Definition released (m : Machine) (y : Z) : Prop :=
  (exists i m', 0 <= i < numSectors (this m) /\ GetPhysicSector i m = Ret y m') \/
  (singleIndirectSector (this m) <> -1 /\ y = singleIndirectSector (this m)) \/
  (doubleIndirectSector (this m) <> -1 /\ y = doubleIndirectSector (this m)).

(** The translation as the spec words it, for the logical sector [i] of the
    file of [m]: a direct slot, an entry of the single-indirect block, or an
    entry of a secondary block of the double-indirect block. *)
Definition translated (m : Machine) (i : Z) : Prop :=
  let h := this m in
  let c := sectors (synchDisk m) in
  (i < NumDirect ->
   GetPhysicSector i m = Ret (zget (dataSectors h) i) m) /\
  (NumDirect <= i < NumDirect + NumIndirect ->
   let singleIndirect := Indirect_of_image (c (singleIndirectSector h)) in
   exists m',
     GetPhysicSector i m =
     Ret (zget (Indirect.dataSectors singleIndirect) (i - NumDirect)) m') /\
  (NumDirect + NumIndirect <= i ->
   let doubleIndirect := Indirect_of_image (c (doubleIndirectSector h)) in
   let secondaryIndex := (i - NumDirect - NumIndirect) / NumIndirect in
   let slot := (i - NumDirect - NumIndirect) mod NumIndirect in
   let ind := Indirect_of_image (c (zget (Indirect.dataSectors doubleIndirect) secondaryIndex)) in
   exists m',
     GetPhysicSector i m = Ret (zget (Indirect.dataSectors ind) slot) m').

(** The release discipline as the spec words it: a released sector found
    unmarked stops the deallocation. *)
Definition release_asserted (fuel : nat) (m : Machine) : Prop :=
  forall y, released m y -> Bitmap.Test y (freeMap m) = false ->
            exists m', Deallocate fuel m = Fault AssertionFailed m'.




End Layout.

(** ** Effects of a run *)

(** What a run may do to the map: [draws_only] when sectors are only drawn
    from it, [clears_only] when sectors are only handed back. *)
Definition draws_only (b b' : Bitmap.t) : Prop :=
  (forall y, Bitmap.Test y b = true -> Bitmap.Test y b' = true) /\
  Bitmap.NumClear b' <= Bitmap.NumClear b /\
  length b' = length b.

Definition clears_only (b b' : Bitmap.t) : Prop :=
  (forall y, Bitmap.Test y b' = true -> Bitmap.Test y b = true) /\
  Bitmap.NumClear b <= Bitmap.NumClear b' /\
  length b' = length b.

(** [on_map R c]: whatever the outcome of [c], the map it leaves is related
    by [R] to the map it found. *)
Definition on_map (R : Bitmap.t -> Bitmap.t -> Prop) {A} (c : M A) : Prop :=
  forall m, match c m with
            | Ret _ m' | Fault _ m' => R (freeMap m) (freeMap m')
            | OutOfFuel => True
            end.

(** The integers [lo], [lo + 1], ..., [lo + n - 1]. *)
Fixpoint zseq (lo : Z) (n : nat) : list Z :=
  match n with
  | O => []
  | S n' => lo :: zseq (lo + 1) n'
  end.

(** A run that reads: the header, the map and the contents of the disk are
    left as they are, and the disk has been asked for reads only. *)
Definition reads_only (m m' : Machine) : Prop :=
  this m' = this m /\ freeMap m' = freeMap m /\
  sectors (synchDisk m') = sectors (synchDisk m) /\
  exists rs, requests (synchDisk m') = requests (synchDisk m) ++ map ReadRequest rs.

(** The sector [GetPhysicSector] returns for the logical sector [i], and
    whether it returns one. *)
Definition physical {K : Constants} (m : Machine) (i : Z) : Z :=
  match GetPhysicSector i m with Ret p _ => p | _ => -1 end.

Definition translates {K : Constants} (m : Machine) (i : Z) : Prop :=
  exists p m', GetPhysicSector i m = Ret p m'.

(** * Concrete inputs *)

(** Modelled from the spec: disk.h and filehdr.h are not part of the sources
    at hand.  The spec's scenarios use sectors of 128 bytes; its data model
    sizes the pointer arrays so that a header (five scalar fields) and an
    indirect block (one scalar field) each fill one sector, which for
    four-byte fields gives 27 and 31 pointers. *)
Definition NachOS : Constants :=
  {| SectorSize := 128; NumDirect := 27; NumIndirect := 31 |}.

(** The constants of the first scenario of the spec: sectors of 128 bytes
    and 10 direct pointers. *)
Definition scenario_A : Constants :=
  {| SectorSize := 128; NumDirect := 10; NumIndirect := 31 |}.

(** A disk never written; maps of 1024 sectors of which none, or the last
    two, are free; a map of [n] free sectors. *)
Definition blank_disk : Disk := mkDisk (fun _ => []) [].
Definition full_map : Bitmap.t := repeat true 1024.
Definition nearly_full_map : Bitmap.t := repeat true 1022 ++ [false; false].
Definition free_map (n : nat) : Bitmap.t := repeat false n.

(** A file of 28 sectors -- the direct sectors 0 to 26, the single-indirect
    block in sector 27, its one data sector 28 -- on a map that has lost the
    mark of sector 27. *)
Definition unmarked_index_block : Machine :=
  mkMachine
    (mkFileHeader 3584 28 (map Z.of_nat (seq 0 27)) 27 (-1) (-1))
    (repeat true 27 ++ false :: true :: repeat false 35)
    (mkDisk (fun k => if k =? 27 then 1 :: 28 :: repeat (-1) 30 else []) []).


(** A map whose sector 0 is in use and whose other 99 sectors are free. *)
Definition header_map : Bitmap.t := true :: free_map 99.

(** The char at index [j] of a sector, for a host that stores an [int] in
    four bytes, the least significant first. *)
Definition word_char (data : Sector) (j : Z) : Z :=
  (zget data (j / 4) / 256 ^ (j mod 4)) mod 256.

(** A file of 6 bytes in the sectors 5 and 6 of a disk with sectors of 4
    bytes; the sectors hold the bytes 72, 105, 33, 10 and 79, 75, 0, 0. *)
Definition short_sectors : Constants :=
  {| SectorSize := 4; NumDirect := 3; NumIndirect := 2 |}.

Definition small_file : Machine :=
  mkMachine
    (mkFileHeader 6 2 [5; 6; -1] (-1) (-1) (-1))
    (repeat true 7 ++ repeat false 9)
    (mkDisk (fun k => if k =? 5 then [72 + 105 * 256 + 33 * 65536 + 10 * 16777216]
                      else if k =? 6 then [79 + 75 * 256]
                      else []) []).

(** * Verification *)

(** ** Comparisons *)

#[local] Arguments Z.add _ _ : simpl never.
#[local] Arguments Z.sub _ _ : simpl never.
#[local] Arguments Z.mul _ _ : simpl never.
#[local] Arguments Z.of_nat _ : simpl never.
#[local] Arguments Z.to_nat _ : simpl never.
#[local] Arguments Z.quot _ _ : simpl never.
#[local] Arguments Z.rem _ _ : simpl never.
#[local] Arguments Z.div _ _ : simpl never.
#[local] Arguments Z.modulo _ _ : simpl never.

Ltac zbool :=
  repeat match goal with
  | |- context [?a <=? ?b] =>
      first [ rewrite (proj2 (Z.leb_le a b)) by lia
            | rewrite (proj2 (Z.leb_gt a b)) by lia ]
  | |- context [?a <? ?b] =>
      first [ rewrite (proj2 (Z.ltb_lt a b)) by lia
            | rewrite (proj2 (Z.ltb_ge a b)) by lia ]
  | |- context [?a >=? ?b] => rewrite (Z.geb_leb a b)
  | |- context [?a >? ?b] => rewrite (Z.gtb_ltb a b)
  | |- context [?a =? ?b] =>
      first [ rewrite (proj2 (Z.eqb_eq a b)) by lia
            | rewrite (proj2 (Z.eqb_neq a b)) by lia ]
  end.

(** ** Arrays *)

Lemma set_nth_length n x l : length (set_nth n x l) = length l.
Proof.
  revert n; induction l as [|a l IH]; intros [|n]; simpl; auto.
Qed.

Lemma nth_set_nth n x l k d :
  (n < length l)%nat ->
  nth k (set_nth n x l) d = if Nat.eqb k n then x else nth k l d.
Proof.
  revert n k; induction l as [|a l IH]; intros n k Hn; simpl in Hn; [lia|].
  destruct n as [|n]; destruct k as [|k]; simpl; auto.
  apply IH; lia.
Qed.

Lemma inBounds_iff l i :
  inBounds l i = true <-> 0 <= i < Z.of_nat (length l).
Proof.
  unfold inBounds. rewrite andb_true_iff, Z.leb_le, Z.ltb_lt. tauto.
Qed.

Lemma take_words_exact n l : length l = n -> take_words n l = l.
Proof.
  intros <-. unfold take_words.
  rewrite firstn_app, firstn_all, Nat.sub_diag. simpl. apply app_nil_r.
Qed.

Lemma tabf_length f c N : length (tabf f c N) = Z.to_nat N.
Proof. unfold tabf. now rewrite length_map, length_seq. Qed.

Lemma nth_map_seq (g : nat -> Z) n k d :
  (k < n)%nat -> nth k (map g (seq 0 n)) d = g k.
Proof.
  intros Hk.
  rewrite nth_indep with (d' := g O) by (now rewrite length_map, length_seq).
  rewrite (map_nth g), seq_nth by assumption. reflexivity.
Qed.

Lemma tabf_nth f c N k :
  (k < Z.to_nat N)%nat ->
  nth k (tabf f c N) 0 = if Z.of_nat k <? c then f (Z.of_nat k) else -1.
Proof.
  intros Hk. unfold tabf. now rewrite nth_map_seq.
Qed.

Lemma tabf_get f c N j :
  0 <= j < N -> zget (tabf f c N) j = if j <? c then f j else -1.
Proof.
  intros Hj. unfold zget. rewrite tabf_nth by lia.
  now rewrite Z2Nat.id by lia.
Qed.

Lemma tabf_inBounds f c N j :
  inBounds (tabf f c N) j = (0 <=? j) && (j <? Z.max 0 N).
Proof.
  unfold inBounds. rewrite tabf_length. f_equal.
  destruct (Z.ltb_spec j (Z.of_nat (Z.to_nat N))), (Z.ltb_spec j (Z.max 0 N)); auto; lia.
Qed.

Lemma tabf_set f c N :
  0 <= c < N -> zset (tabf f c N) c (f c) = tabf f (c + 1) N.
Proof.
  intros Hc. unfold zset.
  apply nth_ext with (d := 0) (d' := 0).
  - now rewrite set_nth_length, !tabf_length.
  - intros k Hk. rewrite set_nth_length, tabf_length in Hk.
    rewrite nth_set_nth by (rewrite tabf_length; lia).
    rewrite !tabf_nth by assumption.
    destruct (Nat.eqb_spec k (Z.to_nat c)) as [->|Hne].
    + rewrite Z2Nat.id by lia. now zbool.
    + destruct (Z.ltb_spec (Z.of_nat k) c), (Z.ltb_spec (Z.of_nat k) (c + 1)); auto; lia.
Qed.

Lemma tabf_0 f N : tabf f 0 N = repeat (-1) (Z.to_nat N).
Proof.
  apply nth_ext with (d := 0) (d' := 0).
  - now rewrite tabf_length, repeat_length.
  - intros k Hk. rewrite tabf_length in Hk. rewrite tabf_nth by assumption.
    zbool. rewrite nth_indep with (d' := -1) by (now rewrite repeat_length).
    now rewrite nth_repeat.
Qed.

Lemma tabf_ext f g c N :
  (forall j, 0 <= j < c -> f j = g j) -> tabf f c N = tabf g c N.
Proof.
  intros H. unfold tabf. apply map_ext. intros j.
  destruct (Z.ltb_spec (Z.of_nat j) c); auto. apply H; lia.
Qed.

(** ** The bitmap *)

Lemma NumClear_nonneg b : 0 <= Bitmap.NumClear b.
Proof. induction b as [|[] b IH]; simpl; lia. Qed.

Lemma set_bit_length n v b : length (Bitmap.set_bit n v b) = length b.
Proof. revert n; induction b as [|a b IH]; intros [|n]; simpl; auto. Qed.

Lemma nth_set_bit n v b k :
  (n < length b)%nat ->
  nth k (Bitmap.set_bit n v b) false = if Nat.eqb k n then v else nth k b false.
Proof.
  revert n k; induction b as [|a b IH]; intros n k Hn; simpl in Hn; [lia|].
  destruct n as [|n]; destruct k as [|k]; simpl; auto.
  apply IH; lia.
Qed.

Lemma set_bit_beyond n v b : (length b <= n)%nat -> Bitmap.set_bit n v b = b.
Proof.
  revert n; induction b as [|a b IH]; intros [|n] Hn; simpl in *; auto; try lia.
  f_equal. apply IH. lia.
Qed.

Lemma Test_negative y b : y < 0 -> Bitmap.Test y b = false.
Proof. intros. unfold Bitmap.Test. now zbool. Qed.

Lemma Test_beyond y b : Z.of_nat (length b) <= y -> Bitmap.Test y b = false.
Proof.
  intros. unfold Bitmap.Test. rewrite nth_overflow by lia. apply andb_false_r.
Qed.

Lemma Test_set_bit x v y b :
  0 <= x < Z.of_nat (length b) ->
  Bitmap.Test y (Bitmap.set_bit (Z.to_nat x) v b) =
  if y =? x then v else Bitmap.Test y b.
Proof.
  intros Hx. unfold Bitmap.Test.
  destruct (Z.leb_spec 0 y) as [Hy|Hy]; simpl.
  - rewrite nth_set_bit by lia.
    destruct (Nat.eqb_spec (Z.to_nat y) (Z.to_nat x)), (Z.eqb_spec y x); auto; lia.
  - now zbool.
Qed.

Lemma Test_Mark x y b :
  0 <= x < Z.of_nat (length b) ->
  Bitmap.Test y (Bitmap.Mark x b) = Bitmap.Test y b || (y =? x).
Proof.
  intros Hx. unfold Bitmap.Mark. zbool. rewrite Test_set_bit by assumption.
  destruct (y =? x); [now rewrite orb_true_r | now rewrite orb_false_r].
Qed.

Lemma Test_Clear x y b :
  Bitmap.Test y (Bitmap.Clear x b) = Bitmap.Test y b && negb (y =? x).
Proof.
  unfold Bitmap.Clear.
  destruct (Z.leb_spec 0 x) as [Hx|Hx].
  - destruct (Z.lt_ge_cases x (Z.of_nat (length b))) as [Hl|Hl].
    + rewrite Test_set_bit by lia.
      destruct (y =? x); simpl; [now rewrite andb_false_r | now rewrite andb_true_r].
    + rewrite set_bit_beyond by lia.
      destruct (Z.eqb_spec y x) as [->|]; simpl; [|now rewrite andb_true_r].
      now rewrite Test_beyond by lia.
  - destruct (Z.eqb_spec y x) as [->|]; simpl; [|now rewrite andb_true_r].
    now rewrite Test_negative by lia.
Qed.

Lemma find_clear_Some b i :
  Bitmap.find_clear b = Some i ->
  (i < length b)%nat /\ nth i b false = false /\
  forall j, (j < i)%nat -> nth j b false = true.
Proof.
  revert i; induction b as [|a b IH]; intros i H; simpl in H; [discriminate|].
  destruct a.
  - destruct (Bitmap.find_clear b) as [k|] eqn:E; simpl in H; [|discriminate].
    injection H as <-. destruct (IH k eq_refl) as (H1 & H2 & H3).
    simpl. repeat split; [lia | assumption |].
    intros [|j] Hj; auto. apply H3. lia.
  - injection H as <-. simpl. repeat split; [lia|]. intros j Hj; lia.
Qed.

Lemma find_clear_None b : Bitmap.find_clear b = None -> Bitmap.NumClear b = 0.
Proof.
  induction b as [|a b IH]; simpl; auto.
  destruct a; [|discriminate].
  destruct (Bitmap.find_clear b); simpl; [discriminate|]. intros _. now rewrite IH.
Qed.

Lemma NumClear_set_true i b :
  (i < length b)%nat -> nth i b false = false ->
  Bitmap.NumClear (Bitmap.set_bit i true b) = Bitmap.NumClear b - 1.
Proof.
  revert i; induction b as [|a b IH]; intros i Hi Hn; simpl in *; [lia|].
  destruct i as [|i]; simpl.
  - subst a. lia.
  - rewrite IH by (assumption || lia). lia.
Qed.

(** A draw from a map with a free sector: the sector returned is the first
    clear one, and it is marked afterwards. *)
Lemma FindAndSet_spec b :
  0 < Bitmap.NumClear b ->
  exists x b', Bitmap.FindAndSet b = (x, b') /\
    0 <= x < Z.of_nat (length b) /\
    Bitmap.Test x b = false /\
    (forall y, 0 <= y < x -> Bitmap.Test y b = true) /\
    (forall y, Bitmap.Test y b' = Bitmap.Test y b || (y =? x)) /\
    Bitmap.NumClear b' = Bitmap.NumClear b - 1.
Proof.
  intros Hpos. unfold Bitmap.FindAndSet.
  destruct (Bitmap.find_clear b) as [i|] eqn:E.
  - destruct (find_clear_Some _ _ E) as (H1 & H2 & H3).
    exists (Z.of_nat i), (Bitmap.Mark (Z.of_nat i) b).
    split; [reflexivity|]. split; [lia|].
    split; [unfold Bitmap.Test; rewrite Nat2Z.id, H2; apply andb_false_r|].
    split; [|split].
    + intros y Hy. unfold Bitmap.Test. zbool. simpl. apply H3. lia.
    + intros y. apply Test_Mark. lia.
    + unfold Bitmap.Mark. zbool. rewrite Nat2Z.id. now apply NumClear_set_true.
  - apply find_clear_None in E. lia.
Qed.

Lemma FindAndSet_grows b y :
  Bitmap.Test y b = true -> Bitmap.Test y (snd (Bitmap.FindAndSet b)) = true.
Proof.
  intros Hy. unfold Bitmap.FindAndSet.
  destruct (Bitmap.find_clear b) as [i|] eqn:E; simpl; auto.
  destruct (find_clear_Some _ _ E) as (H1 & _).
  rewrite Test_Mark by lia. now rewrite Hy.
Qed.

Lemma after_0 b : after b 0 = b.
Proof. reflexivity. Qed.

Lemma FindAndSet_after b t :
  0 <= t -> Bitmap.FindAndSet (after b t) = (drawn b t, after b (t + 1)).
Proof.
  intros Ht. unfold drawn, after.
  replace (Z.to_nat (t + 1)) with (S (Z.to_nat t)) by lia. simpl.
  now destruct (Bitmap.FindAndSet (draws (Z.to_nat t) b)).
Qed.

Lemma after_NumClear b n :
  0 <= n <= Bitmap.NumClear b -> Bitmap.NumClear (after b n) = Bitmap.NumClear b - n.
Proof.
  intros Hn. assert (H0 : 0 <= n) by lia.
  revert Hn. pattern n. apply natlike_ind; [| |exact H0]; clear n H0.
  - intros _. rewrite after_0. lia.
  - intros k Hk IH Hle. unfold Z.succ in *.
    assert (Hc : 0 < Bitmap.NumClear (after b k)) by (rewrite IH; lia).
    destruct (FindAndSet_spec _ Hc) as (x & b' & E & _ & _ & _ & _ & HN).
    rewrite FindAndSet_after in E by assumption. injection E as _ <-.
    rewrite HN, IH; lia.
Qed.

Lemma after_mono b n n' y :
  0 <= n <= n' -> Bitmap.Test y (after b n) = true -> Bitmap.Test y (after b n') = true.
Proof.
  intros [Hn Hle] Hy.
  replace n' with (n + Z.of_nat (Z.to_nat (n' - n))) by lia.
  induction (Z.to_nat (n' - n)) as [|k IH].
  - now rewrite Z.add_0_r.
  - replace (n + Z.of_nat (S k)) with (n + Z.of_nat k + 1) by lia.
    pose proof (FindAndSet_after b (n + Z.of_nat k) ltac:(lia)) as E.
    pose proof (FindAndSet_grows _ _ IH) as G. now rewrite E in G.
Qed.

Lemma drawn_spec b t :
  0 <= t < Bitmap.NumClear b ->
  0 <= drawn b t < Z.of_nat (length (after b t)) /\
  Bitmap.Test (drawn b t) (after b t) = false /\
  (forall y, 0 <= y < drawn b t -> Bitmap.Test y (after b t) = true) /\
  Bitmap.Test (drawn b t) (after b (t + 1)) = true.
Proof.
  intros Ht.
  assert (Hc : 0 < Bitmap.NumClear (after b t)) by (rewrite after_NumClear; lia).
  destruct (FindAndSet_spec _ Hc) as (x & b' & E & H1 & H2 & H3 & H4 & _).
  rewrite FindAndSet_after in E by lia. injection E as <- <-.
  repeat split; try assumption; try lia.
  rewrite H4, Z.eqb_refl. apply orb_true_r.
Qed.

Lemma drawn_nonneg b t : 0 <= t < Bitmap.NumClear b -> 0 <= drawn b t.
Proof. intros H. apply (drawn_spec b t H). Qed.

Lemma drawn_marked b t n :
  0 <= t < n -> t < Bitmap.NumClear b ->
  Bitmap.Test (drawn b t) (after b n) = true.
Proof.
  intros Ht Hc. apply after_mono with (n := t + 1); [lia|].
  apply (drawn_spec b t); lia.
Qed.

Lemma drawn_clear_before b t :
  0 <= t < Bitmap.NumClear b -> Bitmap.Test (drawn b t) b = false.
Proof.
  intros Ht. destruct (Bitmap.Test (drawn b t) b) eqn:E; auto.
  assert (E' : Bitmap.Test (drawn b t) (after b 0) = true) by exact E.
  apply after_mono with (n' := t) in E'; [|lia].
  destruct (drawn_spec b t Ht) as (_ & H & _). congruence.
Qed.

(** Successive draws return increasing sector numbers. *)
Lemma drawn_lt b t t' :
  0 <= t < t' -> t' < Bitmap.NumClear b -> drawn b t < drawn b t'.
Proof.
  intros Ht Hc.
  destruct (drawn_spec b t ltac:(lia)) as (H0 & _ & Hlow & _).
  destruct (drawn_spec b t' ltac:(lia)) as (H0' & Hclear & _ & _).
  pose proof (drawn_marked b t t' ltac:(lia) ltac:(lia)) as Hm.
  destruct (Z.lt_trichotomy (drawn b t) (drawn b t')) as [L|[L|L]]; auto.
  - rewrite L in Hm. congruence.
  - pose proof (Hlow (drawn b t') ltac:(lia)) as Hm'.
    apply after_mono with (n' := t') in Hm'; [congruence | lia].
Qed.

Lemma drawn_inj b t t' :
  0 <= t < Bitmap.NumClear b -> 0 <= t' < Bitmap.NumClear b ->
  drawn b t = drawn b t' -> t = t'.
Proof.
  intros Ht Ht' E.
  destruct (Z.lt_trichotomy t t') as [L|[L|L]]; auto.
  - pose proof (drawn_lt b t t' ltac:(lia) ltac:(lia)). lia.
  - pose proof (drawn_lt b t' t ltac:(lia) ltac:(lia)). lia.
Qed.

(** ** Reads after writes *)

Lemma Disk_write_same d n s : sectors (Disk_write d n s) n = s.
Proof. unfold Disk_write. cbn [sectors]. now rewrite Z.eqb_refl. Qed.

Lemma Disk_write_other d n s k : k <> n -> sectors (Disk_write d n s) k = sectors d k.
Proof. intros H. unfold Disk_write. cbn [sectors]. now zbool. Qed.

(** ** Stepping through the member functions *)

Ltac hsimpl :=
  unfold modifyThis, setThis, setFreeMap, getThis, getFreeMap, ret,
    set_numBytes, set_numSectors, set_dataSectors,
    set_singleIndirectSector, set_doubleIndirectSector;
  cbn [this freeMap synchDisk numBytes numSectors dataSectors
       singleIndirectSector doubleIndirectSector headerSector
       Indirect.numSectors Indirect.dataSectors andb negb].

Ltac hsimpl_in H :=
  unfold modifyThis, setThis, setFreeMap, getThis, getFreeMap, ret,
    set_numBytes, set_numSectors, set_dataSectors,
    set_singleIndirectSector, set_doubleIndirectSector in H;
  cbn [this freeMap synchDisk numBytes numSectors dataSectors
       singleIndirectSector doubleIndirectSector headerSector
       Indirect.numSectors Indirect.dataSectors andb negb] in H.

(** ** Frame properties of translation and deallocation *)

Section Frames.

Context {K : Constants}.

Lemma Deallocate_unfold fuel :
  Deallocate fuel =
  (Deallocate_loop fuel 0 ;;
   h <- getThis ;; release_index (singleIndirectSector h) ;;
   h <- getThis ;; release_index (doubleIndirectSector h)).
Proof. reflexivity. Qed.

Lemma release_index_run x m :
  exists b,
    release_index x m = Ret tt (mkMachine (this m) b (synchDisk m)) /\
    forall y, Bitmap.Test y b =
              Bitmap.Test y (freeMap m) && negb ((y =? x) && negb (x =? -1)).
Proof.
  unfold release_index.
  destruct (Z.eqb_spec x (-1)) as [->|Hx]; cbn [negb].
  - exists (freeMap m). split; [now destruct m|].
    intros y. now rewrite andb_false_r, andb_true_r.
  - unfold bind, getFreeMap, setFreeMap, ret.
    destruct (Bitmap.Test x (freeMap m)) eqn:E.
    + eexists. split; [reflexivity|]. intros y.
      now rewrite Test_Clear, andb_true_r.
    + exists (freeMap m). split; [now destruct m|].
      intros y. rewrite andb_true_r.
      destruct (Z.eqb_spec y x) as [->|]; cbn [negb].
      * now rewrite E.
      * now rewrite andb_true_r.
Qed.

(** [GetPhysicSector] without the monad: the outcome by cases. *)
Lemma GetPhysicSector_eval i m :
  GetPhysicSector i m =
  let h := this m in
  let c := sectors (synchDisk m) in
  let after_read n := mkMachine h (freeMap m) (snd (Disk_read (synchDisk m) n)) in
  if i <? NumDirect then
    if inBounds (dataSectors h) i then Ret (zget (dataSectors h) i) m
    else Fault OutOfBounds m
  else if i <? NumDirect + NumIndirect then
    if singleIndirectSector h =? -1 then Fault AssertionFailed m
    else
      let blk := Indirect_of_image (c (singleIndirectSector h)) in
      let m1 := after_read (singleIndirectSector h) in
      if inBounds (Indirect.dataSectors blk) (i - NumDirect)
      then Ret (zget (Indirect.dataSectors blk) (i - NumDirect)) m1
      else Fault OutOfBounds m1
  else
    if doubleIndirectSector h =? -1 then Fault AssertionFailed m
    else
      let dblk := Indirect_of_image (c (doubleIndirectSector h)) in
      let m1 := after_read (doubleIndirectSector h) in
      let single := Z.quot (i - (NumDirect + NumIndirect)) NumIndirect in
      if inBounds (Indirect.dataSectors dblk) single then
        let e := zget (Indirect.dataSectors dblk) single in
        let blk := Indirect_of_image (c e) in
        let m2 := mkMachine h (freeMap m) (snd (Disk_read (synchDisk m1) e)) in
        let pos := Z.rem (i - (NumDirect + NumIndirect)) NumIndirect in
        if inBounds (Indirect.dataSectors blk) pos
        then Ret (zget (Indirect.dataSectors blk) pos) m2
        else Fault OutOfBounds m2
      else Fault OutOfBounds m1.
Proof.
  destruct m as [h b d]. cbv zeta. cbn [this freeMap synchDisk].
  unfold GetPhysicSector. unfold bind at 1. hsimpl.
  destruct (i <? NumDirect).
  { unfold load. now destruct (inBounds (dataSectors h) i). }
  destruct (Z.ltb_spec i (NumDirect + NumIndirect)) as [Hlt|Hge].
  { unfold bind at 1. unfold ASSERT.
    destruct (singleIndirectSector h =? -1); [reflexivity|]. hsimpl.
    unfold bind at 1. hsimpl. zbool. hsimpl. unfold bind at 1.
    unfold ReadSector. cbn [this freeMap synchDisk Disk_read snd sectors].
    unfold load.
    now destruct (inBounds _ (i - NumDirect)). }
  unfold bind at 1. unfold ASSERT.
  destruct (doubleIndirectSector h =? -1); [reflexivity|]. hsimpl.
  unfold bind at 1. hsimpl. zbool. hsimpl. unfold bind at 1.
  unfold ReadSector at 1. cbn [this freeMap synchDisk Disk_read snd sectors].
  unfold bind at 1. unfold load at 1.
  destruct (inBounds _ (Z.quot (i - (NumDirect + NumIndirect)) NumIndirect)); [|reflexivity].
  hsimpl. unfold bind at 1.
  unfold ReadSector. cbn [this freeMap synchDisk Disk_read snd sectors].
  unfold load.
  now destruct (inBounds _ (Z.rem (i - (NumDirect + NumIndirect)) NumIndirect)).
Qed.

(** A translation reads the header and the disk, and changes neither them
    nor the map. *)
Lemma GetPhysicSector_frame i m :
  match GetPhysicSector i m with
  | Ret _ m' | Fault _ m' => same_file m m' /\ freeMap m' = freeMap m
  | OutOfFuel => False
  end.
Proof.
  rewrite GetPhysicSector_eval. cbv zeta. unfold same_file.
  repeat match goal with
         | |- context [if ?c then _ else _] => destruct c
         end; cbn [Disk_read snd this freeMap synchDisk sectors]; auto.
Qed.

(** Its outcome is decided by the header and the sectors of the disk. *)
Lemma GetPhysicSector_same_file i m1 m2 y m1' :
  same_file m1 m2 ->
  GetPhysicSector i m1 = Ret y m1' ->
  exists m2', GetPhysicSector i m2 = Ret y m2'.
Proof.
  intros (Hh & Hs).
  rewrite !GetPhysicSector_eval. cbv zeta. rewrite Hh, Hs.
  repeat match goal with
         | |- context [if ?c then _ else _] => destruct c
         end;
    intros E; try discriminate E; injection E as <- _; eexists; reflexivity.
Qed.

Lemma same_file_refl m : same_file m m.
Proof. split; reflexivity. Qed.

Lemma same_file_trans m1 m2 m3 : same_file m1 m2 -> same_file m2 m3 -> same_file m1 m3.
Proof. intros (A & B) (C & D). split; congruence. Qed.

Lemma same_file_sym m1 m2 : same_file m1 m2 -> same_file m2 m1.
Proof. intros (A & B). split; congruence. Qed.

(** The loop of [Deallocate] touches nothing but the map, whatever its
    outcome. *)
Lemma Deallocate_loop_frame fuel i m :
  match Deallocate_loop fuel i m with
  | Ret _ m' | Fault _ m' => same_file m m'
  | OutOfFuel => True
  end.
Proof.
  revert i m. induction fuel as [|fuel IH]; intros i m; [exact I|].
  cbn [Deallocate_loop]. unfold bind at 1. hsimpl.
  destruct (i <? numSectors (this m)); [|apply same_file_refl].
  unfold bind at 1.
  pose proof (GetPhysicSector_frame i m) as F.
  destruct (GetPhysicSector i m) as [p m1|f m1|]; [|tauto|tauto].
  destruct F as (F & Fb).
  unfold bind at 1. hsimpl. unfold bind at 1. unfold ASSERT.
  destruct (Bitmap.Test p (freeMap m1)); [|exact F].
  hsimpl. unfold bind at 1. hsimpl.
  match goal with |- context [Deallocate_loop fuel ?j ?m2] =>
    pose proof (IH j m2) as G; destruct (Deallocate_loop fuel j m2)
  end; try exact I; (eapply same_file_trans; [exact F|exact G]).
Qed.

(** What the loop of [Deallocate] does to the map when it returns. *)
Lemma Deallocate_loop_exact fuel :
  forall i m m',
    Deallocate_loop fuel i m = Ret tt m' ->
    forall y, Bitmap.Test y (freeMap m') = true <->
      (Bitmap.Test y (freeMap m) = true /\
       ~ exists j m'', i <= j < numSectors (this m) /\ GetPhysicSector j m = Ret y m'').
Proof.
  induction fuel as [|fuel IH]; intros i m m' E y; [discriminate E|].
  cbn [Deallocate_loop] in E. unfold bind at 1 in E. hsimpl_in E.
  destruct (Z.ltb_spec i (numSectors (this m))) as [Hlt|Hge].
  2:{ injection E as <-. split; [|tauto]. intros Hy. split; [exact Hy|].
      intros (j & _ & Hj & _). lia. }
  unfold bind at 1 in E.
  pose proof (GetPhysicSector_frame i m) as F.
  destruct (GetPhysicSector i m) as [p m1|f m1|] eqn:G; [|discriminate E|discriminate E].
  destruct F as (F & Fb).
  unfold bind at 1 in E. hsimpl_in E. unfold bind at 1 in E. unfold ASSERT in E.
  destruct (Bitmap.Test p (freeMap m1)) eqn:Hp; [|discriminate E].
  hsimpl_in E. unfold bind at 1 in E. hsimpl_in E.
  set (m2 := mkMachine (this m1) (Bitmap.Clear p (freeMap m1)) (synchDisk m1)) in E.
  assert (F2 : same_file m m2) by exact F.
  rewrite (IH _ _ _ E y). unfold m2 at 1. cbn [freeMap].
  rewrite Test_Clear, andb_true_iff, negb_true_iff, Z.eqb_neq, Fb.
  replace (numSectors (this m2)) with (numSectors (this m))
    by (unfold m2; cbn [this]; destruct F as (-> & _); reflexivity).
  split.
  - intros ((Hy & Hne) & Hno). split; [exact Hy|].
    intros (j & m'' & Hj & Ej).
    destruct (Z.eq_dec j i) as [->|Hji].
    + rewrite G in Ej. injection Ej as -> _. now apply Hne.
    + destruct (GetPhysicSector_same_file j m m2 y m'' F2 Ej) as (m3 & E3).
      apply Hno. exists j, m3. split; [lia|exact E3].
  - intros (Hy & Hno). split; [split; [exact Hy|]|].
    + intros ->. apply Hno. exists i, m1. split; [lia|exact G].
    + intros (j & m'' & Hj & Ej).
      destruct (GetPhysicSector_same_file j m2 m y m'' (same_file_sym _ _ F2) Ej) as (m3 & E3).
      apply Hno. exists j, m3. split; [lia|exact E3].
Qed.

(** The release of the index blocks cannot stop the run. *)
Lemma Deallocate_after_loop fuel m m1 :
  Deallocate_loop fuel 0 m = Ret tt m1 ->
  exists b2,
    Deallocate fuel m = Ret tt (mkMachine (this m1) b2 (synchDisk m1)) /\
    forall y, Bitmap.Test y b2 =
      Bitmap.Test y (freeMap m1)
      && negb ((y =? singleIndirectSector (this m1)) && negb (singleIndirectSector (this m1) =? -1))
      && negb ((y =? doubleIndirectSector (this m1)) && negb (doubleIndirectSector (this m1) =? -1)).
Proof.
  intros E. rewrite Deallocate_unfold. unfold bind at 1. rewrite E.
  unfold bind at 1. hsimpl. unfold bind at 1.
  destruct (release_index_run (singleIndirectSector (this m1)) m1) as (b1 & E1 & T1).
  rewrite E1. unfold bind at 1. hsimpl.
  destruct (release_index_run (doubleIndirectSector (this m1))
              (mkMachine (this m1) b1 (synchDisk m1))) as (b2 & E2 & T2).
  cbn [this freeMap synchDisk] in E2, T2.
  exists b2. split; [exact E2|].
  intros y. now rewrite T2, T1.
Qed.

(** [Deallocate], when it returns, has cleared the released sectors and no
    other. *)
Lemma Deallocate_exact fuel m m' :
  Deallocate fuel m = Ret tt m' ->
  same_file m m' /\
  forall y, Bitmap.Test y (freeMap m') = true <->
            (Bitmap.Test y (freeMap m) = true /\ ~ released m y).
Proof.
  intros E.
  pose proof (Deallocate_loop_frame fuel 0 m) as F.
  rewrite Deallocate_unfold in E. unfold bind at 1 in E.
  destruct (Deallocate_loop fuel 0 m) as [[] m1|f m1|] eqn:L; try discriminate E.
  destruct (Deallocate_after_loop fuel m m1 L) as (b2 & E2 & T2).
  rewrite Deallocate_unfold in E2. unfold bind at 1 in E2. rewrite L in E2.
  rewrite E2 in E. injection E as <-.
  split; [exact F|]. cbn [freeMap].
  intros y. rewrite T2, !andb_true_iff, (Deallocate_loop_exact fuel 0 m m1 L y).
  destruct F as (Fh & _). rewrite Fh.
  rewrite !negb_true_iff, !andb_false_iff, !negb_false_iff, !Z.eqb_eq, !Z.eqb_neq.
  unfold released. split.
  - intros (((Hy & Hno) & H1) & H2). split; [exact Hy|].
    intros [(i & m'' & Hi & Ei)|[(A & B)|(A & B)]].
    + apply Hno. exists i, m''. split; [lia|exact Ei].
    + destruct H1; congruence.
    + destruct H2; congruence.
  - intros (Hy & Hno). repeat split.
    + exact Hy.
    + intros (j & m'' & Hj & Ej). apply Hno. left. exists j, m''. split; [lia|exact Ej].
    + destruct (Z.eq_dec (singleIndirectSector (this m)) (-1)); [now right|].
      left. intros ->. apply Hno. right. left. now split.
    + destruct (Z.eq_dec (doubleIndirectSector (this m)) (-1)); [now right|].
      left. intros ->. apply Hno. right. right. now split.
Qed.







(** ** Translation by cases *)

Lemma take_words_length n ws : length (take_words n ws) = n.
Proof.
  unfold take_words. rewrite length_firstn, length_app, repeat_length. lia.
Qed.

Lemma Indirect_of_image_inBounds s j :
  inBounds (Indirect.dataSectors (Indirect_of_image s)) j =
  (0 <=? j) && (j <? Z.of_nat (Z.to_nat NumIndirect)).
Proof.
  unfold inBounds, Indirect_of_image. cbn [Indirect.dataSectors].
  now rewrite take_words_length.
Qed.

(** C4, amended.  For a logical sector [i] of a header (an array of
    [NumDirect] direct pointers) within the capacity
    [NumDirect + NumIndirect + NumIndirect * NumIndirect]: below [NumDirect]
    the direct slot [i] is returned and the disk is not asked for anything;
    below [NumDirect + NumIndirect] the entry [i - NumDirect] of the block
    read from [singleIndirectSector] is returned; otherwise the entry
    [(i - NumDirect - NumIndirect) mod NumIndirect] of the secondary block
    found at slot [(i - NumDirect - NumIndirect) / NumIndirect] of the block
    read from [doubleIndirectSector] -- each provided the pointer followed is
    not the sentinel [-1]; when it is, the translation stops on its
    assertion without reading the disk. *)
Theorem GetPhysicSector_cases m i :
  length (dataSectors (this m)) = Z.to_nat NumDirect ->
  0 < NumIndirect ->
  0 <= i < maxSectors ->
  (i < NumDirect -> translated m i) /\
  (NumDirect <= i < NumDirect + NumIndirect ->
   (singleIndirectSector (this m) <> -1 -> translated m i) /\
   (singleIndirectSector (this m) = -1 -> GetPhysicSector i m = Fault AssertionFailed m)) /\
  (NumDirect + NumIndirect <= i ->
   (doubleIndirectSector (this m) <> -1 -> translated m i) /\
   (doubleIndirectSector (this m) = -1 -> GetPhysicSector i m = Fault AssertionFailed m)).
Proof.
  intros Hlen HNI Hi.
  unfold translated. cbv zeta. rewrite GetPhysicSector_eval. cbv zeta.
  split; [|split].
  - intros H. zbool.
    replace (inBounds (dataSectors (this m)) i) with true
      by (symmetry; apply inBounds_iff; lia).
    split; [reflexivity|]. split; intros; lia.
  - intros H. zbool. split.
    + intros Hs. split; [intros; lia|]. split; [|intros; lia].
      intros _. zbool. rewrite Indirect_of_image_inBounds. zbool.
      eexists. reflexivity.
    + intros ->. reflexivity.
  - intros H. zbool. split.
    + intros Hd. split; [intros; lia|]. split; [intros; lia|].
      intros _. zbool.
      assert (Hne : NumIndirect <> 0) by lia.
      pose proof (Z.div_mod (i - (NumDirect + NumIndirect)) NumIndirect Hne) as E.
      pose proof (Z.mod_pos_bound (i - (NumDirect + NumIndirect)) NumIndirect HNI) as B.
      assert (0 <= (i - (NumDirect + NumIndirect)) / NumIndirect < NumIndirect).
      { split; [apply Z.div_pos; lia|]. unfold maxSectors in Hi.
        apply Z.div_lt_upper_bound; nia. }
      rewrite Z.quot_div_nonneg, Z.rem_mod_nonneg by lia.
      replace (i - NumDirect - NumIndirect) with (i - (NumDirect + NumIndirect)) by ring.
      rewrite !Indirect_of_image_inBounds. zbool.
      eexists. reflexivity.
    + intros ->. reflexivity.
Qed.

(** [ByteToSector] is the translation of the sector that holds the byte. *)
Lemma ByteToSector_GetPhysicSector offset m :
  0 <= offset -> 0 < SectorSize ->
  ByteToSector offset m = GetPhysicSector (offset / SectorSize) m.
Proof.
  intros H0 HS. unfold ByteToSector. now rewrite Z.quot_div_nonneg.
Qed.

(** ** Deallocation *)

(** C10.  Whatever the outcome of [Deallocate], the header object is what it
    was before the call in every field ([numBytes], [numSectors],
    [dataSectors], [singleIndirectSector], [doubleIndirectSector],
    [headerSector]), and so are the sectors on the disk: the call changes
    the map only, and the header still describes the released layout. *)
Theorem Deallocate_leaves_header fuel m :
  match Deallocate fuel m with
  | Ret _ m' | Fault _ m' =>
      this m' = this m /\ sectors (synchDisk m') = sectors (synchDisk m)
  | OutOfFuel => True
  end.
Proof.
  pose proof (Deallocate_loop_frame fuel 0 m) as F.
  destruct (Deallocate fuel m) as [[] m'|f m'|] eqn:E; [| |exact I];
    rewrite Deallocate_unfold in E; unfold bind at 1 in E;
    destruct (Deallocate_loop fuel 0 m) as [[] m1|f1 m1|] eqn:L; try discriminate E.
  - destruct (Deallocate_after_loop fuel m m1 L) as (b2 & E2 & _).
    rewrite Deallocate_unfold in E2. unfold bind at 1 in E2. rewrite L in E2.
    rewrite E2 in E. injection E as <-. exact F.
  - destruct (Deallocate_after_loop fuel m m1 L) as (b2 & E2 & _).
    rewrite Deallocate_unfold in E2. unfold bind at 1 in E2. rewrite L in E2.
    rewrite E2 in E. discriminate E.
  - injection E as <- <-. exact F.
Qed.

(** C6, amended.  In the loop of [Deallocate] the sector of a logical index
    is tested before it is cleared, and the run stops on the assertion, the
    map untouched by that step, when the sector is not marked.  The sectors
    of the single-indirect and of the double-indirect block are not
    asserted: each is cleared when the map has it marked and skipped
    otherwise, so that once the loop has returned [Deallocate] returns. *)
Theorem Deallocate_asserts_data_sectors fuel :
  (forall i m pos m1,
     i < numSectors (this m) ->
     GetPhysicSector i m = Ret pos m1 ->
     Bitmap.Test pos (freeMap m) = false ->
     Deallocate_loop (S fuel) i m = Fault AssertionFailed m1 /\ freeMap m1 = freeMap m) /\
  (forall m m1,
     Deallocate_loop fuel 0 m = Ret tt m1 ->
     exists m2, Deallocate fuel m = Ret tt m2).
Proof.
  split.
  - intros i m pos m1 Hi G Hp.
    pose proof (GetPhysicSector_frame i m) as F. rewrite G in F. destruct F as (_ & Fb).
    split; [|exact Fb].
    cbn [Deallocate_loop]. unfold bind at 1. hsimpl. zbool.
    unfold bind at 1. rewrite G. unfold bind at 1. hsimpl.
    unfold bind at 1. unfold ASSERT. now rewrite Fb, Hp.
  - intros m m1 L. destruct (Deallocate_after_loop fuel m m1 L) as (b2 & E2 & _).
    eexists. exact E2.
Qed.

(** ** Persistence *)

Lemma FileHeader_image_inv h :
  length (dataSectors h) = Z.to_nat NumDirect ->
  FileHeader_of_image (FileHeader_image h) = h.
Proof.
  intros Hlen. destruct h as [nb ns ds si di hs]. cbn [dataSectors] in Hlen.
  unfold FileHeader_of_image, FileHeader_image.
  cbn [numBytes numSectors dataSectors singleIndirectSector doubleIndirectSector headerSector].
  cbn [nth skipn]. rewrite <- Hlen.
  f_equal.
  - unfold take_words. rewrite <- app_assoc, firstn_app, firstn_all, Nat.sub_diag.
    cbn [firstn]. apply app_nil_r.
  - replace (2 + length ds)%nat with (S (S (length ds + 0))) by lia. cbn [nth].
    now rewrite app_nth2_plus.
  - replace (3 + length ds)%nat with (S (S (length ds + 1))) by lia. cbn [nth].
    now rewrite app_nth2_plus.
  - replace (4 + length ds)%nat with (S (S (length ds + 2))) by lia. cbn [nth].
    now rewrite app_nth2_plus.
Qed.

(** C7.  A header (an array of [NumDirect] direct pointers) written back to
    a sector and fetched from it into any header object is the header that
    was written, field by field, sentinels included. *)
Theorem WriteBack_FetchFrom h b d (sector : Z) h' b' :
  length (dataSectors h) = Z.to_nat NumDirect ->
  exists d1 d2,
    WriteBack sector (mkMachine h b d) = Ret tt (mkMachine h b d1) /\
    FetchFrom sector (mkMachine h' b' d1) = Ret tt (mkMachine h b' d2).
Proof.
  intros Hlen. eexists _, _. split.
  - unfold WriteBack. unfold bind at 1. hsimpl. unfold WriteSector.
    cbn [this freeMap synchDisk]. reflexivity.
  - unfold FetchFrom. unfold bind at 1. unfold ReadSector.
    cbn [this freeMap synchDisk Disk_read]. rewrite Disk_write_same.
    hsimpl. now rewrite FileHeader_image_inv.
Qed.

(** ** Array accesses of the allocation *)

Lemma zset_length a i x : length (zset a i x) = length a.
Proof. apply set_nth_length. Qed.

(** The direct phase keeps the header an array of [NumDirect] pointers with
    a count that is not negative, leaves the pointers to the index blocks
    alone, and never leaves the array. *)
Lemma AllocateDirectBlocks_bounds fuel s :
  forall m,
    0 <= numSectors (this m) ->
    length (dataSectors (this m)) = Z.to_nat NumDirect ->
    match AllocateDirectBlocks fuel s m with
    | Ret _ m' =>
        0 <= numSectors (this m') /\
        length (dataSectors (this m')) = Z.to_nat NumDirect /\
        singleIndirectSector (this m') = singleIndirectSector (this m) /\
        doubleIndirectSector (this m') = doubleIndirectSector (this m)
    | Fault f _ => f <> OutOfBounds
    | OutOfFuel => True
    end.
Proof.
  induction fuel as [|fuel IH]; intros m Hn Hlen; [exact I|].
  cbn [AllocateDirectBlocks]. unfold bind at 1. hsimpl.
  destruct ((numBytes (this m) >=? 0) && (numBytes (this m) <? NumDirect * SectorSize));
    [|now repeat split].
  destruct (s <=? numSectors (this m) * SectorSize); [now repeat split|].
  unfold bind at 1. hsimpl.
  destruct (Z.ltb_spec (numSectors (this m)) NumDirect) as [Hlt|Hge].
  - unfold bind at 1. unfold bind at 1. unfold FindAndSet. cbn [this freeMap synchDisk].
    destruct (Bitmap.FindAndSet (freeMap m)) as [x b'].
    unfold bind at 1. unfold store.
    replace (inBounds (dataSectors (this m)) (numSectors (this m))) with true
      by (symmetry; apply inBounds_iff; lia).
    hsimpl. unfold bind at 1. hsimpl.
    match goal with |- context [AllocateDirectBlocks fuel s ?m2] =>
      pose proof (IH m2) as G; cbn [this numSectors dataSectors] in G;
      specialize (G ltac:(lia) ltac:(now rewrite zset_length));
      destruct (AllocateDirectBlocks fuel s m2)
    end; exact G.
  - unfold bind at 1. hsimpl.
    match goal with |- context [AllocateDirectBlocks fuel s ?m2] =>
      pose proof (IH m2 Hn Hlen) as G; destruct (AllocateDirectBlocks fuel s m2)
    end; exact G.
Qed.

(** The fill loop of an indirect block whose count is not negative never
    leaves the array of [NumIndirect] pointers. *)
Lemma AllocateIndirectSpace_loop_bounds fuel s start end_ :
  forall indirect m,
    0 <= Indirect.numSectors indirect ->
    length (Indirect.dataSectors indirect) = Z.to_nat NumIndirect ->
    match AllocateIndirectSpace_loop fuel s start end_ indirect m with
    | Fault f _ => f <> OutOfBounds
    | _ => True
    end.
Proof.
  induction fuel as [|fuel IH]; intros indirect m Hn Hlen; [exact I|].
  cbn [AllocateIndirectSpace_loop]. unfold bind at 1. hsimpl.
  destruct ((numBytes (this m) >=? start) && (numBytes (this m) <? end_)); [|exact I].
  destruct (s <=? numSectors (this m) * SectorSize); [exact I|].
  unfold bind at 1. hsimpl.
  destruct (Z.ltb_spec (Indirect.numSectors indirect) NumIndirect) as [Hlt|Hge].
  - unfold bind at 1. unfold FindAndSet. cbn [this freeMap synchDisk].
    destruct (Bitmap.FindAndSet (freeMap m)) as [x b'].
    unfold bind at 1. unfold store.
    replace (inBounds (Indirect.dataSectors indirect) (Indirect.numSectors indirect))
      with true by (symmetry; apply inBounds_iff; lia).
    hsimpl. unfold bind at 1. hsimpl.
    apply IH; cbn [Indirect.numSectors Indirect.dataSectors];
      [lia | now rewrite zset_length].
  - now apply IH.
Qed.

Lemma AllocateIndirectSpace_bounds fuel s sector start m :
  0 <= Indirect.numSectors (Indirect_of_image (sectors (synchDisk m) sector)) ->
  match AllocateIndirectSpace fuel s sector start m with
  | Fault f _ => f <> OutOfBounds
  | _ => True
  end.
Proof.
  intros Hn. unfold AllocateIndirectSpace. unfold bind at 1.
  unfold ReadSector. cbn [this freeMap synchDisk Disk_read].
  unfold bind at 1.
  match goal with |- context [AllocateIndirectSpace_loop fuel s start ?e ?i ?m2] =>
    pose proof (AllocateIndirectSpace_loop_bounds fuel s start e i m2 Hn) as G;
    destruct (AllocateIndirectSpace_loop fuel s start e i m2)
  end; try exact I.
  apply G. unfold Indirect_of_image. cbn [Indirect.dataSectors]. apply take_words_length.
Qed.

Lemma Indirect_of_image_new :
  Indirect.numSectors (Indirect_of_image (Indirect_image Indirect_new)) = 0.
Proof. reflexivity. Qed.

(** C8.  The array accesses of the direct phase and of the fill of an
    indirect block stay in bounds: [store] stops the run with [OutOfBounds]
    when its index is not within the array, and neither the direct phase, on
    a header of [NumDirect] pointers whose count is not negative, nor the
    fill, on a block whose count is not negative, ever does; on a new header
    these conditions hold throughout the direct phase, the creation of the
    single-indirect block and its fill, as [Allocate] runs them. *)
Theorem Allocate_writes_in_bounds fuel s :
  (forall a i x m a' m', store a i x m = Ret a' m' -> 0 <= i < Z.of_nat (length a)) /\
  (forall m m',
     0 <= numSectors (this m) ->
     length (dataSectors (this m)) = Z.to_nat NumDirect ->
     AllocateDirectBlocks fuel s m <> Fault OutOfBounds m') /\
  (forall sector start m m',
     0 <= Indirect.numSectors (Indirect_of_image (sectors (synchDisk m) sector)) ->
     AllocateIndirectSpace fuel s sector start m <> Fault OutOfBounds m') /\
  (forall b d m',
     (AllocateDirectBlocks fuel s ;;
      CreateSingleIndirectBlock s ;;
      h <- getThis ;;
      AllocateIndirectSpace fuel s (singleIndirectSector h) (NumDirect * SectorSize))
       (zeroed b d) <> Fault OutOfBounds m').
Proof.
  split; [|split; [|split]].
  - intros a i x m a' m'. unfold store.
    destruct (inBounds a i) eqn:E; [|discriminate]. intros _. now apply inBounds_iff.
  - intros m m' Hn Hlen E.
    pose proof (AllocateDirectBlocks_bounds fuel s m Hn Hlen) as G.
    rewrite E in G. now apply G.
  - intros sector start m m' Hn E.
    pose proof (AllocateIndirectSpace_bounds fuel s sector start m Hn) as G.
    rewrite E in G. now apply G.
  - intros b d m'. unfold bind at 1.
    pose proof (AllocateDirectBlocks_bounds fuel s (zeroed b d)) as G.
    cbn [zeroed this FileHeader_new numSectors dataSectors
         singleIndirectSector doubleIndirectSector] in G.
    specialize (G ltac:(lia) (repeat_length _ _)).
    destruct (AllocateDirectBlocks fuel s (zeroed b d)) as [[] m1|f m1|];
      [|congruence|discriminate].
    destruct G as (_ & _ & Hs & _).
    unfold bind at 1. unfold CreateSingleIndirectBlock. unfold bind at 1. hsimpl.
    rewrite Hs. zbool. unfold bind at 1. unfold FindAndSet. cbn [this freeMap synchDisk].
    destruct (Bitmap.FindAndSet (freeMap m1)) as [x b'].
    unfold bind at 1. hsimpl. unfold WriteSector. cbn [this freeMap synchDisk].
    unfold bind at 1. hsimpl.
    match goal with |- ?r <> _ => 
      match r with AllocateIndirectSpace fuel s ?sec ?st ?m2 =>
        pose proof (AllocateIndirectSpace_bounds fuel s sec st m2) as G2
      end
    end.
    cbn [synchDisk] in G2. rewrite Disk_write_same in G2.
    specialize (G2 ltac:(rewrite Indirect_of_image_new; lia)).
    intros E. rewrite E in G2. now apply G2.
Qed.

End Frames.

(** ** Allocation on a map with enough free sectors *)

Section Correctness.

Context {K : Constants}.
Hypothesis SectorSize_pos : 0 < SectorSize.
Hypothesis NumDirect_pos : 0 < NumDirect.
Hypothesis NumIndirect_pos : 0 < NumIndirect.

Lemma FindAndSet_run h b t d :
  0 <= t ->
  FindAndSet (mkMachine h (after b t) d) =
  Ret (drawn b t) (mkMachine h (after b (t + 1)) d).
Proof.
  intros Ht. unfold FindAndSet. simpl. now rewrite FindAndSet_after.
Qed.

Lemma store_tabf_run f c N m :
  0 <= c < N -> store (tabf f c N) c (f c) m = Ret (tabf f (c + 1) N) m.
Proof.
  intros Hc. unfold store. rewrite tabf_inBounds. zbool. simpl.
  now rewrite tabf_set.
Qed.

Lemma load_tabf_run f c N j m :
  0 <= j < N -> load (tabf f c N) j m = Ret (if j <? c then f j else -1) m.
Proof.
  intros Hj. unfold load. rewrite tabf_inBounds. zbool. simpl.
  now rewrite tabf_get.
Qed.

(** The number [T] of sectors that [s] bytes occupy decides every size test
    of the loops. *)
Lemma size_test s T N :
  (T - 1) * SectorSize < s <= T * SectorSize ->
  (s <=? N * SectorSize) = (T <=? N).
Proof.
  intros HT.
  destruct (Z.leb_spec T N), (Z.leb_spec s (N * SectorSize)); auto; nia.
Qed.

Lemma AllocateDirectBlocks_run b0 s T hs hd hh d :
  (T - 1) * SectorSize < s <= T * SectorSize ->
  forall fuel k nb,
    0 <= k <= NumDirect -> k <= T ->
    0 <= nb < NumDirect * SectorSize ->
    (Z.to_nat (Z.min T NumDirect - k) + 2 <= fuel)%nat ->
    AllocateDirectBlocks fuel s
      (mkMachine (mkFileHeader nb k (tabf (drawn b0) k NumDirect) hs hd hh)
                 (after b0 k) d) =
    Ret tt
      (mkMachine (mkFileHeader (if T <=? NumDirect then s else NumDirect * SectorSize)
                               (Z.min T NumDirect)
                               (tabf (drawn b0) (Z.min T NumDirect) NumDirect) hs hd hh)
                 (after b0 (Z.min T NumDirect)) d).
Proof.
  intros HT. induction fuel as [|fuel IH]; intros k nb Hk HkT Hnb Hfuel; [lia|].
  cbn [AllocateDirectBlocks]. unfold bind at 1. hsimpl.
  zbool. hsimpl. rewrite (size_test s T k HT).
  destruct (Z.leb_spec T k) as [Hle|Hgt].
  - assert (k = T) by lia. subst k. hsimpl.
    rewrite Z.min_l by lia. now zbool.
  - unfold bind at 1. hsimpl.
    destruct (Z.ltb_spec k NumDirect) as [Hlt|Hge].
    + unfold bind at 1. unfold bind at 1. rewrite FindAndSet_run by lia.
      unfold bind at 1. rewrite store_tabf_run by lia.
      unfold bind at 1. hsimpl.
      apply IH; try lia. nia.
    + assert (k = NumDirect) by lia. subst k.
      unfold bind at 1.
      destruct fuel as [|fuel]; [lia|].
      cbn [AllocateDirectBlocks]. unfold bind at 1. hsimpl.
      zbool. rewrite andb_false_r.
      rewrite Z.min_r by lia. now zbool.
Qed.

Lemma Indirect_image_inv c f c' :
  Indirect_of_image (Indirect_image (Indirect.mk c (tabf f c' NumIndirect))) =
  Indirect.mk c (tabf f c' NumIndirect).
Proof.
  unfold Indirect_of_image, Indirect_image. cbn [Indirect.numSectors Indirect.dataSectors nth skipn].
  now rewrite take_words_exact by apply tabf_length.
Qed.

Lemma Indirect_new_tabf f : Indirect_new = Indirect.mk 0 (tabf f 0 NumIndirect).
Proof. unfold Indirect_new. now rewrite tabf_0. Qed.

(** The fill loop of an indirect block that holds the draws [B], [B + 1],
    ... and covers the logical sectors from [n0] on. *)
Lemma AllocateIndirectSpace_loop_run b0 s T n0 B start ds hs hd hh d :
  (T - 1) * SectorSize < s <= T * SectorSize ->
  start = n0 * SectorSize -> 0 <= B ->
  forall fuel c nb,
    0 <= c <= NumIndirect -> n0 + c <= T ->
    start <= nb < start + NumIndirect * SectorSize ->
    (Z.to_nat (Z.min (T - n0) NumIndirect - c) + 2 <= fuel)%nat ->
    AllocateIndirectSpace_loop fuel s start (start + NumIndirect * SectorSize)
      (Indirect.mk c (tabf (fun j => drawn b0 (B + j)) c NumIndirect))
      (mkMachine (mkFileHeader nb (n0 + c) ds hs hd hh) (after b0 (B + c)) d) =
    Ret (Indirect.mk (Z.min (T - n0) NumIndirect)
                     (tabf (fun j => drawn b0 (B + j)) (Z.min (T - n0) NumIndirect) NumIndirect))
      (mkMachine (mkFileHeader (if T <=? n0 + NumIndirect then s
                                else (n0 + NumIndirect) * SectorSize)
                               (n0 + Z.min (T - n0) NumIndirect) ds hs hd hh)
                 (after b0 (B + Z.min (T - n0) NumIndirect)) d).
Proof.
  intros HT Hstart HB.
  induction fuel as [|fuel IH]; intros c nb Hc HcT Hnb Hfuel; [lia|].
  cbn [AllocateIndirectSpace_loop]. unfold bind at 1. hsimpl.
  zbool. hsimpl. rewrite (size_test s T (n0 + c) HT).
  destruct (Z.leb_spec T (n0 + c)) as [Hle|Hgt].
  - assert (Hc' : Z.min (T - n0) NumIndirect = c) by lia.
    unfold bind at 1. hsimpl. rewrite Hc'. now zbool.
  - unfold bind at 1. hsimpl.
    destruct (Z.ltb_spec c NumIndirect) as [Hlt|Hge].
    + unfold bind at 1. rewrite FindAndSet_run by lia.
      unfold bind at 1.
      rewrite (store_tabf_run (fun j => drawn b0 (B + j))) by lia.
      unfold bind at 1. hsimpl.
      replace (B + c + 1) with (B + (c + 1)) by lia.
      replace (n0 + c + 1) with (n0 + (c + 1)) by lia.
      apply IH; try lia. nia.
    + assert (c = NumIndirect) by lia. subst c.
      destruct fuel as [|fuel]; [lia|].
      cbn [AllocateIndirectSpace_loop]. unfold bind at 1. hsimpl.
      replace ((n0 + NumIndirect) * SectorSize <? start + NumIndirect * SectorSize)
        with false by (symmetry; apply Z.ltb_ge; nia).
      rewrite andb_false_r.
      rewrite Z.min_r by lia. now zbool.
Qed.

(** [AllocateIndirectSpace] on a new block in [sector]. *)
Lemma AllocateIndirectSpace_run b0 s T n0 B start sector ds hs hd hh d fuel :
  (T - 1) * SectorSize < s <= T * SectorSize ->
  start = n0 * SectorSize -> 0 <= B -> n0 <= T ->
  sectors d sector = Indirect_image Indirect_new ->
  (Z.to_nat NumIndirect + 2 <= fuel)%nat ->
  AllocateIndirectSpace fuel s sector start
    (mkMachine (mkFileHeader start n0 ds hs hd hh) (after b0 B) d) =
  Ret (if T <=? n0 + NumIndirect then 0 else s - (n0 + NumIndirect) * SectorSize)
    (mkMachine (mkFileHeader (if T <=? n0 + NumIndirect then s
                              else (n0 + NumIndirect) * SectorSize)
                             (n0 + Z.min (T - n0) NumIndirect) ds hs hd hh)
               (after b0 (B + Z.min (T - n0) NumIndirect))
               (Disk_write (snd (Disk_read d sector)) sector
                  (Indirect_image
                     (Indirect.mk (Z.min (T - n0) NumIndirect)
                        (tabf (fun j => drawn b0 (B + j))
                              (Z.min (T - n0) NumIndirect) NumIndirect))))).
Proof.
  intros HT Hstart HB Hn0 Hfresh Hfuel.
  unfold AllocateIndirectSpace. unfold bind at 1.
  unfold ReadSector. cbn [synchDisk this freeMap Disk_read sectors].
  rewrite Hfresh, (Indirect_new_tabf (fun j => drawn b0 (B + j))), Indirect_image_inv.
  unfold bind at 1.
  pose proof (AllocateIndirectSpace_loop_run b0 s T n0 B start ds hs hd hh
                (mkDisk (sectors d) (requests d ++ [ReadRequest sector]))
                HT Hstart HB fuel 0 start) as L.
  rewrite !Z.add_0_r in L. rewrite L by (try lia; nia). clear L.
  unfold bind at 1. unfold WriteSector. cbn [this freeMap synchDisk].
  unfold bind at 1. hsimpl.
  destruct (Z.leb_spec T (n0 + NumIndirect)); [now rewrite Z.sub_diag | reflexivity].
Qed.

Lemma divRoundUp_spec a n :
  0 < n -> (divRoundUp a n - 1) * n < a <= divRoundUp a n * n.
Proof.
  intros Hn. unfold divRoundUp.
  pose proof (Z.div_mod (a + n - 1) n ltac:(lia)) as E.
  pose proof (Z.mod_pos_bound (a + n - 1) n Hn) as B. nia.
Qed.

Lemma sectorsFor_spec s :
  0 < s -> (sectorsFor s - 1) * SectorSize < s <= sectorsFor s * SectorSize.
Proof.
  intros Hs. unfold sectorsFor. zbool. now apply divRoundUp_spec.
Qed.

(** One iteration of the [do ... while] loop, on the secondary block [k]. *)
Lemma AllocateDoubleIndirectBlock_loop_step b0 s T ds hs hh fuel n k d :
  (T - 1) * SectorSize < s <= T * SectorSize ->
  0 <= k < NumIndirect ->
  firstLogical k < T ->
  drawn b0 (secondaryPos k) <> drawn b0 doublePos ->
  (Z.to_nat NumIndirect + 2 <= fuel)%nat ->
  let q := fun k' => drawn b0 (secondaryPos k') in
  let c := Z.min (T - firstLogical k) NumIndirect in
  let d1 :=
    Disk_write
      (snd (Disk_read
              (Disk_write (Disk_write d (q k) (Indirect_image Indirect_new))
                 (drawn b0 doublePos)
                 (Indirect_image (Indirect.mk (k + 1) (tabf q (k + 1) NumIndirect))))
              (q k)))
      (q k)
      (Indirect_image
         (Indirect.mk c (tabf (fun j => drawn b0 (secondaryPos k + 1 + j)) c NumIndirect))) in
  AllocateDoubleIndirectBlock_loop (S n) fuel s
    (Indirect.mk k (tabf q k NumIndirect)) k
    (mkMachine (mkFileHeader (SectorSize * (NumDirect + NumIndirect * (1 + k)))
                             (firstLogical k) ds hs (drawn b0 doublePos) hh)
               (after b0 (secondaryPos k)) d) =
  if T <=? firstLogical k + NumIndirect then
    Ret tt (mkMachine (mkFileHeader s T ds hs (drawn b0 doublePos) hh)
                      (after b0 (secondaryPos k + 1 + c)) d1)
  else
    AllocateDoubleIndirectBlock_loop n fuel s
      (Indirect.mk (k + 1) (tabf q (k + 1) NumIndirect)) (k + 1)
      (mkMachine (mkFileHeader (SectorSize * (NumDirect + NumIndirect * (1 + (k + 1))))
                               (firstLogical (k + 1)) ds hs (drawn b0 doublePos) hh)
                 (after b0 (secondaryPos (k + 1))) d1).
Proof.
  intros HT Hk HkT Hq2 Hfuel q c d1.
  assert (Hc : c = Z.min (T - firstLogical k) NumIndirect) by reflexivity.
  clearbody c.
  assert (Hpos : 0 <= secondaryPos k) by (unfold secondaryPos; nia).
  cbn [AllocateDoubleIndirectBlock_loop].
  unfold bind at 1. unfold ASSERT. hsimpl. zbool. hsimpl.
  unfold bind at 1. rewrite load_tabf_run by lia. zbool. hsimpl.
  unfold bind at 1. unfold bind at 1. rewrite FindAndSet_run by lia.
  unfold bind at 1. fold q. rewrite (store_tabf_run q) by lia.
  unfold bind at 1. unfold WriteSector at 1. cbn [this freeMap synchDisk].
  unfold bind at 1. hsimpl.
  unfold bind at 1. unfold WriteSector at 1. cbn [this freeMap synchDisk].
  unfold bind at 1. hsimpl. rewrite load_tabf_run by lia. zbool.
  unfold bind at 1. unfold q at 1.
  rewrite (AllocateIndirectSpace_run b0 s T (firstLogical k) (secondaryPos k + 1));
    try assumption; try lia.
  2:{ unfold firstLogical. ring. }
  2:{ rewrite Disk_write_other by exact Hq2. apply Disk_write_same. }
  rewrite <- Hc. fold (q k). fold d1.
  destruct (Z.leb_spec T (firstLogical k + NumIndirect)) as [Hle|Hgt].
  - zbool. hsimpl.
    replace (firstLogical k + c) with T by lia.
    reflexivity.
  - assert (Hs : s - (firstLogical k + NumIndirect) * SectorSize <> 0) by nia.
    zbool. hsimpl.
    replace ((firstLogical k + NumIndirect) * SectorSize)
      with (SectorSize * (NumDirect + NumIndirect * (1 + (k + 1))))
      by (unfold firstLogical; ring).
    replace (firstLogical k + c) with (firstLogical (k + 1))
      by (unfold firstLogical in *; lia).
    replace (secondaryPos k + 1 + c) with (secondaryPos (k + 1))
      by (unfold secondaryPos; lia).
    reflexivity.
Qed.


Lemma AllocateDoubleIndirectBlock_loop_run b0 s T Kn ds hs hh fuel :
  (T - 1) * SectorSize < s <= T * SectorSize ->
  (Kn - 1) * NumIndirect < T - NumDirect - NumIndirect <= Kn * NumIndirect ->
  Kn <= NumIndirect ->
  T + 2 + Kn <= Bitmap.NumClear b0 ->
  (Z.to_nat NumIndirect + 2 <= fuel)%nat ->
  forall n k d,
    0 <= k < Kn -> (Z.to_nat (Kn - k) <= n)%nat ->
    exists d',
      AllocateDoubleIndirectBlock_loop n fuel s
        (Indirect.mk k (tabf (fun k' => drawn b0 (secondaryPos k')) k NumIndirect)) k
        (mkMachine (mkFileHeader (SectorSize * (NumDirect + NumIndirect * (1 + k)))
                                 (firstLogical k) ds hs (drawn b0 doublePos) hh)
                   (after b0 (secondaryPos k)) d) =
      Ret tt (mkMachine (mkFileHeader s T ds hs (drawn b0 doublePos) hh)
                        (after b0 (T + 2 + Kn)) d') /\
      sectors d' (drawn b0 doublePos) =
        Indirect_image (Indirect.mk Kn (tabf (fun k' => drawn b0 (secondaryPos k')) Kn NumIndirect)) /\
      (forall k', k <= k' < Kn ->
         sectors d' (drawn b0 (secondaryPos k')) =
         Indirect_image
           (Indirect.mk (Z.min (T - firstLogical k') NumIndirect)
              (tabf (fun j => drawn b0 (secondaryPos k' + 1 + j))
                    (Z.min (T - firstLogical k') NumIndirect) NumIndirect))) /\
      (forall x, x <> drawn b0 doublePos ->
         (forall k', k <= k' < Kn -> x <> drawn b0 (secondaryPos k')) ->
         sectors d' x = sectors d x).
Proof.
  intros HT HK Hcap Hbudget Hfuel.
  induction n as [|n IH]; intros k d Hk Hn; [lia|].
  assert (HkT : firstLogical k < T) by (unfold firstLogical; nia).
  assert (Hinj : forall k', 0 <= k' < Kn ->
            drawn b0 (secondaryPos k') <> drawn b0 doublePos).
  { intros k' Hk' E. apply drawn_inj in E; unfold secondaryPos, doublePos in *; nia. }
  assert (Hinj' : forall k1 k2, 0 <= k1 < Kn -> 0 <= k2 < Kn -> k1 <> k2 ->
            drawn b0 (secondaryPos k1) <> drawn b0 (secondaryPos k2)).
  { intros k1 k2 H1 H2 Hne E. apply drawn_inj in E; unfold secondaryPos in *; nia. }
  pose proof (AllocateDoubleIndirectBlock_loop_step b0 s T ds hs hh fuel n k d
                HT ltac:(lia) HkT (Hinj k Hk) Hfuel) as E.
  cbv zeta in E. rewrite E. clear E.
  set (blk := Indirect_image
         (Indirect.mk (Z.min (T - firstLogical k) NumIndirect)
            (tabf (fun j => drawn b0 (secondaryPos k + 1 + j))
                  (Z.min (T - firstLogical k) NumIndirect) NumIndirect))).
  match goal with
  | |- context [Disk_write (snd ?a) ?b ?c] => set (d1 := Disk_write (snd a) b c)
  end.
  assert (D1 : sectors d1 (drawn b0 doublePos) =
               Indirect_image (Indirect.mk (k + 1)
                 (tabf (fun k' => drawn b0 (secondaryPos k')) (k + 1) NumIndirect))).
  { unfold d1. rewrite Disk_write_other by (apply not_eq_sym, Hinj; lia).
    cbn [Disk_read snd sectors]. apply Disk_write_same. }
  assert (D2 : sectors d1 (drawn b0 (secondaryPos k)) = blk)
    by apply Disk_write_same.
  assert (D3 : forall x, x <> drawn b0 doublePos -> x <> drawn b0 (secondaryPos k) ->
                         sectors d1 x = sectors d x).
  { intros x Hx1 Hx2. unfold d1. rewrite Disk_write_other by assumption.
    cbn [Disk_read snd sectors]. now rewrite !Disk_write_other by assumption. }
  clearbody d1.
  destruct (Z.leb_spec T (firstLogical k + NumIndirect)) as [Hle|Hgt].
  - assert (Kn = k + 1) by (unfold firstLogical in *; nia). subst Kn.
    exists d1. split; [|split; [|split]].
    + do 3 f_equal. unfold secondaryPos, firstLogical in *. lia.
    + exact D1.
    + intros k' Hk'. assert (k' = k) by lia. subst k'. exact D2.
    + intros x Hx1 Hx2. apply D3; [assumption|]. apply Hx2. lia.
  - assert (Hk1 : 0 <= k + 1 < Kn) by (unfold firstLogical in *; nia).
    destruct (IH (k + 1) d1 Hk1 ltac:(lia)) as (d' & E' & F1 & F2 & F3).
    exists d'. split; [exact E'|]. split; [exact F1|]. split.
    + intros k' Hk'. destruct (Z.eq_dec k' k) as [->|Hne].
      * rewrite F3; [exact D2 | now apply Hinj |].
        intros k2 Hk2. apply Hinj'; lia.
      * apply F2. lia.
    + intros x Hx1 Hx2. rewrite F3; [| assumption |].
      * apply D3; [assumption|]. apply Hx2. lia.
      * intros k2 Hk2. apply Hx2. lia.
Qed.

Lemma FileHeader_new_tabf f :
  FileHeader_new = mkFileHeader 0 0 (tabf f 0 NumDirect) (-1) (-1) (-1).
Proof. unfold FileHeader_new. now rewrite tabf_0. Qed.

Lemma sectorsFor_nonpos s : s <= 0 -> sectorsFor s = 0.
Proof. intros. unfold sectorsFor. now zbool. Qed.

Lemma sectorsFor_pos s : 0 < s -> 1 <= sectorsFor s.
Proof. intros Hs. pose proof (sectorsFor_spec s Hs). nia. Qed.

Lemma sectorsFor_le_max s : s <= maxCapacity -> sectorsFor s <= maxSectors.
Proof.
  intros Hs. destruct (Z.le_gt_cases s 0) as [H|H].
  - rewrite sectorsFor_nonpos by assumption. unfold maxSectors. nia.
  - pose proof (sectorsFor_spec s H). unfold maxCapacity in Hs. nia.
Qed.

Lemma secondaryBlocks_spec T :
  (secondaryBlocks T - 1) * NumIndirect < T - NumDirect - NumIndirect
    <= secondaryBlocks T * NumIndirect.
Proof. unfold secondaryBlocks. now apply divRoundUp_spec. Qed.

Lemma AllocateDirectBlocks_zeroed b0 s T d fuel :
  (T - 1) * SectorSize < s <= T * SectorSize -> 0 <= T ->
  (Z.to_nat NumDirect + 2 <= fuel)%nat ->
  AllocateDirectBlocks fuel s (mkMachine FileHeader_new b0 d) =
  Ret tt
    (mkMachine (mkFileHeader (if T <=? NumDirect then s else NumDirect * SectorSize)
                             (Z.min T NumDirect)
                             (tabf (drawn b0) (Z.min T NumDirect) NumDirect) (-1) (-1) (-1))
               (after b0 (Z.min T NumDirect)) d).
Proof.
  intros HT HT0 Hfuel. rewrite (FileHeader_new_tabf (drawn b0)).
  apply (AllocateDirectBlocks_run b0 s T (-1) (-1) (-1) d HT fuel 0 0); try lia; nia.
Qed.

(** [AllocateDoubleIndirectBlock] after the single-indirect block has been
    filled. *)
Lemma AllocateDoubleIndirectBlock_run b0 s T ds hs hh fuel d :
  (T - 1) * SectorSize < s <= T * SectorSize ->
  NumDirect + NumIndirect < T <= maxSectors ->
  T + 2 + secondaryBlocks T <= Bitmap.NumClear b0 ->
  (Z.to_nat NumIndirect + 2 <= fuel)%nat ->
  exists d',
    AllocateDoubleIndirectBlock fuel s
      (mkMachine (mkFileHeader ((NumDirect + NumIndirect) * SectorSize)
                               (NumDirect + NumIndirect) ds hs (-1) hh)
                 (after b0 doublePos) d) =
    Ret tt (mkMachine (mkFileHeader s T ds hs (drawn b0 doublePos) hh)
                      (after b0 (T + 2 + secondaryBlocks T)) d') /\
    sectors d' (drawn b0 doublePos) = Indirect_image (doubleBlock b0 T) /\
    (forall k, 0 <= k < secondaryBlocks T ->
       sectors d' (drawn b0 (secondaryPos k)) = Indirect_image (secondaryBlock b0 T k)) /\
    (forall x, x <> drawn b0 doublePos ->
       (forall k, 0 <= k < secondaryBlocks T -> x <> drawn b0 (secondaryPos k)) ->
       sectors d' x = sectors d x).
Proof.
  intros HT HTr Hbudget Hfuel.
  pose proof (secondaryBlocks_spec T) as HK.
  set (Kn := secondaryBlocks T) in *.
  assert (HKn : 1 <= Kn <= NumIndirect) by (unfold maxSectors in HTr; split; nia).
  assert (Hdp : 0 <= doublePos) by (unfold doublePos; lia).
  set (d0 := Disk_write d (drawn b0 doublePos) (Indirect_image Indirect_new)).
  destruct (AllocateDoubleIndirectBlock_loop_run b0 s T Kn ds hs hh fuel
              HT HK ltac:(lia) Hbudget Hfuel fuel 0 d0 ltac:(lia) ltac:(lia))
    as (d' & E & F1 & F2 & F3).
  exists d'. split; [|split; [|split]].
  - unfold AllocateDoubleIndirectBlock. unfold bind at 1. hsimpl. zbool. hsimpl.
    unfold bind at 1. unfold bind at 1. rewrite FindAndSet_run by assumption.
    unfold bind at 1. hsimpl. unfold bind at 1.
    unfold WriteSector. cbn [this freeMap synchDisk]. fold d0.
    rewrite (Indirect_new_tabf (fun k' => drawn b0 (secondaryPos k'))).
    rewrite <- E. f_equal. f_equal.
    + f_equal; unfold firstLogical; ring.
    + f_equal. unfold doublePos, secondaryPos. ring.
  - exact F1.
  - intros k Hk. apply F2. lia.
  - intros x Hx1 Hx2. rewrite F3; [|assumption|].
    + unfold d0. now rewrite Disk_write_other.
    + intros k Hk. apply Hx2. lia.
Qed.

(** [Allocate] on a new header, up to the double-indirect phase. *)
Lemma Allocate_prefix b0 s T d fuel :
  (T - 1) * SectorSize < s <= T * SectorSize ->
  NumDirect < T ->
  (Z.to_nat (Z.max NumDirect NumIndirect) + 2 <= fuel)%nat ->
  let d1 :=
    Disk_write
      (snd (Disk_read (Disk_write d (drawn b0 NumDirect) (Indirect_image Indirect_new))
                      (drawn b0 NumDirect)))
      (drawn b0 NumDirect) (Indirect_image (singleBlock b0 T)) in
  Allocate fuel s (zeroed b0 d) =
  if T <=? NumDirect + NumIndirect then
    Ret true (mkMachine (mkFileHeader s T (tabf (drawn b0) NumDirect NumDirect)
                                      (drawn b0 NumDirect) (-1) (-1))
                        (after b0 (T + 1)) d1)
  else
    (AllocateDoubleIndirectBlock fuel s ;; ret true)
      (mkMachine (mkFileHeader ((NumDirect + NumIndirect) * SectorSize)
                               (NumDirect + NumIndirect)
                               (tabf (drawn b0) NumDirect NumDirect)
                               (drawn b0 NumDirect) (-1) (-1))
                 (after b0 doublePos) d1).
Proof.
  intros HT Hd Hfuel d1.
  pose proof (NumClear_nonneg b0) as Hnn.
  unfold Allocate, zeroed.
  unfold bind at 1. hsimpl. unfold bind at 1. hsimpl.
  replace (numSectors FileHeader_new) with 0 by reflexivity. zbool.
  unfold bind at 1.
  rewrite (AllocateDirectBlocks_zeroed b0 s T d fuel HT) by lia.
  rewrite (size_test s T NumDirect HT). zbool. rewrite Z.min_r by lia.
  unfold bind at 1. hsimpl. unfold bind at 1. unfold ASSERT. zbool. hsimpl.
  unfold bind at 1. unfold CreateSingleIndirectBlock.
  unfold bind at 1. hsimpl. zbool. unfold bind at 1.
  rewrite FindAndSet_run by lia. unfold bind at 1. hsimpl.
  unfold WriteSector at 1. cbn [this freeMap synchDisk].
  unfold bind at 1. hsimpl. unfold bind at 1.
  rewrite (AllocateIndirectSpace_run b0 s T NumDirect (NumDirect + 1));
    try assumption; try reflexivity; try lia.
  2:{ apply Disk_write_same. }
  fold (singleBlock b0 T). fold d1.
  destruct (Z.leb_spec T (NumDirect + NumIndirect)) as [Hle|Hgt].
  - zbool. hsimpl. rewrite Z.min_l by lia.
    replace (NumDirect + (T - NumDirect)) with T by ring.
    replace (NumDirect + 1 + (T - NumDirect)) with (T + 1) by ring.
    reflexivity.
  - assert (Hs : (NumDirect + NumIndirect) * SectorSize < s) by nia.
    zbool. unfold bind at 1. unfold ASSERT. zbool. hsimpl.
    rewrite Z.min_r by lia.
    replace (NumDirect + 1 + NumIndirect) with doublePos by (unfold doublePos; ring).
    reflexivity.
Qed.

(** Allocation of a header that is new, from a map that holds the sectors
    needed: the outcome in full. *)
Lemma Allocate_layout s b0 d fuel :
  s <= maxCapacity ->
  sectorsNeeded s <= Bitmap.NumClear b0 ->
  (Z.to_nat (Z.max NumDirect NumIndirect) + 2 <= fuel)%nat ->
  exists m', Allocate fuel s (zeroed b0 d) = Ret true m' /\ allocated_layout b0 s m'.
Proof.
  intros Hcap Hbudget Hfuel.
  pose proof (NumClear_nonneg b0) as Hnn.
  destruct (Z.le_gt_cases s 0) as [Hs|Hs].
  - (* nothing to allocate *)
    unfold Allocate, zeroed.
    unfold bind at 1. hsimpl. unfold bind at 1. hsimpl.
    replace (numSectors FileHeader_new) with 0 by reflexivity. zbool.
    destruct fuel as [|fuel]; [lia|].
    unfold bind at 1. cbn [AllocateDirectBlocks]. unfold bind at 1.
    rewrite (FileHeader_new_tabf (drawn b0)). hsimpl.
    assert (0 < NumDirect * SectorSize) by nia.
    zbool. hsimpl. zbool.
    eexists. split; [reflexivity|].
    unfold allocated_layout, allocated_store, sectorsNeeded, indexBlocks.
    rewrite sectorsFor_nonpos by assumption. cbv zeta. hsimpl. zbool.
    rewrite Z.min_l by lia.
    repeat split; intros; lia.
  - pose proof (sectorsFor_spec s Hs) as HT.
    pose proof (sectorsFor_pos s Hs) as HT1.
    pose proof (sectorsFor_le_max s Hcap) as HTmax.
    unfold allocated_layout, allocated_store, sectorsNeeded in *. cbv zeta.
    set (T := sectorsFor s) in *.
    destruct (Z.le_gt_cases T NumDirect) as [Hd|Hd].
    { unfold Allocate, zeroed.
      unfold bind at 1. hsimpl. unfold bind at 1. hsimpl.
      replace (numSectors FileHeader_new) with 0 by reflexivity. zbool.
      unfold bind at 1.
      rewrite (AllocateDirectBlocks_zeroed b0 s T d fuel HT) by lia.
      rewrite (size_test s T NumDirect HT). zbool.
      eexists. split; [reflexivity|]. hsimpl.
      unfold indexBlocks. zbool. rewrite Z.min_l, Z.add_0_r by lia.
      repeat split; intros; lia. }
    pose proof (Allocate_prefix b0 s T d fuel HT Hd Hfuel) as E.
    cbv zeta in E. rewrite E. clear E.
    match goal with
    | |- context [Disk_write (snd ?a) ?b ?c] => set (d1 := Disk_write (snd a) b c)
    end.
    assert (D1 : sectors d1 (drawn b0 NumDirect) = Indirect_image (singleBlock b0 T))
      by apply Disk_write_same.
    clearbody d1.
    rewrite Z.min_r by lia. zbool.
    destruct (Z.leb_spec T (NumDirect + NumIndirect)) as [Hle|Hgt].
    { eexists. split; [reflexivity|]. hsimpl.
      unfold indexBlocks. zbool.
      repeat split; intros; try lia. exact D1. }
    unfold indexBlocks in *. revert Hbudget. zbool. intros Hbudget.
    destruct (AllocateDoubleIndirectBlock_run b0 s T
                (tabf (drawn b0) NumDirect NumDirect) (drawn b0 NumDirect) (-1) fuel d1
                HT ltac:(lia) ltac:(lia) ltac:(lia))
      as (d' & E & F1 & F2 & F3).
    pose proof (secondaryBlocks_spec T) as HK.
    eexists. split.
    { unfold bind at 1. rewrite E. reflexivity. }
    hsimpl. split; [|f_equal; lia].
    split; [reflexivity|].
    split; [|intros _; split; assumption].
    intros _. rewrite F3; [exact D1| |].
    + intros E'. apply drawn_inj in E'; unfold doublePos in *; nia.
    + intros k Hk E'. apply drawn_inj in E'; unfold secondaryPos in *; nia.
Qed.

(** ** Translation on an allocated file *)

Lemma split_index i :
  NumDirect + NumIndirect <= i ->
  exists k j, i = NumDirect + NumIndirect + NumIndirect * k + j /\
              0 <= k /\ 0 <= j < NumIndirect /\
              (i - (NumDirect + NumIndirect)) / NumIndirect = k /\
              (i - (NumDirect + NumIndirect)) mod NumIndirect = j.
Proof.
  intros Hi.
  assert (Hne : NumIndirect <> 0) by lia.
  pose proof (Z.div_mod (i - (NumDirect + NumIndirect)) NumIndirect Hne) as E.
  pose proof (Z.mod_pos_bound (i - (NumDirect + NumIndirect)) NumIndirect NumIndirect_pos) as B.
  exists ((i - (NumDirect + NumIndirect)) / NumIndirect),
         ((i - (NumDirect + NumIndirect)) mod NumIndirect).
  repeat split; try lia.
  apply Z.div_pos; lia.
Qed.

Lemma drawIndex_nonneg i : 0 <= i -> i <= drawIndex i.
Proof.
  intros Hi. unfold drawIndex.
  destruct (Z.ltb_spec i NumDirect); [lia|].
  destruct (Z.ltb_spec i (NumDirect + NumIndirect)); [lia|].
  destruct (split_index i ltac:(lia)) as (k & j & _ & Hk & _ & -> & _). lia.
Qed.

Lemma drawIndex_lt i j : 0 <= i < j -> drawIndex i < drawIndex j.
Proof.
  intros Hij. unfold drawIndex.
  destruct (Z.ltb_spec i NumDirect), (Z.ltb_spec j NumDirect); try lia;
  destruct (Z.ltb_spec i (NumDirect + NumIndirect)),
           (Z.ltb_spec j (NumDirect + NumIndirect)); try lia.
  - destruct (split_index j ltac:(lia)) as (k & r & _ & Hk & _ & -> & _). lia.
  - destruct (split_index j ltac:(lia)) as (k & r & _ & Hk & _ & -> & _). lia.
  - assert (Hle : i - (NumDirect + NumIndirect) <= j - (NumDirect + NumIndirect)) by lia.
    pose proof (Z.div_le_mono _ _ NumIndirect NumIndirect_pos Hle).
    lia.
Qed.

(** The draws of a file of [T] logical sectors come before [T + indexBlocks T]. *)
Lemma drawIndex_needed T i :
  0 <= i < T -> drawIndex i < T + indexBlocks T.
Proof.
  intros Hi. unfold drawIndex, indexBlocks.
  destruct (Z.ltb_spec i NumDirect).
  { destruct (Z.leb_spec T NumDirect); [lia|].
    destruct (Z.leb_spec T (NumDirect + NumIndirect)); [lia|].
    pose proof (secondaryBlocks_spec T). nia. }
  destruct (Z.ltb_spec i (NumDirect + NumIndirect)).
  { zbool. destruct (Z.leb_spec T (NumDirect + NumIndirect)); [lia|].
    pose proof (secondaryBlocks_spec T). nia. }
  zbool.
  destruct (split_index i ltac:(lia)) as (k & r & E & Hk & Hr & -> & _).
  pose proof (secondaryBlocks_spec T). nia.
Qed.

Lemma secondaryPos_not_data k i :
  0 <= k -> 0 <= i -> secondaryPos k <> drawIndex i.
Proof.
  intros Hk Hi. unfold secondaryPos, drawIndex.
  destruct (Z.ltb_spec i NumDirect); [nia|].
  destruct (Z.ltb_spec i (NumDirect + NumIndirect)); [nia|].
  destruct (split_index i ltac:(lia)) as (k' & r & E & Hk' & Hr & -> & _).
  destruct (Z.lt_trichotomy k k') as [L|[L|L]]; nia.
Qed.

Lemma GetPhysicSector_store b0 s m i :
  allocated_store b0 s (this m) (sectors (synchDisk m)) ->
  s <= maxCapacity ->
  sectorsNeeded s <= Bitmap.NumClear b0 ->
  0 <= i < sectorsFor s ->
  exists dk,
    GetPhysicSector i m = Ret (drawn b0 (drawIndex i)) (mkMachine (this m) (freeMap m) dk) /\
    sectors dk = sectors (synchDisk m).
Proof.
  intros (Hh & Hs1 & Hs2) Hcap Hbudget Hi.
  pose proof (sectorsFor_le_max s Hcap) as HTmax.
  unfold sectorsNeeded in Hbudget. cbv zeta in *.
  set (T := sectorsFor s) in *.
  destruct m as [h b dk]. cbn [this freeMap synchDisk] in *. subst h.
  unfold GetPhysicSector, drawIndex. unfold bind at 1. hsimpl.
  destruct (Z.ltb_spec i NumDirect) as [H1|H1].
  { exists dk. split; [|reflexivity].
    rewrite load_tabf_run by lia. now zbool. }
  unfold indexBlocks in Hbudget.
  destruct (Z.ltb_spec i (NumDirect + NumIndirect)) as [H2|H2].
  { revert Hbudget. zbool. intros Hbudget.
    assert (Hb : NumDirect < Bitmap.NumClear b0).
    { destruct (Z.leb_spec T (NumDirect + NumIndirect)); [lia|].
      pose proof (secondaryBlocks_spec T). nia. }
    assert (Hnn : 0 <= drawn b0 NumDirect) by (apply drawn_nonneg; lia).
    unfold bind at 1. unfold ASSERT. zbool. hsimpl.
    unfold bind at 1. hsimpl. unfold bind at 1.
    unfold ReadSector. cbn [this freeMap synchDisk Disk_read sectors].
    rewrite Hs1 by lia. unfold singleBlock. rewrite Indirect_image_inv. hsimpl.
    eexists. split.
    - rewrite load_tabf_run by lia. zbool.
      replace (NumDirect + 1 + (i - NumDirect)) with (i + 1) by lia. reflexivity.
    - reflexivity. }
  revert Hbudget. zbool. intros Hbudget.
  pose proof (secondaryBlocks_spec T) as HK.
  destruct (Hs2 ltac:(lia)) as (Hd & Hq).
  destruct (split_index i ltac:(lia)) as (k & r & E & Hk & Hr & Ek & Er).
  assert (HkK : k < secondaryBlocks T) by nia.
  assert (HKN : secondaryBlocks T <= NumIndirect) by (unfold maxSectors in HTmax; nia).
  assert (Hnn : 0 <= drawn b0 doublePos) by (apply drawn_nonneg; unfold doublePos; lia).
  unfold bind at 1. unfold ASSERT. zbool. hsimpl.
  unfold bind at 1. hsimpl. zbool. hsimpl. unfold bind at 1.
  unfold ReadSector at 1. cbn [this freeMap synchDisk Disk_read sectors].
  rewrite Hd. unfold doubleBlock. rewrite Indirect_image_inv. hsimpl.
  rewrite Z.quot_div_nonneg, Z.rem_mod_nonneg by lia. rewrite Ek, Er.
  unfold bind at 1. rewrite load_tabf_run by lia. zbool.
  unfold bind at 1. unfold ReadSector at 1. cbn [this freeMap synchDisk Disk_read sectors].
  rewrite Hq by lia. unfold secondaryBlock. rewrite Indirect_image_inv. hsimpl.
  assert (r < Z.min (T - firstLogical k) NumIndirect) by (unfold firstLogical; lia).
  eexists. split.
  - rewrite load_tabf_run by lia. zbool.
    replace (secondaryPos k + 1 + r) with (i + 3 + k) by (unfold secondaryPos; lia).
    reflexivity.
  - reflexivity.
Qed.

Lemma drawIndex_inj_drawn b0 T i j :
  T + indexBlocks T <= Bitmap.NumClear b0 ->
  0 <= i < T -> 0 <= j < T -> i <> j ->
  drawn b0 (drawIndex i) <> drawn b0 (drawIndex j).
Proof.
  intros Hb Hi Hj Hne E.
  pose proof (drawIndex_needed T i Hi). pose proof (drawIndex_needed T j Hj).
  pose proof (drawIndex_nonneg i ltac:(lia)). pose proof (drawIndex_nonneg j ltac:(lia)).
  apply drawn_inj in E; try lia.
  destruct (Z.lt_trichotomy i j) as [L|[L|L]]; try lia.
  - pose proof (drawIndex_lt i j ltac:(lia)). lia.
  - pose proof (drawIndex_lt j i ltac:(lia)). lia.
Qed.

(** ** Deallocation of an allocated file *)

Lemma Deallocate_loop_store b0 s :
  s <= maxCapacity ->
  sectorsNeeded s <= Bitmap.NumClear b0 ->
  forall n i m fuel,
    allocated_store b0 s (this m) (sectors (synchDisk m)) ->
    0 <= i <= sectorsFor s -> n = Z.to_nat (sectorsFor s - i) ->
    (forall j, i <= j < sectorsFor s ->
       Bitmap.Test (drawn b0 (drawIndex j)) (freeMap m) = true) ->
    (n + 1 <= fuel)%nat ->
    exists m',
      Deallocate_loop fuel i m = Ret tt m' /\
      this m' = this m /\
      sectors (synchDisk m') = sectors (synchDisk m) /\
      forall y, Bitmap.Test y (freeMap m') = true <->
                (Bitmap.Test y (freeMap m) = true /\
                 forall j, i <= j < sectorsFor s -> y <> drawn b0 (drawIndex j)).
Proof.
  intros Hcap Hbudget.
  induction n as [|n IH]; intros i m fuel Hst Hi Hn Hmk Hfuel;
    (destruct fuel as [|fuel]; [lia|]);
    assert (HT : numSectors (this m) = sectorsFor s)
      by (destruct Hst as (-> & _); reflexivity);
    cbn [Deallocate_loop]; unfold bind at 1; hsimpl; rewrite HT.
  - zbool. exists m. repeat split; try tauto. intros; lia.
  - zbool. unfold bind at 1.
    destruct (GetPhysicSector_store b0 s m i Hst Hcap Hbudget ltac:(lia)) as (dk & E & Edk).
    rewrite E. unfold bind at 1. hsimpl. unfold bind at 1. unfold ASSERT.
    rewrite Hmk by lia. hsimpl. unfold bind at 1. hsimpl.
    set (p := drawn b0 (drawIndex i)).
    set (m2 := mkMachine (this m) (Bitmap.Clear p (freeMap m)) dk).
    destruct (IH (i + 1) m2 fuel) as (m' & E' & F1 & F2 & F3).
    + unfold m2. cbn [this synchDisk]. now rewrite Edk.
    + lia.
    + lia.
    + intros j Hj. unfold m2. cbn [freeMap]. rewrite Test_Clear, Hmk by lia.
      cbn [andb]. apply negb_true_iff, Z.eqb_neq.
      apply (drawIndex_inj_drawn b0 (sectorsFor s)); unfold sectorsNeeded in *; lia.
    + lia.
    + exists m'. split; [exact E'|]. split; [exact F1|].
      split; [rewrite F2; unfold m2; cbn [synchDisk]; exact Edk|].
      intros y. rewrite F3. unfold m2. cbn [freeMap].
      rewrite Test_Clear, andb_true_iff, negb_true_iff, Z.eqb_neq.
      split.
      * intros ((Hy & Hne) & Hall). split; [exact Hy|].
        intros j Hj. destruct (Z.eq_dec j i) as [->|]; [exact Hne|]. apply Hall. lia.
      * intros (Hy & Hall). repeat split; [exact Hy | apply Hall; lia |].
        intros j Hj. apply Hall. lia.
Qed.

Lemma sectorsFor_nonneg s : 0 <= sectorsFor s.
Proof.
  destruct (Z.le_gt_cases s 0); [rewrite sectorsFor_nonpos; lia|].
  pose proof (sectorsFor_pos s); lia.
Qed.

Lemma indexBlocks_bounds T :
  0 <= indexBlocks T /\
  (NumDirect < T -> NumDirect < T + indexBlocks T) /\
  (NumDirect + NumIndirect < T ->
   doublePos < T + indexBlocks T /\ indexBlocks T = 2 + secondaryBlocks T /\
   1 <= secondaryBlocks T /\
   forall k, 0 <= k < secondaryBlocks T -> secondaryPos k < T + indexBlocks T).
Proof.
  pose proof (secondaryBlocks_spec T) as HK.
  unfold indexBlocks, doublePos.
  destruct (Z.leb_spec T NumDirect); [repeat split; intros; lia|].
  destruct (Z.leb_spec T (NumDirect + NumIndirect)); [repeat split; intros; lia|].
  assert (1 <= secondaryBlocks T) by nia.
  repeat split; intros; try lia. unfold secondaryPos. nia.
Qed.

(** The sectors released from a file right after its allocation, as draws
    from the map. *)
Lemma released_layout b0 s m y :
  s <= maxCapacity ->
  sectorsNeeded s <= Bitmap.NumClear b0 ->
  allocated_layout b0 s m ->
  released m y ->
  (exists i, 0 <= i < sectorsFor s /\ y = drawn b0 (drawIndex i)) \/
  (NumDirect < sectorsFor s /\ y = drawn b0 NumDirect) \/
  (NumDirect + NumIndirect < sectorsFor s /\ y = drawn b0 doublePos).
Proof.
  intros Hcap Hbudget (Hst & Hfm) Hr.
  pose proof Hst as (Hh & _). cbv zeta in Hh.
  destruct Hr as [(i & m' & Hi & Ei)|[(A & B)|(A & B)]].
  - left. rewrite Hh in Hi. cbn [numSectors] in Hi. exists i. split; [exact Hi|].
    destruct (GetPhysicSector_store b0 s m i Hst Hcap Hbudget Hi) as (dk & E & _).
    congruence.
  - right. left. rewrite Hh in A, B. cbn [singleIndirectSector] in A, B.
    destruct (Z.leb_spec (sectorsFor s) NumDirect); [congruence|]. now split.
  - right. right. rewrite Hh in A, B. cbn [doubleIndirectSector] in A, B.
    destruct (Z.leb_spec (sectorsFor s) (NumDirect + NumIndirect)); [congruence|]. now split.
Qed.

Lemma Deallocate_layout b0 s m fuel :
  s <= maxCapacity ->
  sectorsNeeded s <= Bitmap.NumClear b0 ->
  allocated_layout b0 s m ->
  (Z.to_nat (sectorsFor s) + 1 <= fuel)%nat ->
  exists m', Deallocate fuel m = Ret tt m'.
Proof.
  intros Hcap Hbudget (Hst & Hfm) Hfuel.
  pose proof (sectorsFor_nonneg s) as HT0.
  destruct (Deallocate_loop_store b0 s Hcap Hbudget _ 0 m fuel Hst ltac:(lia) eq_refl)
    as (m1 & E & _).
  { intros j Hj. rewrite Hfm. apply drawn_marked.
    - pose proof (drawIndex_needed (sectorsFor s) j Hj).
      pose proof (drawIndex_nonneg j ltac:(lia)). unfold sectorsNeeded. lia.
    - pose proof (drawIndex_needed (sectorsFor s) j Hj). unfold sectorsNeeded in *. lia. }
  { lia. }
  destruct (Deallocate_after_loop fuel m m1 E) as (b2 & E2 & _).
  eexists. exact E2.
Qed.

(** X1.  Allocation where the map holds the sectors needed.  For a size of
    at most [maxCapacity] and a map with at least [sectorsNeeded s] free
    sectors, [Allocate] on a new header returns [TRUE]; the header has the
    size asked for and the sectors it takes; the map has lost exactly the
    sectors needed; every logical sector translates to a sector that was
    free in the map before and is marked in it after; and the sector numbers
    grow with the logical index, so that no two are the same. *)
Theorem Allocate_correct s b0 d fuel :
  s <= maxCapacity ->
  sectorsNeeded s <= Bitmap.NumClear b0 ->
  (Z.to_nat (Z.max NumDirect NumIndirect) + 2 <= fuel)%nat ->
  exists m',
    Allocate fuel s (zeroed b0 d) = Ret true m' /\
    numBytes (this m') = s /\
    numSectors (this m') = sectorsFor s /\
    Bitmap.NumClear (freeMap m') = Bitmap.NumClear b0 - sectorsNeeded s /\
    (forall i, 0 <= i < sectorsFor s ->
       exists p m'', GetPhysicSector i m' = Ret p m'' /\
                     Bitmap.Test p b0 = false /\
                     Bitmap.Test p (freeMap m') = true) /\
    (forall i j p q mi mj,
       0 <= i < j -> j < sectorsFor s ->
       GetPhysicSector i m' = Ret p mi -> GetPhysicSector j m' = Ret q mj ->
       p < q).
Proof.
  intros Hcap Hbudget Hfuel.
  destruct (Allocate_layout s b0 d fuel Hcap Hbudget Hfuel) as (m' & E & Hl).
  pose proof Hl as (Hst & Hfm). pose proof Hst as (Hh & _). cbv zeta in Hh.
  pose proof (sectorsFor_nonneg s) as HT0.
  pose proof (indexBlocks_bounds (sectorsFor s)) as (HI0 & _).
  exists m'. split; [exact E|].
  split; [now rewrite Hh|]. split; [now rewrite Hh|].
  split; [rewrite Hfm; apply after_NumClear; unfold sectorsNeeded in *; lia|].
  split.
  - intros i Hi.
    destruct (GetPhysicSector_store b0 s m' i Hst Hcap Hbudget Hi) as (dk & G & _).
    pose proof (drawIndex_needed (sectorsFor s) i Hi).
    pose proof (drawIndex_nonneg i ltac:(lia)).
    unfold sectorsNeeded in *.
    eexists _, _. split; [exact G|]. split.
    + apply drawn_clear_before. lia.
    + rewrite Hfm. apply drawn_marked; lia.
  - intros i j p q mi mj Hij Hj Ei Ej.
    destruct (GetPhysicSector_store b0 s m' i Hst Hcap Hbudget ltac:(lia)) as (di & Gi & _).
    destruct (GetPhysicSector_store b0 s m' j Hst Hcap Hbudget ltac:(lia)) as (dj & Gj & _).
    rewrite Gi in Ei. rewrite Gj in Ej. injection Ei as <- _. injection Ej as <- _.
    assert (Hj' : 0 <= j < sectorsFor s) by lia.
    pose proof (drawIndex_needed (sectorsFor s) j Hj').
    pose proof (drawIndex_nonneg i ltac:(lia)).
    pose proof (drawIndex_lt i j Hij).
    unfold sectorsNeeded in *.
    apply drawn_lt; lia.
Qed.

(** C9.  An allocation of at most the capacity of a header, on a new header
    and from a map that holds the sectors it draws, terminates with nothing
    left to allocate: with room for [max NumDirect NumIndirect + 2]
    iterations in each of its loops (the direct phase, the fill of an
    indirect block, the [do ... while] over the secondary blocks) it
    returns, it returns [TRUE], and on return the remainder
    [fileSize - numBytes] that drives the three loops is zero: the header
    holds the size asked for, in the sectors that size takes, and the map
    has lost the sectors the request draws. *)
Theorem Allocate_terminates s b0 d fuel :
  s <= maxCapacity ->
  sectorsNeeded s <= Bitmap.NumClear b0 ->
  (Z.to_nat (Z.max NumDirect NumIndirect) + 2 <= fuel)%nat ->
  exists m',
    Allocate fuel s (zeroed b0 d) = Ret true m' /\
    s - numBytes (this m') = 0 /\
    numSectors (this m') = sectorsFor s /\
    Bitmap.NumClear (freeMap m') = Bitmap.NumClear b0 - sectorsNeeded s.
Proof.
  intros Hcap Hbudget Hfuel.
  destruct (Allocate_layout s b0 d fuel Hcap Hbudget Hfuel) as (m' & E & Hst & Hfm).
  destruct Hst as (Hh & _). cbv zeta in Hh.
  pose proof (sectorsFor_nonneg s) as HT0.
  pose proof (indexBlocks_bounds (sectorsFor s)) as (HI0 & _).
  exists m'. split; [exact E|].
  split; [rewrite Hh; cbn [numBytes]; lia|].
  split; [now rewrite Hh|].
  rewrite Hfm. apply after_NumClear; unfold sectorsNeeded in *; lia.
Qed.


(** ** Requests past the capacity *)

(** The [do ... while] loop of a request past the capacity fills every
    secondary block and then reads past the pointers of the double-indirect
    block. *)
Lemma AllocateDoubleIndirectBlock_loop_overflow b0 s T ds hs hh fuel :
  (T - 1) * SectorSize < s <= T * SectorSize ->
  maxSectors < T ->
  maxSectors + NumIndirect + 2 <= Bitmap.NumClear b0 ->
  (Z.to_nat NumIndirect + 2 <= fuel)%nat ->
  forall n k d,
    0 <= k <= NumIndirect -> (Z.to_nat (NumIndirect - k) + 1 <= n)%nat ->
    exists d',
      AllocateDoubleIndirectBlock_loop n fuel s
        (Indirect.mk k (tabf (fun k' => drawn b0 (secondaryPos k')) k NumIndirect)) k
        (mkMachine (mkFileHeader (SectorSize * (NumDirect + NumIndirect * (1 + k)))
                                 (firstLogical k) ds hs (drawn b0 doublePos) hh)
                   (after b0 (secondaryPos k)) d) =
      Fault OutOfBounds
        (mkMachine (mkFileHeader (SectorSize * (NumDirect + NumIndirect * (1 + NumIndirect)))
                                 maxSectors ds hs (drawn b0 doublePos) hh)
                   (after b0 (maxSectors + NumIndirect + 2)) d').
Proof.
  intros HT HTmax Hbudget Hfuel.
  induction n as [|n IH]; intros k d Hk Hn; [lia|].
  destruct (Z.eq_dec k NumIndirect) as [->|Hne].
  - exists d. cbn [AllocateDoubleIndirectBlock_loop].
    unfold bind at 1. unfold ASSERT. hsimpl. zbool. hsimpl.
    unfold bind at 1. unfold load. rewrite tabf_inBounds. zbool.
    rewrite andb_false_r. unfold stop.
    replace (firstLogical NumIndirect) with maxSectors
      by (unfold firstLogical, maxSectors; ring).
    replace (secondaryPos NumIndirect) with (maxSectors + NumIndirect + 2)
      by (unfold secondaryPos, maxSectors; ring).
    reflexivity.
  - assert (HkT : firstLogical k + NumIndirect < T)
      by (unfold firstLogical, maxSectors in *; nia).
    assert (Hq2 : drawn b0 (secondaryPos k) <> drawn b0 doublePos).
    { intros E. apply drawn_inj in E; unfold secondaryPos, doublePos, maxSectors in *; nia. }
    pose proof (AllocateDoubleIndirectBlock_loop_step b0 s T ds hs hh fuel n k d
                  HT ltac:(lia) ltac:(lia) Hq2 Hfuel) as E.
    cbv zeta in E. rewrite E. clear E. zbool.
    apply IH; lia.
Qed.

(** C2, on the code.  A request of more than [maxCapacity] bytes on a new
    header, from a map with room for a file of full capacity: [Allocate]
    does not return [FALSE]; it draws the sectors of a file of full
    capacity, [maxSectors] data sectors and [NumIndirect + 2] index blocks,
    and stops on the read of entry [NumIndirect] of the double-indirect
    block, past its [NumIndirect] pointers.  The free count of the map has
    gone down by the sectors drawn. *)
Theorem Allocate_past_capacity s b0 d fuel :
  maxCapacity < s ->
  maxSectors + NumIndirect + 2 <= Bitmap.NumClear b0 ->
  (Z.to_nat (Z.max NumDirect NumIndirect) + 2 <= fuel)%nat ->
  exists m',
    Allocate fuel s (zeroed b0 d) = Fault OutOfBounds m' /\
    numSectors (this m') = maxSectors /\
    Bitmap.NumClear (freeMap m') = Bitmap.NumClear b0 - (maxSectors + NumIndirect + 2).
Proof.
  intros Hs Hbudget Hfuel.
  assert (Hs0 : 0 < s) by (unfold maxCapacity, maxSectors in Hs; nia).
  pose proof (sectorsFor_spec s Hs0) as HT.
  set (T := sectorsFor s) in *.
  assert (HTmax : maxSectors < T) by (unfold maxCapacity in Hs; nia).
  assert (Hd : NumDirect < T) by (unfold maxSectors in HTmax; nia).
  pose proof (Allocate_prefix b0 s T d fuel HT Hd Hfuel) as E.
  cbv zeta in E. rewrite E. clear E.
  assert (Hgt : NumDirect + NumIndirect < T) by (unfold maxSectors in HTmax; nia).
  zbool.
  match goal with
  | |- context [Disk_write (snd ?a) ?b ?c] => set (d1 := Disk_write (snd a) b c)
  end.
  clearbody d1.
  set (d0 := Disk_write d1 (drawn b0 doublePos) (Indirect_image Indirect_new)).
  destruct (AllocateDoubleIndirectBlock_loop_overflow b0 s T
              (tabf (drawn b0) NumDirect NumDirect) (drawn b0 NumDirect) (-1) fuel
              HT HTmax Hbudget ltac:(lia) fuel 0 d0 ltac:(lia) ltac:(lia))
    as (d' & E).
  eexists. split.
  - unfold bind at 1. unfold AllocateDoubleIndirectBlock. unfold bind at 1. hsimpl.
    zbool. hsimpl. unfold bind at 1. unfold bind at 1.
    rewrite FindAndSet_run by (unfold doublePos; lia).
    unfold bind at 1. hsimpl. unfold bind at 1.
    unfold WriteSector. cbn [this freeMap synchDisk]. fold d0.
    rewrite (Indirect_new_tabf (fun k' => drawn b0 (secondaryPos k'))).
    match goal with
    | |- context [AllocateDoubleIndirectBlock_loop fuel fuel s ?i 0 ?m] =>
        replace (AllocateDoubleIndirectBlock_loop fuel fuel s i 0 m)
          with (Fault (A := unit) OutOfBounds
                  (mkMachine
                     (mkFileHeader (SectorSize * (NumDirect + NumIndirect * (1 + NumIndirect)))
                                   maxSectors (tabf (drawn b0) NumDirect NumDirect)
                                   (drawn b0 NumDirect) (drawn b0 doublePos) (-1))
                     (after b0 (maxSectors + NumIndirect + 2)) d'))
    end.
    + reflexivity.
    + rewrite <- E. f_equal. f_equal.
      * f_equal; unfold firstLogical; ring.
      * f_equal. unfold doublePos, secondaryPos. ring.
  - cbn [this freeMap numSectors]. split; [reflexivity|].
    apply after_NumClear. unfold maxSectors in *. nia.
Qed.

End Correctness.

(** * The admission test, and requests past the capacity *)

(** X2.  On a new header the admission test of [Allocate] compares the free
    sectors with the count of the header, which is zero: [Allocate] does not
    return [FALSE], whatever the size asked for and the map. *)
Theorem Allocate_never_refuses {K : Constants} fuel s b d m' :
  Allocate fuel s (zeroed b d) <> Ret false m'.
Proof.
  pose proof (NumClear_nonneg b) as Hnn.
  unfold Allocate, zeroed. unfold bind at 1. hsimpl. unfold bind at 1. hsimpl.
  replace (numSectors FileHeader_new) with 0 by reflexivity. zbool.
  unfold bind at 1.
  destruct (AllocateDirectBlocks fuel s _) as [[] m1|f m1|]; try discriminate.
  destruct (s <=? NumDirect * SectorSize); [intros E; discriminate E|].
  unfold bind at 1. hsimpl. unfold bind at 1.
  destruct (ASSERT _ m1) as [[] m2|f m2|]; try discriminate.
  unfold bind at 1.
  destruct (CreateSingleIndirectBlock s m2) as [[] m3|f m3|]; try discriminate.
  unfold bind at 1. hsimpl. unfold bind at 1.
  destruct (AllocateIndirectSpace fuel s _ _ m3) as [allocated m4|f m4|]; try discriminate.
  destruct (allocated =? 0); [intros E; discriminate E|].
  unfold bind at 1.
  destruct (ASSERT _ m4) as [[] m5|f m5|]; try discriminate.
  unfold bind at 1.
  destruct (AllocateDoubleIndirectBlock fuel s m5) as [[] m6|f m6|];
    intros E; discriminate E.
Qed.

(** C1, at a failing input.  A request of 500 bytes (4 sectors of 128
    bytes) on a new header, from a map that has 2 free sectors, 1022 and
    1023: [Allocate] returns [TRUE]; it has drawn both sectors, the map is
    full, and the header claims 500 bytes in 4 sectors, the last two of them
    the sentinel. *)
Theorem Allocate_admits_without_space :
  Allocate (K := NachOS) 30 500 (zeroed (K := NachOS) nearly_full_map blank_disk) =
  Ret true (mkMachine (mkFileHeader 500 4 (1022 :: 1023 :: repeat (-1) 25) (-1) (-1) (-1))
                      full_map blank_disk).
Proof. vm_compute. reflexivity. Qed.

(** The same at a concrete input: one byte more than the capacity (27 + 31
    + 31 * 31 sectors of 128 bytes), from a map of 2048 free sectors; 1019
    data sectors and 33 index blocks are drawn before the run stops. *)
Example Allocate_past_capacity_by_one :
  maxCapacity (K := NachOS) = 130432 /\
  match Allocate (K := NachOS) 40 130433 (zeroed (K := NachOS) (free_map 2048) blank_disk) with
  | Fault OutOfBounds m' =>
      numSectors (this m') = 1019 /\
      Bitmap.NumClear (freeMap m') = 2048 - 1052
  | _ => False
  end.
Proof. split; vm_compute; [reflexivity | split; reflexivity]. Qed.

(** C3, at a failing input.  A request of 256 bytes on a new header, with
    sectors of 128 bytes and a map that has no free sector: [Allocate]
    returns [TRUE]; the two logical sectors of the file both translate to
    the sentinel [-1], which the map does not hold marked. *)
Theorem Allocate_success_without_sectors :
  exists m',
    Allocate (K := NachOS) 30 256 (zeroed (K := NachOS) full_map blank_disk) = Ret true m' /\
    numBytes (this m') = 256 /\
    GetPhysicSector (K := NachOS) 0 m' = Ret (-1) m' /\
    GetPhysicSector (K := NachOS) 1 m' = Ret (-1) m' /\
    Bitmap.Test (-1) (freeMap m') = false.
Proof.
  eexists. split; [vm_compute; reflexivity|].
  repeat split; vm_compute; reflexivity.
Qed.

(** * The scenarios of the spec *)

(** Scenario A: 500 bytes with sectors of 128 bytes and 10 direct pointers
    take 4 direct sectors and no indirect block. *)
Example scenario_A_direct :
  Allocate (K := scenario_A) 40 500 (zeroed (K := scenario_A) (free_map 16) blank_disk) =
  Ret true (mkMachine (mkFileHeader 500 4 (0 :: 1 :: 2 :: 3 :: repeat (-1) 6) (-1) (-1) (-1))
                      (repeat true 4 ++ repeat false 12) blank_disk).
Proof. vm_compute. reflexivity. Qed.

(** Scenario B: [NumDirect * SectorSize] bytes fill the direct pointers and
    create no indirect block; the disk is not written. *)
Example scenario_B_direct_full :
  Allocate (K := NachOS) 40 (27 * 128) (zeroed (K := NachOS) (free_map 64) blank_disk) =
  Ret true (mkMachine (mkFileHeader 3456 27 (map Z.of_nat (seq 0 27)) (-1) (-1) (-1))
                      (repeat true 27 ++ repeat false 37) blank_disk).
Proof. vm_compute. reflexivity. Qed.

(** Scenario C: one byte more creates the single-indirect block, which
    holds exactly one pointer. *)
Example scenario_C_single_indirect :
  match Allocate (K := NachOS) 40 (27 * 128 + 1) (zeroed (K := NachOS) (free_map 64) blank_disk) with
  | Ret true m' =>
      numBytes (this m') = 3457 /\ numSectors (this m') = 28 /\
      singleIndirectSector (this m') = 27 /\ doubleIndirectSector (this m') = -1 /\
      Indirect_of_image (K := NachOS) (sectors (synchDisk m') 27) =
        Indirect.mk 1 (28 :: repeat (-1) 30)
  | _ => False
  end.
Proof. vm_compute. repeat split; reflexivity. Qed.

(** Scenario D: one block past the direct and single-indirect capacity
    creates the double-indirect block with one secondary block, which holds
    one pointer. *)
Example scenario_D_double_indirect :
  match Allocate (K := NachOS) 40 ((27 + 31) * 128 + 1)
                 (zeroed (K := NachOS) (free_map 64) blank_disk) with
  | Ret true m' =>
      numBytes (this m') = 7425 /\ numSectors (this m') = 59 /\
      singleIndirectSector (this m') = 27 /\ doubleIndirectSector (this m') = 59 /\
      Indirect_of_image (K := NachOS) (sectors (synchDisk m') 59) =
        Indirect.mk 1 (60 :: repeat (-1) 30) /\
      Indirect_of_image (K := NachOS) (sectors (synchDisk m') 60) =
        Indirect.mk 1 (61 :: repeat (-1) 30) /\
      Bitmap.NumClear (freeMap m') = 64 - 62
  | _ => False
  end.
Proof. vm_compute. repeat split; reflexivity. Qed.

(** * Counterexamples to the claims as stated *)

(** C4 as stated fails on a new header at the first logical sector past the
    direct ones: the single-indirect pointer is the sentinel, and the
    translation stops on its assertion instead of returning an entry. *)
Lemma translated_fails_on_sentinel :
  ~ translated (K := NachOS) (zeroed (K := NachOS) full_map blank_disk) 27.
Proof.
  intros (_ & H & _). destruct (H ltac:(cbn; lia)) as (m' & E).
  vm_compute in E. discriminate E.
Qed.

(** C6 as stated fails on [unmarked_index_block]: sector 27, the
    single-indirect block, is released by [Deallocate] and is not marked,
    and [Deallocate] returns all the same. *)
Lemma release_not_asserted_for_index_block :
  ~ release_asserted (K := NachOS) 40 unmarked_index_block.
Proof.
  intros H. destruct (H 27) as (m' & E).
  - right. left. split; [discriminate | reflexivity].
  - reflexivity.
  - vm_compute in E. discriminate E.
Qed.


(** * Further properties of the code *)

(** ** More on the bitmap *)

Lemma NumClear_set_false i b :
  (i < length b)%nat -> nth i b false = true ->
  Bitmap.NumClear (Bitmap.set_bit i false b) = Bitmap.NumClear b + 1.
Proof.
  revert i; induction b as [|a b IH]; intros i Hi Hn; simpl in *; [lia|].
  destruct i as [|i]; simpl.
  - subst a. lia.
  - rewrite IH by (assumption || lia). lia.
Qed.

Lemma Test_true_inside x b :
  Bitmap.Test x b = true -> 0 <= x < Z.of_nat (length b).
Proof.
  intros H. destruct (Z.lt_ge_cases x 0) as [L|L].
  - rewrite Test_negative in H by assumption. discriminate.
  - destruct (Z.lt_ge_cases x (Z.of_nat (length b))) as [L'|L']; [lia|].
    rewrite Test_beyond in H by assumption. discriminate.
Qed.

(** Clearing a marked sector frees one sector. *)
Lemma NumClear_Clear x b :
  Bitmap.Test x b = true ->
  Bitmap.NumClear (Bitmap.Clear x b) = Bitmap.NumClear b + 1.
Proof.
  intros H. pose proof (Test_true_inside x b H) as Hx.
  unfold Bitmap.Clear. zbool. apply NumClear_set_false; [lia|].
  unfold Bitmap.Test in H. apply andb_true_iff in H. tauto.
Qed.

Lemma Clear_length x b : length (Bitmap.Clear x b) = length b.
Proof. unfold Bitmap.Clear. destruct (0 <=? x); [apply set_bit_length | reflexivity]. Qed.

Lemma find_clear_full b : Bitmap.NumClear b = 0 -> Bitmap.find_clear b = None.
Proof.
  induction b as [|a b IH]; simpl; auto.
  pose proof (NumClear_nonneg b) as Hnn. destruct a; [|lia].
  intros H. rewrite IH by lia. reflexivity.
Qed.

(** A draw from a full map fails: the sentinel is returned and the map is
    left as it is. *)
Lemma FindAndSet_full b :
  Bitmap.NumClear b = 0 -> Bitmap.FindAndSet b = (-1, b).
Proof. intros H. unfold Bitmap.FindAndSet. now rewrite find_clear_full. Qed.

Lemma FindAndSet_length b : length (snd (Bitmap.FindAndSet b)) = length b.
Proof.
  unfold Bitmap.FindAndSet. destruct (Bitmap.find_clear b); [|reflexivity].
  cbn [snd]. unfold Bitmap.Mark. destruct (0 <=? _); [apply set_bit_length | reflexivity].
Qed.

Lemma FindAndSet_NumClear b :
  Bitmap.NumClear (snd (Bitmap.FindAndSet b)) = Z.max 0 (Bitmap.NumClear b - 1).
Proof.
  pose proof (NumClear_nonneg b) as Hnn.
  destruct (Z.eq_dec (Bitmap.NumClear b) 0) as [E|E].
  - rewrite FindAndSet_full by assumption. cbn [snd]. lia.
  - destruct (FindAndSet_spec b ltac:(lia)) as (x & b' & -> & _ & _ & _ & _ & HN).
    cbn [snd]. lia.
Qed.

Lemma after_succ b t : 0 <= t -> after b (t + 1) = snd (Bitmap.FindAndSet (after b t)).
Proof. intros Ht. now rewrite FindAndSet_after. Qed.

Lemma after_length b t : length (after b t) = length b.
Proof.
  unfold after. induction (Z.to_nat t) as [|n IH]; [reflexivity|].
  cbn [draws]. now rewrite FindAndSet_length.
Qed.

(** The free sectors left after [n] draws, whether or not the map had as
    many. *)
Lemma after_NumClear_max b n :
  0 <= n -> Bitmap.NumClear (after b n) = Z.max 0 (Bitmap.NumClear b - n).
Proof.
  pose proof (NumClear_nonneg b) as Hnn.
  intros Hn. pattern n. apply natlike_ind; [| |exact Hn]; clear n Hn.
  - rewrite after_0. lia.
  - intros k Hk IH. unfold Z.succ. rewrite after_succ by assumption.
    rewrite FindAndSet_NumClear, IH. lia.
Qed.

(** Draws past the free sectors of the map return the sentinel. *)
Lemma drawn_exhausted b t :
  0 <= t -> Bitmap.NumClear b <= t -> drawn b t = -1.
Proof.
  intros Ht Hc. unfold drawn. rewrite FindAndSet_full; [reflexivity|].
  rewrite after_NumClear_max by assumption. lia.
Qed.

Lemma after_exhausted b t t' :
  Bitmap.NumClear b <= t <= t' -> 0 <= t -> after b t' = after b t.
Proof.
  intros Ht H0.
  replace t' with (t + Z.of_nat (Z.to_nat (t' - t))) by lia.
  induction (Z.to_nat (t' - t)) as [|k IH].
  - now rewrite Z.add_0_r.
  - replace (t + Z.of_nat (S k)) with (t + Z.of_nat k + 1) by lia.
    rewrite after_succ by lia. rewrite IH.
    rewrite FindAndSet_full; [reflexivity|].
    rewrite after_NumClear_max by assumption. lia.
Qed.

Lemma Test_ext b b' :
  length b = length b' ->
  (forall y, Bitmap.Test y b = Bitmap.Test y b') -> b = b'.
Proof.
  intros Hl H. apply nth_ext with (d := false) (d' := false); [exact Hl|].
  intros n Hn. specialize (H (Z.of_nat n)). unfold Bitmap.Test in H.
  rewrite Nat2Z.id in H. revert H. zbool. cbn [andb]. auto.
Qed.

(** The sectors marked after [n] draws: those marked before, and the
    sectors drawn. *)
Lemma after_Test b n y :
  0 <= n <= Bitmap.NumClear b ->
  (Bitmap.Test y (after b n) = true <->
   Bitmap.Test y b = true \/ exists t, 0 <= t < n /\ y = drawn b t).
Proof.
  intros Hn. assert (H0 : 0 <= n) by lia.
  revert Hn. pattern n. apply natlike_ind; [| |exact H0]; clear n H0.
  - intros _. rewrite after_0. split; [now left|].
    intros [H|(t & Ht & _)]; [exact H | lia].
  - intros k Hk IH Hle. unfold Z.succ in *.
    assert (Hc : 0 < Bitmap.NumClear (after b k)) by (rewrite after_NumClear; lia).
    destruct (FindAndSet_spec _ Hc) as (x & b' & E & _ & _ & _ & HT & _).
    rewrite FindAndSet_after in E by assumption. injection E as <- <-.
    rewrite HT, orb_true_iff, Z.eqb_eq, IH by lia. split.
    + intros [[H|(t & Ht & Et)]|H]; [now left | right; exists t | right; exists k];
        (split; [lia | assumption]).
    + intros [H|(t & Ht & Et)]; [now left; left|].
      destruct (Z.eq_dec t k) as [->|Hne]; [now right|].
      left. right. exists t. split; [lia | assumption].
Qed.

(** ** Translation: what it touches, and arguments out of range *)

Section Translation.

Context {K : Constants}.

(** X3.  [GetPhysicSector] only reads: whatever its outcome, the header, the
    map and the contents of the disk are what they were, and the disk has
    served read requests only, none for a direct sector and at most two
    otherwise. *)
Theorem GetPhysicSector_reads_only i m :
  match GetPhysicSector i m with
  | Ret _ m' | Fault _ m' =>
      this m' = this m /\ freeMap m' = freeMap m /\
      sectors (synchDisk m') = sectors (synchDisk m) /\
      exists rs,
        requests (synchDisk m') = requests (synchDisk m) ++ map ReadRequest rs /\
        (length rs <= 2)%nat /\
        (i < NumDirect -> rs = [])
  | OutOfFuel => False
  end.
Proof.
  rewrite GetPhysicSector_eval. cbv zeta.
  destruct (Z.ltb_spec i NumDirect) as [H1|H1].
  { destruct (inBounds _ i); repeat split;
      exists []; cbn [map length]; rewrite app_nil_r; auto. }
  assert (R1 : forall a, exists rs : list Z,
             requests (synchDisk m) ++ [ReadRequest a] =
             requests (synchDisk m) ++ map ReadRequest rs /\
             (length rs <= 2)%nat /\ (i < NumDirect -> rs = [])).
  { intros a. exists [a]. cbn [map length]. repeat split; [lia | intros; lia]. }
  assert (R2 : forall a c, exists rs : list Z,
             (requests (synchDisk m) ++ [ReadRequest a]) ++ [ReadRequest c] =
             requests (synchDisk m) ++ map ReadRequest rs /\
             (length rs <= 2)%nat /\ (i < NumDirect -> rs = [])).
  { intros a c. exists [a; c]. cbn [map length]. rewrite <- app_assoc.
    repeat split; [lia | intros; lia]. }
  assert (R0 : exists rs : list Z,
             requests (synchDisk m) = requests (synchDisk m) ++ map ReadRequest rs /\
             (length rs <= 2)%nat /\ (i < NumDirect -> rs = [])).
  { exists []. cbn [map length]. rewrite app_nil_r. repeat split; lia. }
  repeat match goal with
         | |- context [if ?c then _ else _] => destruct c
         end; cbn [Disk_read snd this freeMap synchDisk sectors requests];
    repeat split; auto.
Qed.

Lemma GetPhysicSector_negative i m :
  0 <= NumDirect -> i < 0 -> GetPhysicSector i m = Fault OutOfBounds m.
Proof.
  intros HN Hi. rewrite GetPhysicSector_eval. cbv zeta. zbool.
  unfold inBounds. zbool. reflexivity.
Qed.

Lemma GetPhysicSector_past_capacity i m :
  0 < NumIndirect -> maxSectors <= i ->
  GetPhysicSector i m =
  if doubleIndirectSector (this m) =? -1 then Fault AssertionFailed m
  else Fault OutOfBounds
         (mkMachine (this m) (freeMap m)
            (snd (Disk_read (synchDisk m) (doubleIndirectSector (this m))))).
Proof.
  intros HN Hi. unfold maxSectors in Hi.
  rewrite GetPhysicSector_eval. cbv zeta.
  replace (i <? NumDirect) with false by (symmetry; apply Z.ltb_ge; nia).
  replace (i <? NumDirect + NumIndirect) with false by (symmetry; apply Z.ltb_ge; nia).
  destruct (doubleIndirectSector (this m) =? -1); [reflexivity|].
  rewrite Indirect_of_image_inBounds.
  assert (NumIndirect <= Z.quot (i - (NumDirect + NumIndirect)) NumIndirect).
  { rewrite Z.quot_div_nonneg by nia. apply Z.div_le_lower_bound; nia. }
  zbool. rewrite andb_false_r. reflexivity.
Qed.

(** X4.  [ByteToSector] does not check its offset.  With sectors of a
    positive size, a header of at least one direct pointer and blocks of at
    least one: an offset of [- SectorSize] or less indexes [dataSectors]
    before its first entry; an offset between [- SectorSize] and [0] is
    translated like offset [0], the division of C++ truncating towards zero;
    an offset of [maxCapacity] or more stops on the assertion when the header
    has no double-indirect block and otherwise indexes the pointers of that
    block past their end, after one read of the disk. *)
Theorem ByteToSector_out_of_range offset m :
  0 < SectorSize -> 0 < NumDirect -> 0 < NumIndirect ->
  (offset <= - SectorSize -> ByteToSector offset m = Fault OutOfBounds m) /\
  (- SectorSize < offset < 0 -> ByteToSector offset m = ByteToSector 0 m) /\
  (maxCapacity <= offset ->
   (doubleIndirectSector (this m) = -1 ->
    ByteToSector offset m = Fault AssertionFailed m) /\
   (doubleIndirectSector (this m) <> -1 ->
    exists m', ByteToSector offset m = Fault OutOfBounds m' /\
               requests (synchDisk m') =
               requests (synchDisk m) ++ [ReadRequest (doubleIndirectSector (this m))])).
Proof.
  intros HS HD HI. unfold ByteToSector. cbv zeta. split; [|split].
  - intros Ho. apply GetPhysicSector_negative; [lia|].
    rewrite <- (Z.opp_involutive offset), Z.quot_opp_l by lia.
    rewrite Z.quot_div_nonneg by lia.
    assert (1 <= (- offset) / SectorSize) by (apply Z.div_le_lower_bound; lia). lia.
  - intros Ho. f_equal.
    rewrite <- (Z.opp_involutive offset), Z.quot_opp_l by lia.
    rewrite Z.quot_small by lia. now rewrite Z.quot_0_l by lia.
  - intros Ho.
    assert (Hq : maxSectors <= Z.quot offset SectorSize).
    { unfold maxCapacity in Ho. unfold maxSectors in *.
      rewrite Z.quot_div_nonneg by nia. apply Z.div_le_lower_bound; nia. }
    rewrite (GetPhysicSector_past_capacity _ m HI Hq). split.
    + intros ->. reflexivity.
    + intros Hd. zbool. eexists. split; reflexivity.
Qed.

End Translation.

(** ** What allocation and deallocation do to the map *)

Lemma draws_only_refl b : draws_only b b.
Proof. repeat split; auto; lia. Qed.

Lemma draws_only_trans b1 b2 b3 :
  draws_only b1 b2 -> draws_only b2 b3 -> draws_only b1 b3.
Proof.
  intros (A1 & A2 & A3) (B1 & B2 & B3). split; [auto|]. split; [lia | congruence].
Qed.

Lemma draws_only_FindAndSet b : draws_only b (snd (Bitmap.FindAndSet b)).
Proof.
  split; [|split].
  - intros y. apply FindAndSet_grows.
  - rewrite FindAndSet_NumClear. pose proof (NumClear_nonneg b). lia.
  - apply FindAndSet_length.
Qed.

Section OnMap.

Variable R : Bitmap.t -> Bitmap.t -> Prop.
Hypothesis R_refl : forall b, R b b.
Hypothesis R_trans : forall b1 b2 b3, R b1 b2 -> R b2 b3 -> R b1 b3.

Lemma on_map_bind {A B} (c : M A) (k : A -> M B) :
  on_map R c -> (forall a, on_map R (k a)) -> on_map R (bind c k).
Proof.
  intros Hc Hk m. unfold bind. specialize (Hc m).
  destruct (c m) as [a m1|f m1|]; auto.
  specialize (Hk a m1). destruct (k a m1); eauto.
Qed.

Lemma on_map_ret {A} (a : A) : on_map R (ret a).
Proof. intros m. apply R_refl. Qed.

Lemma on_map_stop {A} f : on_map R (stop (A := A) f).
Proof. intros m. apply R_refl. Qed.

Lemma on_map_getThis : on_map R getThis.
Proof. intros m. apply R_refl. Qed.

Lemma on_map_getFreeMap : on_map R getFreeMap.
Proof. intros m. apply R_refl. Qed.

Lemma on_map_modifyThis f : on_map R (modifyThis f).
Proof. intros m. apply R_refl. Qed.

Lemma on_map_setThis h : on_map R (setThis h).
Proof. intros m. apply R_refl. Qed.

Lemma on_map_ASSERT c : on_map R (ASSERT c).
Proof. intros m. unfold ASSERT. destruct c; apply R_refl. Qed.

Lemma on_map_load a i : on_map R (load a i).
Proof. intros m. unfold load. destruct (inBounds a i); apply R_refl. Qed.

Lemma on_map_store a i x : on_map R (store a i x).
Proof. intros m. unfold store. destruct (inBounds a i); apply R_refl. Qed.

Lemma on_map_ReadSector n : on_map R (ReadSector n).
Proof. intros m. apply R_refl. Qed.

Lemma on_map_WriteSector n s : on_map R (WriteSector n s).
Proof. intros m. apply R_refl. Qed.

End OnMap.

Lemma on_map_FindAndSet : on_map draws_only FindAndSet.
Proof.
  intros m. unfold FindAndSet.
  pose proof (draws_only_FindAndSet (freeMap m)) as H.
  destruct (Bitmap.FindAndSet (freeMap m)) as [x b]. exact H.
Qed.

Ltac on_map_step :=
  first
    [ apply on_map_FindAndSet
    | apply (on_map_ret _ draws_only_refl)
    | apply (on_map_stop _ draws_only_refl)
    | apply (on_map_getThis _ draws_only_refl)
    | apply (on_map_getFreeMap _ draws_only_refl)
    | apply (on_map_modifyThis _ draws_only_refl)
    | apply (on_map_ASSERT _ draws_only_refl)
    | apply (on_map_load _ draws_only_refl)
    | apply (on_map_store _ draws_only_refl)
    | apply (on_map_ReadSector _ draws_only_refl)
    | apply (on_map_WriteSector _ draws_only_refl)
    | apply (on_map_bind _ draws_only_trans); [|intro]
    | match goal with |- on_map _ (if ?c then _ else _) => destruct c end
    | match goal with |- on_map _ (let x := _ in _) => cbv zeta end ].

Section MapEffects.

Context {K : Constants}.

Lemma AllocateDirectBlocks_draws fuel s : on_map draws_only (AllocateDirectBlocks fuel s).
Proof.
  induction fuel as [|fuel IH]; [intros m; exact I|].
  cbn [AllocateDirectBlocks]. repeat on_map_step. exact IH.
Qed.

Lemma CreateSingleIndirectBlock_draws s : on_map draws_only (CreateSingleIndirectBlock s).
Proof. unfold CreateSingleIndirectBlock. repeat on_map_step. Qed.

Lemma AllocateIndirectSpace_loop_draws fuel s start end_ :
  forall indirect, on_map draws_only (AllocateIndirectSpace_loop fuel s start end_ indirect).
Proof.
  induction fuel as [|fuel IH]; intros indirect; [intros m; exact I|].
  cbn [AllocateIndirectSpace_loop]. repeat on_map_step; apply IH.
Qed.

Lemma AllocateIndirectSpace_draws fuel s sector start :
  on_map draws_only (AllocateIndirectSpace fuel s sector start).
Proof.
  unfold AllocateIndirectSpace. repeat on_map_step.
  apply AllocateIndirectSpace_loop_draws.
Qed.

Lemma AllocateDoubleIndirectBlock_loop_draws n fuel s :
  forall doubleIndirect cur,
    on_map draws_only (AllocateDoubleIndirectBlock_loop n fuel s doubleIndirect cur).
Proof.
  induction n as [|n IH]; intros doubleIndirect cur; [intros m; exact I|].
  cbn [AllocateDoubleIndirectBlock_loop].
  repeat first [ apply AllocateIndirectSpace_draws | apply IH | on_map_step ].
Qed.

Lemma AllocateDoubleIndirectBlock_draws fuel s :
  on_map draws_only (AllocateDoubleIndirectBlock fuel s).
Proof.
  unfold AllocateDoubleIndirectBlock.
  repeat first [ apply AllocateDoubleIndirectBlock_loop_draws | on_map_step ].
Qed.

(** X5.  [Allocate] never hands a sector back: whatever the header, the
    size asked for and the outcome (a return or a fault), every sector
    marked in the map before the call is marked after it, the free count has
    not grown, and the map has the size it had. *)
Theorem Allocate_never_frees fuel s m :
  match Allocate fuel s m with
  | Ret _ m' | Fault _ m' =>
      (forall y, Bitmap.Test y (freeMap m) = true -> Bitmap.Test y (freeMap m') = true) /\
      Bitmap.NumClear (freeMap m') <= Bitmap.NumClear (freeMap m) /\
      length (freeMap m') = length (freeMap m)
  | OutOfFuel => True
  end.
Proof.
  assert (H : on_map draws_only (Allocate fuel s)).
  { unfold Allocate.
    repeat first [ apply AllocateDirectBlocks_draws
                 | apply CreateSingleIndirectBlock_draws
                 | apply AllocateIndirectSpace_draws
                 | apply AllocateDoubleIndirectBlock_draws
                 | on_map_step ]. }
  exact (H m).
Qed.

(** X6.  The refusal of [Allocate].  [Allocate] returns [FALSE] exactly when
    the free count of the map is below the count of sectors the header
    already has, whatever the size asked for; the header, the map and the
    disk are then what they were. *)
Theorem Allocate_refusal fuel s m :
  (Bitmap.NumClear (freeMap m) < numSectors (this m) ->
   Allocate fuel s m = Ret false m) /\
  (forall m', Allocate fuel s m = Ret false m' ->
              Bitmap.NumClear (freeMap m) < numSectors (this m) /\ m' = m).
Proof.
  split.
  - intros Hlt. unfold Allocate. unfold bind at 1. hsimpl. unfold bind at 1. hsimpl.
    now zbool.
  - intros m'. unfold Allocate. unfold bind at 1. hsimpl. unfold bind at 1. hsimpl.
    destruct (Z.ltb_spec (Bitmap.NumClear (freeMap m)) (numSectors (this m))) as [Hlt|Hge].
    { intros E. injection E as <-. now split. }
    unfold bind at 1.
    destruct (AllocateDirectBlocks fuel s m) as [[] m1|f m1|]; try discriminate.
    destruct (s <=? NumDirect * SectorSize); [intros E; discriminate E|].
    unfold bind at 1. hsimpl. unfold bind at 1.
    destruct (ASSERT _ m1) as [[] m2|f m2|]; try discriminate.
    unfold bind at 1.
    destruct (CreateSingleIndirectBlock s m2) as [[] m3|f m3|]; try discriminate.
    unfold bind at 1. hsimpl. unfold bind at 1.
    destruct (AllocateIndirectSpace fuel s _ _ m3) as [allocated m4|f m4|]; try discriminate.
    destruct (allocated =? 0); [intros E; discriminate E|].
    unfold bind at 1.
    destruct (ASSERT _ m4) as [[] m5|f m5|]; try discriminate.
    unfold bind at 1.
    destruct (AllocateDoubleIndirectBlock fuel s m5) as [[] m6|f m6|];
      intros E; discriminate E.
Qed.

End MapEffects.

(** ** What deallocation does to the map *)

Lemma clears_only_refl b : clears_only b b.
Proof. repeat split; auto; lia. Qed.

Lemma clears_only_trans b1 b2 b3 :
  clears_only b1 b2 -> clears_only b2 b3 -> clears_only b1 b3.
Proof.
  intros (A1 & A2 & A3) (B1 & B2 & B3). split; [auto|]. split; [lia | congruence].
Qed.

Lemma clears_only_Clear x b :
  Bitmap.Test x b = true -> clears_only b (Bitmap.Clear x b).
Proof.
  intros H. split; [|split].
  - intros y. rewrite Test_Clear, andb_true_iff. tauto.
  - rewrite NumClear_Clear by assumption. lia.
  - apply Clear_length.
Qed.

Section Release.

Context {K : Constants}.

(** The loop of [Deallocate] only clears, and a loop that returns has
    cleared one marked sector for each logical sector from [i] on. *)
Lemma Deallocate_loop_effect fuel :
  forall i m,
    match Deallocate_loop fuel i m with
    | Ret _ m' =>
        clears_only (freeMap m) (freeMap m') /\
        Bitmap.NumClear (freeMap m') =
        Bitmap.NumClear (freeMap m) + Z.max 0 (numSectors (this m) - i)
    | Fault _ m' => clears_only (freeMap m) (freeMap m')
    | OutOfFuel => True
    end.
Proof.
  induction fuel as [|fuel IH]; intros i m; [exact I|].
  cbn [Deallocate_loop]. unfold bind at 1. hsimpl.
  destruct (Z.ltb_spec i (numSectors (this m))) as [Hlt|Hge].
  2:{ split; [apply clears_only_refl | lia]. }
  unfold bind at 1.
  pose proof (GetPhysicSector_frame i m) as F.
  destruct (GetPhysicSector i m) as [p m1|f m1|]; [| |tauto].
  2:{ destruct F as (_ & ->). apply clears_only_refl. }
  destruct F as ((Fh & _) & Fb).
  unfold bind at 1. hsimpl. unfold bind at 1. unfold ASSERT.
  destruct (Bitmap.Test p (freeMap m1)) eqn:Hp.
  2:{ unfold stop. rewrite Fb. apply clears_only_refl. }
  hsimpl. unfold bind at 1. hsimpl.
  match goal with |- context [Deallocate_loop fuel ?j ?m2] =>
    pose proof (IH j m2) as G; cbn [this freeMap] in G;
    destruct (Deallocate_loop fuel j m2) as [[] m3|f m3|]
  end; [| |exact I].
  - destruct G as (G1 & G2). rewrite Fb in *. split.
    + eapply clears_only_trans; [apply clears_only_Clear; exact Hp | exact G1].
    + rewrite G2, NumClear_Clear, Fh by assumption. lia.
  - rewrite Fb in *.
    eapply clears_only_trans; [apply clears_only_Clear; exact Hp | exact G].
Qed.

Lemma release_index_effect x m :
  exists b,
    release_index x m = Ret tt (mkMachine (this m) b (synchDisk m)) /\
    clears_only (freeMap m) b /\
    Bitmap.NumClear b =
    Bitmap.NumClear (freeMap m)
    + (if negb (x =? -1) && Bitmap.Test x (freeMap m) then 1 else 0) /\
    forall y, Bitmap.Test y b =
              Bitmap.Test y (freeMap m) && negb ((y =? x) && negb (x =? -1)).
Proof.
  unfold release_index.
  destruct (Z.eqb_spec x (-1)) as [->|Hx]; cbn [negb andb].
  - exists (freeMap m). split; [now destruct m|].
    split; [apply clears_only_refl|]. split; [lia|].
    intros y. now rewrite andb_false_r, andb_true_r.
  - unfold bind, getFreeMap, setFreeMap, ret.
    destruct (Bitmap.Test x (freeMap m)) eqn:E.
    + eexists. split; [reflexivity|].
      split; [now apply clears_only_Clear|]. split; [now apply NumClear_Clear|].
      intros y. now rewrite Test_Clear, andb_true_r.
    + exists (freeMap m). split; [now destruct m|].
      split; [apply clears_only_refl|]. split; [lia|].
      intros y. rewrite andb_true_r.
      destruct (Z.eqb_spec y x) as [->|]; cbn [negb].
      * now rewrite E.
      * now rewrite andb_true_r.
Qed.

(** [Deallocate], outcome by outcome, in terms of its loop. *)
Lemma Deallocate_effect fuel m :
  match Deallocate fuel m with
  | Ret _ m' =>
      clears_only (freeMap m) (freeMap m') /\
      exists m1 b1,
        Deallocate_loop fuel 0 m = Ret tt m1 /\
        clears_only (freeMap m1) b1 /\
        Bitmap.NumClear b1 =
          Bitmap.NumClear (freeMap m1)
          + (if negb (singleIndirectSector (this m1) =? -1)
                && Bitmap.Test (singleIndirectSector (this m1)) (freeMap m1)
             then 1 else 0) /\
        (forall y, Bitmap.Test y b1 =
                   Bitmap.Test y (freeMap m1)
                   && negb ((y =? singleIndirectSector (this m1))
                            && negb (singleIndirectSector (this m1) =? -1))) /\
        Bitmap.NumClear (freeMap m') =
          Bitmap.NumClear b1
          + (if negb (doubleIndirectSector (this m1) =? -1)
                && Bitmap.Test (doubleIndirectSector (this m1)) b1
             then 1 else 0)
  | Fault _ m' => clears_only (freeMap m) (freeMap m')
  | OutOfFuel => True
  end.
Proof.
  pose proof (Deallocate_loop_effect fuel 0 m) as L.
  rewrite Deallocate_unfold. unfold bind at 1.
  destruct (Deallocate_loop fuel 0 m) as [[] m1|f m1|]; [|exact L|exact I].
  destruct L as (L1 & L2).
  unfold bind at 1. hsimpl. unfold bind at 1.
  destruct (release_index_effect (singleIndirectSector (this m1)) m1) as (b1 & E1 & C1 & N1 & T1).
  rewrite E1. unfold bind at 1. hsimpl.
  destruct (release_index_effect (doubleIndirectSector (this m1))
              (mkMachine (this m1) b1 (synchDisk m1))) as (b2 & E2 & C2 & N2 & _).
  cbn [this freeMap synchDisk] in E2, C2, N2. rewrite E2. cbn [freeMap].
  split.
  - eapply clears_only_trans; [exact L1|]. eapply clears_only_trans; eassumption.
  - exists m1, b1. split; [reflexivity|]. split; [exact C1|]. split; [exact N1|]. split; [exact T1 | exact N2].
Qed.

(** X7.  [Deallocate] never marks a sector: whatever the header, the map
    and the outcome (a return or a failed assertion), every sector marked
    after the call was marked before it, the free count has not gone down,
    and the map has the size it had. *)
Theorem Deallocate_only_clears fuel m :
  match Deallocate fuel m with
  | Ret _ m' | Fault _ m' =>
      (forall y, Bitmap.Test y (freeMap m') = true -> Bitmap.Test y (freeMap m) = true) /\
      Bitmap.NumClear (freeMap m) <= Bitmap.NumClear (freeMap m') /\
      length (freeMap m') = length (freeMap m)
  | OutOfFuel => True
  end.
Proof.
  pose proof (Deallocate_effect fuel m) as H.
  destruct (Deallocate fuel m) as [[] m'|f m'|]; [|exact H|exact I].
  destruct H as (H & _). exact H.
Qed.

(** X8.  A [Deallocate] that returns has raised the free count of the map
    by at least [numSectors] -- one sector for each logical sector of the
    header, each found marked when its turn came -- and by at most two
    more, the index blocks. *)
Theorem Deallocate_free_count fuel m m' :
  Deallocate fuel m = Ret tt m' ->
  let n := Z.max 0 (numSectors (this m)) in
  Bitmap.NumClear (freeMap m) + n <= Bitmap.NumClear (freeMap m')
    <= Bitmap.NumClear (freeMap m) + n + 2.
Proof.
  intros E. pose proof (Deallocate_effect fuel m) as H. rewrite E in H.
  destruct H as (_ & m1 & b1 & L & _ & N1 & _ & N2).
  pose proof (Deallocate_loop_effect fuel 0 m) as H1. rewrite L in H1.
  destruct H1 as (_ & N0). rewrite Z.sub_0_r in N0. cbv zeta.
  destruct (negb _ && _) in N1; destruct (negb _ && _) in N2; lia.
Qed.

End Release.

(** ** Files right after their allocation *)

Section AllocatedFiles.

Context {K : Constants}.
Hypothesis SectorSize_pos : 0 < SectorSize.
Hypothesis NumDirect_pos : 0 < NumDirect.
Hypothesis NumIndirect_pos : 0 < NumIndirect.

Lemma sector_of_offset s o :
  0 <= o < s -> 0 <= o / SectorSize < sectorsFor s.
Proof.
  intros Ho.
  pose proof (sectorsFor_spec SectorSize_pos s ltac:(lia)) as HT.
  split; [apply Z.div_pos; lia|].
  apply Z.div_lt_upper_bound; [assumption|]. nia.
Qed.

(** X9.  [ByteToSector] on a file just allocated (a size of at most
    [maxCapacity], a map that holds the sectors needed): every offset within
    the file translates to a sector that was free before the allocation and
    is marked after it, and two offsets translate to the same sector exactly
    when they lie in the same logical sector. *)
Theorem ByteToSector_allocated s b0 d fuel :
  s <= maxCapacity ->
  sectorsNeeded s <= Bitmap.NumClear b0 ->
  (Z.to_nat (Z.max NumDirect NumIndirect) + 2 <= fuel)%nat ->
  exists m',
    Allocate fuel s (zeroed b0 d) = Ret true m' /\
    (forall o, 0 <= o < s ->
       exists p m'', ByteToSector o m' = Ret p m'' /\
                     Bitmap.Test p b0 = false /\
                     Bitmap.Test p (freeMap m') = true) /\
    (forall o1 o2 p1 p2 m1 m2,
       0 <= o1 < s -> 0 <= o2 < s ->
       ByteToSector o1 m' = Ret p1 m1 -> ByteToSector o2 m' = Ret p2 m2 ->
       (p1 = p2 <-> o1 / SectorSize = o2 / SectorSize)).
Proof.
  intros Hcap Hbudget Hfuel.
  destruct (Allocate_layout SectorSize_pos NumDirect_pos NumIndirect_pos
              s b0 d fuel Hcap Hbudget Hfuel) as (m' & E & Hst & Hfm).
  exists m'. split; [exact E|].
  assert (G : forall o, 0 <= o < s ->
            exists dk, ByteToSector o m' =
                       Ret (drawn b0 (drawIndex (o / SectorSize)))
                           (mkMachine (this m') (freeMap m') dk)).
  { intros o Ho. rewrite ByteToSector_GetPhysicSector by lia.
    destruct (GetPhysicSector_store SectorSize_pos NumDirect_pos NumIndirect_pos
                b0 s m' (o / SectorSize) Hst Hcap Hbudget (sector_of_offset s o Ho))
      as (dk & G & _).
    now exists dk. }
  assert (B : forall o, 0 <= o < s ->
            0 <= drawIndex (o / SectorSize) < sectorsNeeded s).
  { intros o Ho. pose proof (sector_of_offset s o Ho) as Hi.
    pose proof (drawIndex_needed NumIndirect_pos (sectorsFor s) _ Hi).
    pose proof (drawIndex_nonneg NumIndirect_pos _ (proj1 Hi)).
    unfold sectorsNeeded. lia. }
  split.
  - intros o Ho. destruct (G o Ho) as (dk & Eo). specialize (B o Ho).
    eexists _, _. split; [exact Eo|]. split.
    + apply drawn_clear_before. lia.
    + rewrite Hfm. apply drawn_marked; lia.
  - intros o1 o2 p1 p2 m1 m2 H1 H2 E1 E2.
    destruct (G o1 H1) as (d1 & G1). destruct (G o2 H2) as (d2 & G2).
    rewrite G1 in E1. rewrite G2 in E2. injection E1 as <- _. injection E2 as <- _.
    split; [|now intros ->].
    intros Ep. destruct (Z.eq_dec (o1 / SectorSize) (o2 / SectorSize)) as [|Hne]; [assumption|].
    exfalso. revert Ep.
    apply (drawIndex_inj_drawn NumIndirect_pos b0 (sectorsFor s));
      [exact Hbudget | now apply sector_of_offset | now apply sector_of_offset | exact Hne].
Qed.

Lemma drawIndex_not_index i :
  0 <= i -> drawIndex i <> NumDirect /\ drawIndex i <> doublePos.
Proof.
  intros Hi. unfold drawIndex, doublePos.
  destruct (Z.ltb_spec i NumDirect); [lia|].
  destruct (Z.ltb_spec i (NumDirect + NumIndirect)); [lia|].
  destruct (split_index NumIndirect_pos i ltac:(lia)) as (k & j & _ & Hk & _ & -> & _). lia.
Qed.

(** The header of a file right after its allocation. *)
Lemma allocated_header b0 s m :
  sectorsNeeded s <= Bitmap.NumClear b0 ->
  allocated_layout b0 s m ->
  numBytes (this m) = s /\ numSectors (this m) = sectorsFor s /\
  length (dataSectors (this m)) = Z.to_nat NumDirect /\
  (singleIndirectSector (this m) <> -1 <-> NumDirect < sectorsFor s) /\
  (NumDirect < sectorsFor s -> singleIndirectSector (this m) = drawn b0 NumDirect) /\
  (doubleIndirectSector (this m) <> -1 <-> NumDirect + NumIndirect < sectorsFor s) /\
  (NumDirect + NumIndirect < sectorsFor s -> doubleIndirectSector (this m) = drawn b0 doublePos).
Proof.
  intros Hbudget ((Hh & _) & _). cbv zeta in Hh. rewrite Hh.
  cbn [numBytes numSectors dataSectors singleIndirectSector doubleIndirectSector].
  pose proof (indexBlocks_bounds NumDirect_pos NumIndirect_pos (sectorsFor s))
    as (HI0 & HI1 & HI2).
  pose proof (sectorsFor_nonneg SectorSize_pos s) as HT0.
  unfold sectorsNeeded in Hbudget.
  split; [reflexivity|]. split; [reflexivity|]. split; [apply tabf_length|].
  destruct (Z.leb_spec (sectorsFor s) NumDirect) as [H1|H1];
    destruct (Z.leb_spec (sectorsFor s) (NumDirect + NumIndirect)) as [H2|H2];
    try lia.
  - specialize (HI1 H1).
    assert (B1 : 0 <= NumDirect < Bitmap.NumClear b0) by lia.
    pose proof (drawn_nonneg b0 _ B1). lia.
  - specialize (HI1 H1). destruct (HI2 H2) as (B & _).
    assert (B1 : 0 <= NumDirect < Bitmap.NumClear b0) by lia.
    assert (B2 : 0 <= doublePos < Bitmap.NumClear b0) by (unfold doublePos in *; lia).
    pose proof (drawn_nonneg b0 _ B1). pose proof (drawn_nonneg b0 _ B2). lia.
Qed.

(** The sectors [Deallocate] releases from a file right after its
    allocation are, as draws from the map: those of the logical sectors and
    of the two index blocks the header points to. *)
Lemma released_iff b0 s m y :
  s <= maxCapacity ->
  sectorsNeeded s <= Bitmap.NumClear b0 ->
  allocated_layout b0 s m ->
  (released m y <->
   (exists i, 0 <= i < sectorsFor s /\ y = drawn b0 (drawIndex i)) \/
   (NumDirect < sectorsFor s /\ y = drawn b0 NumDirect) \/
   (NumDirect + NumIndirect < sectorsFor s /\ y = drawn b0 doublePos)).
Proof.
  intros Hcap Hbudget Hl. split.
  - apply (released_layout SectorSize_pos NumDirect_pos NumIndirect_pos); assumption.
  - destruct (allocated_header b0 s m Hbudget Hl) as (_ & Hn & _ & S1 & S2 & D1 & D2).
    destruct Hl as (Hst & _).
    intros [(i & Hi & ->)|[(A & ->)|(A & ->)]].
    + left.
      destruct (GetPhysicSector_store SectorSize_pos NumDirect_pos NumIndirect_pos
                  b0 s m i Hst Hcap Hbudget Hi) as (dk & G & _).
      exists i. eexists. split; [lia | exact G].
    + right. left. split; [now apply S1 | now rewrite S2].
    + right. right. split; [now apply D1 | now rewrite D2].
Qed.

(** The draws of a file without secondary blocks are the sectors
    [Deallocate] releases. *)
Lemma draws_released T t :
  T <= NumDirect + NumIndirect ->
  0 <= t < T + indexBlocks T ->
  (exists i, 0 <= i < T /\ t = drawIndex i) \/ (NumDirect < T /\ t = NumDirect).
Proof.
  intros HT Ht. unfold indexBlocks in Ht.
  destruct (Z.leb_spec T NumDirect) as [H1|H1].
  - left. exists t. unfold drawIndex. zbool. split; [lia | reflexivity].
  - revert Ht. zbool. intros Ht.
    destruct (Z.lt_trichotomy t NumDirect) as [L|[L|L]].
    + left. exists t. unfold drawIndex. zbool. split; [lia | reflexivity].
    + right. now split.
    + left. exists (t - 1). unfold drawIndex. zbool. split; lia.
Qed.

Lemma Deallocate_length fuel m m' :
  Deallocate fuel m = Ret tt m' -> length (freeMap m') = length (freeMap m).
Proof.
  intros E. pose proof (Deallocate_effect fuel m) as H. rewrite E in H.
  destruct H as ((_ & _ & H) & _). exact H.
Qed.

(** X10.  Allocation followed by deallocation, on the map.  For a file
    without secondary blocks (at most [NumDirect + NumIndirect] sectors) the
    map is back to what it was before the allocation, bit for bit.  For a
    larger file the free count ends below its value before the allocation
    by the number of secondary indirect blocks, which [Deallocate] leaves
    marked. *)
Theorem Allocate_Deallocate_map s b0 d fuel fuel' :
  s <= maxCapacity ->
  sectorsNeeded s <= Bitmap.NumClear b0 ->
  (Z.to_nat (Z.max NumDirect NumIndirect) + 2 <= fuel)%nat ->
  (Z.to_nat (sectorsFor s) + 1 <= fuel')%nat ->
  exists m1 m2,
    Allocate fuel s (zeroed b0 d) = Ret true m1 /\
    Deallocate fuel' m1 = Ret tt m2 /\
    (sectorsFor s <= NumDirect + NumIndirect -> freeMap m2 = b0) /\
    (NumDirect + NumIndirect < sectorsFor s ->
     Bitmap.NumClear (freeMap m2) =
     Bitmap.NumClear b0 - secondaryBlocks (sectorsFor s)).
Proof.
  intros Hcap Hbudget Hfuel Hfuel'.
  destruct (Allocate_layout SectorSize_pos NumDirect_pos NumIndirect_pos
              s b0 d fuel Hcap Hbudget Hfuel) as (m1 & E1 & Hl).
  destruct (Deallocate_layout SectorSize_pos NumDirect_pos NumIndirect_pos
              b0 s m1 fuel' Hcap Hbudget Hl Hfuel') as (m2 & E2).
  destruct (Deallocate_exact fuel' m1 m2 E2) as (_ & Hex).
  pose proof (sectorsFor_nonneg SectorSize_pos s) as HT0.
  pose proof (indexBlocks_bounds NumDirect_pos NumIndirect_pos (sectorsFor s))
    as (HI0 & HI1 & HI2).
  pose proof (allocated_header b0 s m1 Hbudget Hl) as (_ & Hn & _ & S1 & S2 & D1 & D2).
  pose proof Hl as (Hst & Hfm).
  assert (Hneeded : 0 <= sectorsNeeded s <= Bitmap.NumClear b0)
    by (unfold sectorsNeeded in *; lia).
  exists m1, m2. split; [exact E1|]. split; [exact E2|]. split.
  - (* the map is restored *)
    intros Hsmall. apply Test_ext.
    { rewrite (Deallocate_length _ _ _ E2), Hfm. apply after_length. }
    intros y.
    destruct (Bitmap.Test y b0) eqn:Hy.
    + apply Hex. split.
      * rewrite Hfm. apply (after_Test b0 _ y Hneeded). now left.
      * intros Hr. apply (released_iff b0 s m1 y Hcap Hbudget Hl) in Hr.
        assert (Hd : forall t, 0 <= t < sectorsNeeded s -> y <> drawn b0 t).
        { intros t Ht ->. rewrite drawn_clear_before in Hy by lia. discriminate. }
        unfold sectorsNeeded in Hd.
        destruct Hr as [(i & Hi & Ei)|[(A & Ei)|(A & Ei)]]; revert Ei; apply Hd.
        -- pose proof (drawIndex_needed NumIndirect_pos (sectorsFor s) i Hi).
           pose proof (drawIndex_nonneg NumIndirect_pos i (proj1 Hi)). lia.
        -- specialize (HI1 A). lia.
        -- lia.
    + destruct (Bitmap.Test y (freeMap m2)) eqn:Hy2; [|reflexivity].
      apply Hex in Hy2. destruct Hy2 as (Hm & Hnr). exfalso. apply Hnr.
      rewrite Hfm in Hm. apply (after_Test b0 _ y Hneeded) in Hm.
      destruct Hm as [Hm|(t & Ht & ->)]; [congruence|].
      apply (released_iff b0 s m1 _ Hcap Hbudget Hl).
      unfold sectorsNeeded in Ht.
      destruct (draws_released (sectorsFor s) t Hsmall Ht) as [(i & Hi & ->)|(A & ->)].
      * left. now exists i.
      * right. left. now split.
  - (* the secondary blocks are lost *)
    intros Hbig. destruct (HI2 Hbig) as (B1 & B2 & B3 & B4).
    assert (Hbig1 : NumDirect < sectorsFor s) by lia.
    pose proof (Deallocate_effect fuel' m1) as H. rewrite E2 in H.
    destruct H as (_ & ml & b1 & L & _ & N1 & T1 & N2).
    pose proof (Deallocate_loop_effect fuel' 0 m1) as H1. rewrite L in H1.
    destruct H1 as (_ & N0). rewrite Z.sub_0_r, Hn, Z.max_r in N0 by lia.
    destruct (Deallocate_loop_store SectorSize_pos NumDirect_pos NumIndirect_pos
                b0 s Hcap Hbudget _ 0 m1 fuel' Hst ltac:(lia) eq_refl) as (ml' & L' & F1 & _ & F3).
    { intros j Hj. rewrite Hfm. apply drawn_marked.
      - pose proof (drawIndex_needed NumIndirect_pos (sectorsFor s) j Hj).
        pose proof (drawIndex_nonneg NumIndirect_pos j (proj1 Hj)). unfold sectorsNeeded. lia.
      - pose proof (drawIndex_needed NumIndirect_pos (sectorsFor s) j Hj).
        unfold sectorsNeeded in *. lia. }
    { lia. }
    rewrite L in L'. injection L' as <-.
    assert (Hmk : forall t, 0 <= t < sectorsNeeded s ->
                            Bitmap.Test (drawn b0 t) (freeMap m1) = true).
    { intros t Ht. rewrite Hfm. apply drawn_marked; lia. }
    assert (Hkeep : forall t, 0 <= t < sectorsNeeded s ->
              t = NumDirect \/ t = doublePos ->
              Bitmap.Test (drawn b0 t) (freeMap ml) = true).
    { intros t Ht Hidx. apply F3. split; [now apply Hmk|].
      intros j Hj Ej. apply drawn_inj in Ej; [| lia |].
      - destruct (drawIndex_not_index j (proj1 Hj)). lia.
      - pose proof (drawIndex_needed NumIndirect_pos (sectorsFor s) j Hj).
        pose proof (drawIndex_nonneg NumIndirect_pos j (proj1 Hj)).
        unfold sectorsNeeded in *. lia. }
    unfold sectorsNeeded in *.
    assert (HS : Bitmap.Test (singleIndirectSector (this ml)) (freeMap ml) = true).
    { rewrite F1, S2 by assumption. apply Hkeep; [lia | now left]. }
    assert (HS1 : singleIndirectSector (this ml) <> -1) by (rewrite F1; now apply S1).
    assert (HD1 : doubleIndirectSector (this ml) <> -1) by (rewrite F1; now apply D1).
    assert (HD : Bitmap.Test (doubleIndirectSector (this ml)) b1 = true).
    { rewrite T1. rewrite F1, D2 by assumption.
      rewrite Hkeep by (unfold doublePos in *; lia || now right). cbn [andb].
      apply negb_true_iff, andb_false_iff. left. apply Z.eqb_neq.
      rewrite S2 by assumption. intros Ej.
      apply drawn_inj in Ej; unfold doublePos in *; lia. }
    revert N2 N1. rewrite HD, HS.
    replace (singleIndirectSector (this ml) =? -1) with false by (symmetry; now apply Z.eqb_neq).
    replace (doubleIndirectSector (this ml) =? -1) with false by (symmetry; now apply Z.eqb_neq).
    cbn [negb andb]. intros N2 N1.
    rewrite N2, N1, N0, Hfm, after_NumClear by lia. lia.
Qed.

(** X11.  A file deallocated twice.  [Deallocate] leaves the header as it
    is, so a second [Deallocate] of a file of at least one byte finds the
    sector of its first logical sector unmarked and stops on the assertion,
    the map untouched. *)
Theorem Deallocate_twice s b0 d fuel fuel' :
  0 < s -> s <= maxCapacity ->
  sectorsNeeded s <= Bitmap.NumClear b0 ->
  (Z.to_nat (Z.max NumDirect NumIndirect) + 2 <= fuel)%nat ->
  (Z.to_nat (sectorsFor s) + 1 <= fuel')%nat ->
  exists m1 m2 m3,
    Allocate fuel s (zeroed b0 d) = Ret true m1 /\
    Deallocate fuel' m1 = Ret tt m2 /\
    Deallocate fuel' m2 = Fault AssertionFailed m3 /\
    this m3 = this m2 /\ freeMap m3 = freeMap m2.
Proof.
  intros Hs Hcap Hbudget Hfuel Hfuel'.
  destruct (Allocate_layout SectorSize_pos NumDirect_pos NumIndirect_pos
              s b0 d fuel Hcap Hbudget Hfuel) as (m1 & E1 & Hl).
  destruct (Deallocate_layout SectorSize_pos NumDirect_pos NumIndirect_pos
              b0 s m1 fuel' Hcap Hbudget Hl Hfuel') as (m2 & E2).
  destruct (Deallocate_exact fuel' m1 m2 E2) as ((Fh & Fs) & Hex).
  pose proof (sectorsFor_pos SectorSize_pos s Hs) as HT1.
  pose proof (allocated_header b0 s m1 Hbudget Hl) as (_ & Hn & _).
  pose proof Hl as (Hst & _).
  assert (Hst2 : allocated_store b0 s (this m2) (sectors (synchDisk m2)))
    by (rewrite Fh, Fs; exact Hst).
  assert (H0 : 0 <= 0 < sectorsFor s) by lia.
  destruct (GetPhysicSector_store SectorSize_pos NumDirect_pos NumIndirect_pos
              b0 s m2 0 Hst2 Hcap Hbudget H0) as (dk & G & _).
  assert (Hp : Bitmap.Test (drawn b0 (drawIndex 0)) (freeMap m2) = false).
  { destruct (Bitmap.Test _ (freeMap m2)) eqn:Hp; [|reflexivity].
    apply Hex in Hp. destruct Hp as (_ & Hnr). exfalso. apply Hnr.
    apply (released_iff b0 s m1 _ Hcap Hbudget Hl). left. now exists 0. }
  exists m1, m2. eexists. split; [exact E1|]. split; [exact E2|].
  destruct fuel' as [|f]; [lia|].
  split.
  - rewrite Deallocate_unfold. unfold bind at 1.
    cbn [Deallocate_loop]. unfold bind at 1. hsimpl. rewrite Fh, Hn. zbool.
    unfold bind at 1. rewrite G. unfold bind at 1. hsimpl.
    unfold bind at 1. unfold ASSERT. rewrite Hp. unfold stop. reflexivity.
  - split; reflexivity.
Qed.

(** X12.  Requests that fit the direct pointers, on any map.  [Allocate] on
    a new header returns [TRUE] whatever the map holds; the disk is not
    accessed; the header has the size asked for and the sectors it takes;
    the free count has gone down by that number or to zero; and the logical
    sectors past the free count of the map translate to the sentinel [-1],
    the value of a failed draw. *)
Theorem Allocate_direct_any_map s b d fuel :
  s <= NumDirect * SectorSize ->
  (Z.to_nat NumDirect + 2 <= fuel)%nat ->
  exists m',
    Allocate fuel s (zeroed b d) = Ret true m' /\
    synchDisk m' = d /\
    numBytes (this m') = s /\
    numSectors (this m') = sectorsFor s /\
    Bitmap.NumClear (freeMap m') = Z.max 0 (Bitmap.NumClear b - sectorsFor s) /\
    (forall i, 0 <= i < sectorsFor s -> Bitmap.NumClear b <= i ->
               GetPhysicSector i m' = Ret (-1) m').
Proof.
  intros Hs Hfuel.
  pose proof (NumClear_nonneg b) as Hnn.
  pose proof (sectorsFor_nonneg SectorSize_pos s) as HT0.
  unfold Allocate, zeroed.
  unfold bind at 1. hsimpl. unfold bind at 1. hsimpl.
  replace (numSectors FileHeader_new) with 0 by reflexivity. zbool.
  destruct (Z.le_gt_cases s 0) as [Hneg|Hpos].
  - destruct fuel as [|fuel]; [lia|].
    unfold bind at 1. cbn [AllocateDirectBlocks]. unfold bind at 1.
    rewrite (FileHeader_new_tabf (drawn b)). hsimpl.
    assert (0 < NumDirect * SectorSize) by nia.
    zbool. hsimpl. zbool.
    eexists. split; [reflexivity|]. cbn [this freeMap synchDisk numBytes numSectors].
    rewrite sectorsFor_nonpos by assumption.
    repeat split; try lia.
  - pose proof (sectorsFor_spec SectorSize_pos s Hpos) as HT.
    set (T := sectorsFor s) in *.
    assert (HTd : T <= NumDirect) by nia.
    unfold bind at 1.
    rewrite (AllocateDirectBlocks_zeroed SectorSize_pos NumDirect_pos b s T d fuel HT) by lia.
    rewrite Z.min_l by lia. zbool. hsimpl.
    eexists. split; [reflexivity|]. cbn [this freeMap synchDisk numBytes numSectors].
    split; [reflexivity|]. split; [reflexivity|]. split; [reflexivity|].
    split; [apply after_NumClear_max; lia|].
    intros i Hi Hfree.
    unfold GetPhysicSector. unfold bind at 1. hsimpl. zbool.
    rewrite load_tabf_run by lia. zbool. now rewrite drawn_exhausted by lia.
Qed.

(** [Allocate] writes the index blocks it creates and no other sector. *)
Lemma Allocate_untouched s b0 d fuel :
  s <= maxCapacity ->
  sectorsNeeded s <= Bitmap.NumClear b0 ->
  (Z.to_nat (Z.max NumDirect NumIndirect) + 2 <= fuel)%nat ->
  exists m',
    Allocate fuel s (zeroed b0 d) = Ret true m' /\
    allocated_layout b0 s m' /\
    (sectorsFor s <= NumDirect -> synchDisk m' = d) /\
    forall x,
      (NumDirect < sectorsFor s -> x <> drawn b0 NumDirect) ->
      (NumDirect + NumIndirect < sectorsFor s ->
       x <> drawn b0 doublePos /\
       forall k, 0 <= k < secondaryBlocks (sectorsFor s) -> x <> drawn b0 (secondaryPos k)) ->
      sectors (synchDisk m') x = sectors d x.
Proof.
  intros Hcap Hbudget Hfuel.
  destruct (Allocate_layout SectorSize_pos NumDirect_pos NumIndirect_pos
              s b0 d fuel Hcap Hbudget Hfuel) as (m' & E & Hl).
  exists m'. split; [exact E|]. split; [exact Hl|].
  pose proof (NumClear_nonneg b0) as Hnn.
  pose proof (sectorsFor_nonneg SectorSize_pos s) as HT0.
  destruct (Z.le_gt_cases s 0) as [Hs|Hs].
  { (* nothing to allocate *)
    assert (Em : m' = mkMachine (mkFileHeader s 0 (tabf (drawn b0) 0 NumDirect) (-1) (-1) (-1))
                                b0 d).
    { revert E. unfold Allocate, zeroed.
      unfold bind at 1. hsimpl. unfold bind at 1. hsimpl.
      replace (numSectors FileHeader_new) with 0 by reflexivity. zbool.
      destruct fuel as [|fuel]; [lia|].
      unfold bind at 1. cbn [AllocateDirectBlocks]. unfold bind at 1.
      rewrite (FileHeader_new_tabf (drawn b0)). hsimpl.
      assert (0 < NumDirect * SectorSize) by nia.
      zbool. hsimpl. zbool. intros E. now injection E as <-. }
    subst m'. cbn [synchDisk]. split; reflexivity. }
  pose proof (sectorsFor_spec SectorSize_pos s Hs) as HT.
  pose proof (sectorsFor_le_max SectorSize_pos NumDirect_pos NumIndirect_pos s Hcap) as HTmax.
  unfold sectorsNeeded in Hbudget.
  set (T := sectorsFor s) in *.
  destruct (Z.le_gt_cases T NumDirect) as [Hd|Hd].
  { assert (Em : synchDisk m' = d).
    { revert E. unfold Allocate, zeroed.
      unfold bind at 1. hsimpl. unfold bind at 1. hsimpl.
      replace (numSectors FileHeader_new) with 0 by reflexivity. zbool.
      unfold bind at 1.
      rewrite (AllocateDirectBlocks_zeroed SectorSize_pos NumDirect_pos b0 s T d fuel HT) by lia.
      rewrite (size_test SectorSize_pos s T NumDirect HT). zbool.
      intros E. now injection E as <-. }
    split; [intros _; exact Em|]. intros x _ _. now rewrite Em. }
  split; [intros; lia|].
  pose proof (Allocate_prefix SectorSize_pos NumDirect_pos NumIndirect_pos
                b0 s T d fuel HT Hd Hfuel) as P.
  cbv zeta in P. rewrite P in E. clear P.
  match type of E with
  | context [Disk_write (snd ?a) ?b ?c] => set (d1 := Disk_write (snd a) b c) in E
  end.
  assert (D1 : forall x, x <> drawn b0 NumDirect -> sectors d1 x = sectors d x).
  { intros x Hx. unfold d1. rewrite Disk_write_other by assumption.
    cbn [Disk_read snd sectors]. now rewrite Disk_write_other by assumption. }
  clearbody d1.
  destruct (Z.leb_spec T (NumDirect + NumIndirect)) as [Hle|Hgt].
  { injection E as <-. cbn [synchDisk]. intros x Hx _. apply D1. now apply Hx. }
  unfold indexBlocks in Hbudget. revert Hbudget. zbool. intros Hbudget.
  destruct (AllocateDoubleIndirectBlock_run SectorSize_pos NumDirect_pos NumIndirect_pos
              b0 s T (tabf (drawn b0) NumDirect NumDirect) (drawn b0 NumDirect) (-1) fuel d1
              HT ltac:(lia) ltac:(lia) ltac:(lia))
    as (d' & E' & _ & _ & F3).
  unfold bind at 1 in E. rewrite E' in E. injection E as <-. cbn [synchDisk].
  intros x Hx1 Hx2. destruct (Hx2 Hgt) as (Hx3 & Hx4).
  rewrite F3 by assumption. apply D1. now apply Hx1.
Qed.

(** X13.  What [Allocate] writes.  An allocation from a map that holds the
    sectors needed leaves the contents of every sector that was marked
    before it, and of every data sector it hands out, as they were: only the
    index blocks it creates are written, and a file that fits the direct
    pointers causes no access to the disk at all. *)
Theorem Allocate_disk_footprint s b0 d fuel :
  s <= maxCapacity ->
  sectorsNeeded s <= Bitmap.NumClear b0 ->
  (Z.to_nat (Z.max NumDirect NumIndirect) + 2 <= fuel)%nat ->
  exists m',
    Allocate fuel s (zeroed b0 d) = Ret true m' /\
    (forall x, Bitmap.Test x b0 = true ->
               sectors (synchDisk m') x = sectors d x) /\
    (forall i p m'', 0 <= i < sectorsFor s ->
                     GetPhysicSector i m' = Ret p m'' ->
                     sectors (synchDisk m') p = sectors d p) /\
    (sectorsFor s <= NumDirect -> synchDisk m' = d).
Proof.
  intros Hcap Hbudget Hfuel.
  destruct (Allocate_untouched s b0 d fuel Hcap Hbudget Hfuel) as (m' & E & Hl & Hd & Hx).
  pose proof (indexBlocks_bounds NumDirect_pos NumIndirect_pos (sectorsFor s))
    as (HI0 & HI1 & HI2).
  pose proof (sectorsFor_nonneg SectorSize_pos s) as HT0.
  exists m'. split; [exact E|]. split; [|split; [|exact Hd]].
  - intros x Hm. unfold sectorsNeeded in Hbudget.
    assert (Hnd : forall t, 0 <= t < Bitmap.NumClear b0 -> x <> drawn b0 t).
    { intros t Ht ->. rewrite drawn_clear_before in Hm by assumption. discriminate. }
    apply Hx.
    + intros A. specialize (HI1 A). apply Hnd. lia.
    + intros A. destruct (HI2 A) as (B1 & _ & _ & B4). split.
      * apply Hnd. unfold doublePos in *. lia.
      * intros k Hk. specialize (B4 k Hk). apply Hnd. unfold secondaryPos in *. nia.
  - intros i p m'' Hi G.
    destruct Hl as (Hst & _).
    destruct (GetPhysicSector_store SectorSize_pos NumDirect_pos NumIndirect_pos
                b0 s m' i Hst Hcap Hbudget Hi) as (dk & G' & _).
    rewrite G' in G. injection G as <- _.
    pose proof (drawIndex_needed NumIndirect_pos (sectorsFor s) i Hi) as Hn.
    pose proof (drawIndex_nonneg NumIndirect_pos i (proj1 Hi)) as Hn0.
    destruct (drawIndex_not_index i (proj1 Hi)) as (N1 & N2).
    unfold sectorsNeeded in Hbudget.
    apply Hx.
    + intros A. specialize (HI1 A). intros Ej. apply drawn_inj in Ej; lia.
    + intros A. destruct (HI2 A) as (B1 & _ & _ & B4). split.
      * intros Ej. apply drawn_inj in Ej; unfold doublePos in *; lia.
      * intros k Hk. specialize (B4 k Hk). intros Ej.
        apply drawn_inj in Ej; [| lia | unfold secondaryPos in *; nia].
        symmetry in Ej. revert Ej.
        apply (secondaryPos_not_data NumDirect_pos NumIndirect_pos); lia.
Qed.

(** X14.  A file created, stored and opened again.  The header of a file
    just allocated, written back to a sector that was in use before the
    allocation (the sector drawn for the header) and fetched from it into
    any header object, is the header that was allocated; every logical
    sector translates as it did; and [Deallocate] on the fetched header
    returns, having released what [Deallocate] on the original would
    have. *)
Theorem Allocate_WriteBack_FetchFrom s b0 d fuel fuel' (sector : Z) h0 :
  s <= maxCapacity ->
  sectorsNeeded s <= Bitmap.NumClear b0 ->
  (Z.to_nat (Z.max NumDirect NumIndirect) + 2 <= fuel)%nat ->
  (Z.to_nat (sectorsFor s) + 1 <= fuel')%nat ->
  Bitmap.Test sector b0 = true ->
  exists m1 m2 m3 m4,
    Allocate fuel s (zeroed b0 d) = Ret true m1 /\
    WriteBack sector m1 = Ret tt m2 /\
    FetchFrom sector (mkMachine h0 (freeMap m2) (synchDisk m2)) = Ret tt m3 /\
    this m3 = this m1 /\
    (forall i, 0 <= i < sectorsFor s ->
       exists p ma mb, GetPhysicSector i m1 = Ret p ma /\ GetPhysicSector i m3 = Ret p mb) /\
    Deallocate fuel' m3 = Ret tt m4 /\
    (forall y, Bitmap.Test y (freeMap m4) = true <->
               (Bitmap.Test y (freeMap m1) = true /\ ~ released m1 y)).
Proof.
  intros Hcap Hbudget Hfuel Hfuel' Hsec.
  destruct (Allocate_layout SectorSize_pos NumDirect_pos NumIndirect_pos
              s b0 d fuel Hcap Hbudget Hfuel) as (m1 & E1 & Hl).
  pose proof (allocated_header b0 s m1 Hbudget Hl) as (_ & _ & Hlen & _).
  pose proof (indexBlocks_bounds NumDirect_pos NumIndirect_pos (sectorsFor s))
    as (HI0 & HI1 & HI2).
  pose proof (sectorsFor_nonneg SectorSize_pos s) as HT0.
  assert (Hnd : forall t, 0 <= t < Bitmap.NumClear b0 -> drawn b0 t <> sector).
  { intros t Ht Et. rewrite <- Et, drawn_clear_before in Hsec by assumption. discriminate. }
  set (m2 := mkMachine (this m1) (freeMap m1)
                       (Disk_write (synchDisk m1) sector (FileHeader_image (this m1)))).
  set (m3 := mkMachine (this m1) (freeMap m1)
                       (snd (Disk_read (synchDisk m2) sector))).
  assert (Hl3 : allocated_layout b0 s m3).
  { destruct Hl as ((Hh & S1 & S2) & Hfm). unfold sectorsNeeded in Hbudget.
    split; [|exact Hfm]. cbn [m3 m2 this synchDisk Disk_read snd sectors Disk_write].
    split; [exact Hh|]. split.
    - intros A. specialize (HI1 A).
      replace (drawn b0 NumDirect =? sector) with false
        by (symmetry; apply Z.eqb_neq, Hnd; lia).
      now apply S1.
    - intros A. destruct (HI2 A) as (B1 & _ & _ & B4). destruct (S2 A) as (S3 & S4). split.
      + replace (drawn b0 doublePos =? sector) with false
          by (symmetry; apply Z.eqb_neq, Hnd; unfold doublePos in *; lia).
        exact S3.
      + intros k Hk. specialize (B4 k Hk).
        replace (drawn b0 (secondaryPos k) =? sector) with false
          by (symmetry; apply Z.eqb_neq, Hnd; unfold secondaryPos in *; nia).
        now apply S4. }
  destruct (Deallocate_layout SectorSize_pos NumDirect_pos NumIndirect_pos
              b0 s m3 fuel' Hcap Hbudget Hl3 Hfuel') as (m4 & E4).
  destruct (Deallocate_exact fuel' m3 m4 E4) as (_ & Hex).
  exists m1, m2, m3, m4.
  split; [exact E1|]. split; [reflexivity|]. split.
  { unfold FetchFrom. unfold bind at 1. unfold ReadSector.
    cbn [this freeMap synchDisk m2 Disk_read]. rewrite Disk_write_same.
    hsimpl. rewrite FileHeader_image_inv by exact Hlen. reflexivity. }
  split; [reflexivity|]. split.
  { intros i Hi.
    destruct Hl as (Hst & _). destruct Hl3 as (Hst3 & _).
    destruct (GetPhysicSector_store SectorSize_pos NumDirect_pos NumIndirect_pos
                b0 s m1 i Hst Hcap Hbudget Hi) as (da & Ga & _).
    destruct (GetPhysicSector_store SectorSize_pos NumDirect_pos NumIndirect_pos
                b0 s m3 i Hst3 Hcap Hbudget Hi) as (db & Gb & _).
    eexists _, _, _. split; [exact Ga | exact Gb]. }
  split; [exact E4|].
  intros y. rewrite Hex. cbn [m3 freeMap].
  pose proof (released_iff b0 s m1 y Hcap Hbudget Hl) as R1.
  pose proof (released_iff b0 s m3 y Hcap Hbudget Hl3) as R3.
  tauto.
Qed.

(** ** Arithmetic of sectors and blocks *)

Lemma firstLogical_0 : firstLogical 0 = NumDirect + NumIndirect.
Proof. unfold firstLogical. ring. Qed.

Lemma firstLogical_succ k : firstLogical (k + 1) = firstLogical k + NumIndirect.
Proof. unfold firstLogical. ring. Qed.

Lemma secondaryPos_firstLogical k : secondaryPos k = firstLogical k + 2 + k.
Proof. unfold secondaryPos, firstLogical. ring. Qed.

Lemma maxSectors_firstLogical : maxSectors = firstLogical (NumIndirect - 1) + NumIndirect.
Proof. unfold maxSectors, firstLogical. ring. Qed.

Lemma firstLogical_lt k k' : k < k' -> firstLogical k < firstLogical k'.
Proof. clear - NumIndirect_pos. intros H. unfold firstLogical. nia. Qed.

Lemma firstLogical_lower k : 0 <= k -> NumDirect + NumIndirect <= firstLogical k.
Proof. clear - NumIndirect_pos. intros H. unfold firstLogical. nia. Qed.

(** Whole sectors against the bytes of a file of [T] sectors. *)
Lemma bytes_sectors s T N :
  (T - 1) * SectorSize < s <= T * SectorSize ->
  (N * SectorSize < s <-> N < T) /\
  (s <= N * SectorSize <-> T <= N) /\
  (N * SectorSize <= s -> N <= T).
Proof. clear - SectorSize_pos. intros H. repeat split; intros; nia. Qed.

(** The secondary blocks of a file of [T] sectors, [Kn] of them. *)
Lemma blocks_index T Kn k :
  (Kn - 1) * NumIndirect < T - NumDirect - NumIndirect <= Kn * NumIndirect ->
  (firstLogical k < T <-> k < Kn) /\
  (T <= firstLogical k + NumIndirect <-> Kn <= k + 1).
Proof.
  clear - NumIndirect_pos. intros H. unfold firstLogical. repeat split; intros; nia.
Qed.

(** ** Allocation on a header that already has sectors *)

Lemma sectorsFor_mono s1 s2 : s1 <= s2 -> sectorsFor s1 <= sectorsFor s2.
Proof.
  intros H. destruct (Z.le_gt_cases s1 0) as [H1|H1].
  - rewrite (sectorsFor_nonpos s1) by assumption. apply (sectorsFor_nonneg SectorSize_pos).
  - pose proof (sectorsFor_spec SectorSize_pos s1 H1).
    pose proof (sectorsFor_spec SectorSize_pos s2 ltac:(lia)). nia.
Qed.

(** The machine right after an allocation, spelled out. *)
Lemma allocated_machine b0 s m :
  allocated_layout b0 s m ->
  m = mkMachine
        (mkFileHeader s (sectorsFor s)
           (tabf (drawn b0) (Z.min (sectorsFor s) NumDirect) NumDirect)
           (if sectorsFor s <=? NumDirect then -1 else drawn b0 NumDirect)
           (if sectorsFor s <=? NumDirect + NumIndirect then -1 else drawn b0 doublePos)
           (-1))
        (after b0 (sectorsNeeded s)) (synchDisk m).
Proof.
  intros ((Hh & _) & Hfm). cbv zeta in Hh. destruct m as [h b d].
  cbn [this freeMap synchDisk] in *. now subst.
Qed.

(** [Allocate] past its admission test is decided by the outcome of the
    direct phase. *)
Lemma Allocate_same_direct fuel s m m' md :
  numSectors (this m) <= Bitmap.NumClear (freeMap m) ->
  numSectors (this m') <= Bitmap.NumClear (freeMap m') ->
  AllocateDirectBlocks fuel s m = Ret tt md ->
  AllocateDirectBlocks fuel s m' = Ret tt md ->
  Allocate fuel s m = Allocate fuel s m'.
Proof.
  intros A A' E E'. unfold Allocate.
  unfold bind at 1. hsimpl. unfold bind at 1. hsimpl. zbool. unfold bind at 1. rewrite E.
  symmetry.
  unfold bind at 1. hsimpl. unfold bind at 1. hsimpl. zbool. unfold bind at 1. rewrite E'.
  reflexivity.
Qed.

(** A header with direct sectors only grows as a new header would. *)
Lemma Allocate_grow_direct b0 s1 s2 m1 fuel :
  0 <= s1 <= s2 ->
  sectorsFor s1 <= NumDirect ->
  sectorsFor s1 <= Bitmap.NumClear b0 - sectorsNeeded s1 ->
  allocated_layout b0 s1 m1 ->
  (Z.to_nat NumDirect + 2 <= fuel)%nat ->
  Allocate fuel s2 m1 = Allocate fuel s2 (zeroed b0 (synchDisk m1)).
Proof.
  intros Hs HT1 Hadm Hl Hfuel.
  pose proof (sectorsFor_nonneg SectorSize_pos s1) as HT0.
  pose proof (NumClear_nonneg b0) as Hnn.
  rewrite (allocated_machine b0 s1 m1 Hl) at 1.
  generalize (synchDisk m1). intros d.
  unfold sectorsNeeded, indexBlocks in *. revert Hadm. zbool. rewrite Z.add_0_r.
  intros Hadm. rewrite Z.min_l by lia.
  assert (HT12 : sectorsFor s1 <= sectorsFor s2) by (apply sectorsFor_mono; lia).
  destruct (Z.eq_dec s1 0) as [->|Hs1].
  { rewrite sectorsFor_nonpos by lia. rewrite after_0.
    rewrite <- (FileHeader_new_tabf (drawn b0)). reflexivity. }
  pose proof (sectorsFor_spec SectorSize_pos s1 ltac:(lia)) as HS1.
  pose proof (sectorsFor_spec SectorSize_pos s2 ltac:(lia)) as HS2.
  set (T1 := sectorsFor s1) in *. set (T2 := sectorsFor s2) in *.
  apply Allocate_same_direct
    with (md := mkMachine
                  (mkFileHeader (if T2 <=? NumDirect then s2 else NumDirect * SectorSize)
                                (Z.min T2 NumDirect)
                                (tabf (drawn b0) (Z.min T2 NumDirect) NumDirect) (-1) (-1) (-1))
                  (after b0 (Z.min T2 NumDirect)) d).
  - cbn [this freeMap numSectors]. rewrite after_NumClear by lia. lia.
  - cbn [zeroed this freeMap]. replace (numSectors FileHeader_new) with 0 by reflexivity. lia.
  - destruct (Z.lt_ge_cases s1 (NumDirect * SectorSize)) as [Hlt|Hge].
    + apply (AllocateDirectBlocks_run SectorSize_pos NumDirect_pos
               b0 s2 T2 (-1) (-1) (-1) d HS2 fuel T1 s1); lia.
    + assert (ET : T1 = NumDirect) by nia.
      assert (Es : s1 = NumDirect * SectorSize) by nia.
      destruct fuel as [|fuel]; [lia|].
      cbn [AllocateDirectBlocks]. unfold bind at 1. hsimpl. zbool. rewrite andb_false_r.
      hsimpl. rewrite Z.min_r by lia. rewrite ET.
      destruct (Z.leb_spec T2 NumDirect) as [Hle|Hgt].
      * assert (Es2 : s2 = s1) by nia. now rewrite Es2.
      * now rewrite Es.
  - apply (AllocateDirectBlocks_zeroed SectorSize_pos NumDirect_pos b0 s2 T2 d fuel HS2); lia.
Qed.

(** [Allocate] on a header that has a single-indirect block goes straight
    to the fill of that block. *)
Lemma Allocate_grow_prefix b0 s1 s2 m1 fuel :
  0 <= s1 <= s2 ->
  NumDirect < sectorsFor s1 ->
  sectorsNeeded s1 <= Bitmap.NumClear b0 ->
  sectorsFor s1 <= Bitmap.NumClear b0 - sectorsNeeded s1 ->
  allocated_layout b0 s1 m1 ->
  (1 <= fuel)%nat ->
  Allocate fuel s2 m1 =
  (allocated <- AllocateIndirectSpace fuel s2 (drawn b0 NumDirect) (NumDirect * SectorSize) ;;
   if allocated =? 0 then ret true
   else ASSERT (allocated >? 0) ;; AllocateDoubleIndirectBlock fuel s2 ;; ret true) m1.
Proof.
  intros Hs HT1 Hbudget Hadm Hl Hfuel.
  pose proof (sectorsFor_nonneg SectorSize_pos s1) as HT0.
  pose proof (NumClear_nonneg b0) as Hnn.
  pose proof (allocated_header b0 s1 m1 Hbudget Hl) as (Hnb & Hn & _ & S1 & S2 & _).
  assert (Hs1 : 0 < s1).
  { destruct (Z.eq_dec s1 0) as [->|]; [|lia]. rewrite sectorsFor_nonpos in HT1; lia. }
  pose proof (sectorsFor_spec SectorSize_pos s1 Hs1) as HS1.
  assert (Hfm : Bitmap.NumClear (freeMap m1) = Bitmap.NumClear b0 - sectorsNeeded s1).
  { destruct Hl as (_ & ->). apply after_NumClear.
    pose proof (indexBlocks_bounds NumDirect_pos NumIndirect_pos (sectorsFor s1)) as (HI0 & _).
    unfold sectorsNeeded in *. lia. }
  unfold Allocate. unfold bind at 1. hsimpl. unfold bind at 1. hsimpl.
  rewrite Hfm, Hn. zbool.
  destruct fuel as [|fuel]; [lia|].
  unfold bind at 1. cbn [AllocateDirectBlocks]. unfold bind at 1. hsimpl.
  rewrite Hnb.
  replace (s1 <? NumDirect * SectorSize) with false by (symmetry; apply Z.ltb_ge; nia).
  rewrite andb_false_r. hsimpl.
  replace (s2 <=? NumDirect * SectorSize) with false by (symmetry; apply Z.leb_gt; nia).
  unfold bind at 1. hsimpl. unfold bind at 1. unfold ASSERT. rewrite Hnb.
  replace (s1 >=? NumDirect * SectorSize) with true
    by (symmetry; rewrite Z.geb_leb; apply Z.leb_le; nia).
  hsimpl. unfold bind at 1. unfold CreateSingleIndirectBlock. unfold bind at 1. hsimpl.
  replace (singleIndirectSector (this m1) =? -1) with false
    by (symmetry; apply Z.eqb_neq; now apply S1).
  hsimpl. unfold bind at 1. hsimpl. rewrite S2 by assumption. reflexivity.
Qed.

(** The fill of an indirect block that is on the disk with [c] entries,
    when the file ends inside the range of the block. *)
Lemma AllocateIndirectSpace_fill b0 s T n0 B start sector c nb ds hs hd hh d fuel :
  (T - 1) * SectorSize < s <= T * SectorSize ->
  start = n0 * SectorSize -> 0 <= B ->
  0 <= c <= NumIndirect -> n0 + c <= T ->
  start <= nb < start + NumIndirect * SectorSize ->
  sectors d sector =
    Indirect_image (Indirect.mk c (tabf (fun j => drawn b0 (B + j)) c NumIndirect)) ->
  (Z.to_nat NumIndirect + 2 <= fuel)%nat ->
  AllocateIndirectSpace fuel s sector start
    (mkMachine (mkFileHeader nb (n0 + c) ds hs hd hh) (after b0 (B + c)) d) =
  Ret (if T <=? n0 + NumIndirect then 0 else s - (n0 + NumIndirect) * SectorSize)
    (mkMachine (mkFileHeader (if T <=? n0 + NumIndirect then s
                              else (n0 + NumIndirect) * SectorSize)
                             (n0 + Z.min (T - n0) NumIndirect) ds hs hd hh)
               (after b0 (B + Z.min (T - n0) NumIndirect))
               (Disk_write (snd (Disk_read d sector)) sector
                  (Indirect_image
                     (Indirect.mk (Z.min (T - n0) NumIndirect)
                        (tabf (fun j => drawn b0 (B + j))
                              (Z.min (T - n0) NumIndirect) NumIndirect))))).
Proof.
  intros HT Hstart HB Hc HcT Hnb Hblk Hfuel.
  unfold AllocateIndirectSpace. unfold bind at 1.
  unfold ReadSector. cbn [synchDisk this freeMap Disk_read sectors].
  rewrite Hblk, Indirect_image_inv.
  unfold bind at 1.
  rewrite (AllocateIndirectSpace_loop_run SectorSize_pos NumIndirect_pos
             b0 s T n0 B start ds hs hd hh
             (mkDisk (sectors d) (requests d ++ [ReadRequest sector]))
             HT Hstart HB fuel c nb) by (try lia; nia).
  unfold bind at 1. unfold WriteSector. cbn [this freeMap synchDisk].
  unfold bind at 1. hsimpl.
  destruct (Z.leb_spec T (n0 + NumIndirect)); [now rewrite Z.sub_diag | reflexivity].
Qed.

(** The same when the file already reaches past the block: nothing is
    drawn, and the block is written back as it was read. *)
Lemma AllocateIndirectSpace_skip s start sector m fuel :
  start + NumIndirect * SectorSize <= numBytes (this m) ->
  (1 <= fuel)%nat ->
  AllocateIndirectSpace fuel s sector start m =
  Ret (s - numBytes (this m))
    (mkMachine (this m) (freeMap m)
       (Disk_write (snd (Disk_read (synchDisk m) sector)) sector
          (Indirect_image (Indirect_of_image (sectors (synchDisk m) sector))))).
Proof.
  intros Hnb Hfuel. destruct fuel as [|fuel]; [lia|].
  unfold AllocateIndirectSpace. unfold bind at 1.
  unfold ReadSector. cbn [synchDisk this freeMap Disk_read sectors].
  unfold bind at 1. cbn [AllocateIndirectSpace_loop]. unfold bind at 1. hsimpl.
  replace (numBytes (this m) <? start + NumIndirect * SectorSize) with false
    by (symmetry; apply Z.ltb_ge; lia).
  rewrite andb_false_r. hsimpl.
  unfold bind at 1. unfold WriteSector. cbn [this freeMap synchDisk].
  unfold bind at 1. hsimpl. reflexivity.
Qed.

Lemma Indirect_image_of_image c f c' :
  Indirect_image (Indirect_of_image
                    (Indirect_image (Indirect.mk c (tabf f c' NumIndirect)))) =
  Indirect_image (Indirect.mk c (tabf f c' NumIndirect)).
Proof. now rewrite Indirect_image_inv. Qed.

(** The double-indirect phase on a header whose direct pointers and
    single-indirect block are full and which has no double-indirect block
    yet. *)
Lemma Allocate_double_phase b0 s d fuel :
  (sectorsFor s - 1) * SectorSize < s <= sectorsFor s * SectorSize ->
  NumDirect + NumIndirect < sectorsFor s <= maxSectors ->
  sectorsNeeded s <= Bitmap.NumClear b0 ->
  sectors d (drawn b0 NumDirect) = Indirect_image (singleBlock b0 (sectorsFor s)) ->
  (Z.to_nat NumIndirect + 2 <= fuel)%nat ->
  exists m',
    (AllocateDoubleIndirectBlock fuel s ;; ret true)
      (mkMachine (mkFileHeader ((NumDirect + NumIndirect) * SectorSize)
                               (NumDirect + NumIndirect)
                               (tabf (drawn b0) NumDirect NumDirect)
                               (drawn b0 NumDirect) (-1) (-1))
                 (after b0 doublePos) d) = Ret true m' /\
    allocated_layout b0 s m'.
Proof.
  intros HT HTr Hbudget D1 Hfuel.
  unfold sectorsNeeded, indexBlocks in Hbudget. revert Hbudget. zbool. intros Hbudget.
  pose proof (secondaryBlocks_spec NumIndirect_pos (sectorsFor s)) as HK.
  destruct (AllocateDoubleIndirectBlock_run SectorSize_pos NumDirect_pos NumIndirect_pos
              b0 s (sectorsFor s) (tabf (drawn b0) NumDirect NumDirect)
              (drawn b0 NumDirect) (-1) fuel d HT HTr ltac:(lia) Hfuel)
    as (d' & E & F1 & F2 & F3).
  eexists. split.
  { unfold bind at 1. rewrite E. reflexivity. }
  unfold allocated_layout, allocated_store, sectorsNeeded, indexBlocks. cbv zeta.
  hsimpl. zbool. rewrite Z.min_r by lia.
  split; [|f_equal; lia].
  split; [reflexivity|].
  split; [|intros _; split; assumption].
  intros _. rewrite F3; [exact D1| |].
  - intros E'. apply drawn_inj in E'; unfold doublePos in *; nia.
  - intros k Hk E'. apply drawn_inj in E'; unfold secondaryPos in *; nia.
Qed.

(** A header with a single-indirect block and no double-indirect block
    grows into the file a new header would have been given. *)
Lemma Allocate_grow_single b0 s1 s2 m1 fuel :
  0 <= s1 <= s2 -> s2 <= maxCapacity ->
  NumDirect < sectorsFor s1 <= NumDirect + NumIndirect ->
  sectorsNeeded s2 <= Bitmap.NumClear b0 ->
  sectorsFor s1 <= Bitmap.NumClear b0 - sectorsNeeded s1 ->
  allocated_layout b0 s1 m1 ->
  (Z.to_nat (Z.max NumDirect NumIndirect) + 2 <= fuel)%nat ->
  exists m2, Allocate fuel s2 m1 = Ret true m2 /\ allocated_layout b0 s2 m2.
Proof.
  intros Hs Hcap HT1 Hbudget Hadm Hl Hfuel.
  pose proof (NumClear_nonneg b0) as Hnn.
  assert (Hs1 : 0 < s1).
  { destruct (Z.eq_dec s1 0) as [->|]; [|lia]. rewrite sectorsFor_nonpos in HT1; lia. }
  pose proof (sectorsFor_spec SectorSize_pos s1 Hs1) as HS1.
  pose proof (sectorsFor_spec SectorSize_pos s2 ltac:(lia)) as HS2.
  pose proof (sectorsFor_mono s1 s2 ltac:(lia)) as HT12.
  pose proof (sectorsFor_le_max SectorSize_pos NumDirect_pos NumIndirect_pos s2 Hcap) as HTmax.
  pose proof (indexBlocks_bounds NumDirect_pos NumIndirect_pos (sectorsFor s2)) as (HI0 & _).
  assert (Hbudget1 : sectorsNeeded s1 <= Bitmap.NumClear b0).
  { unfold sectorsNeeded, indexBlocks in *. revert Hadm. zbool. lia. }
  rewrite (Allocate_grow_prefix b0 s1 s2 m1 fuel Hs ltac:(lia) Hbudget1 Hadm Hl ltac:(lia)).
  destruct Hl as ((Hh & D1 & _) & Hfm). cbv zeta in Hh. specialize (D1 ltac:(lia)).
  destruct m1 as [h b d]. cbn [this freeMap synchDisk sectors] in *. subst h b.
  unfold sectorsNeeded, indexBlocks in Hadm, Hbudget1 |- *.
  revert Hadm Hbudget1. zbool. intros Hadm Hbudget1.
  set (T1 := sectorsFor s1) in *. set (T2 := sectorsFor s2) in *.
  rewrite Z.min_r by lia.
  unfold bind at 1.
  destruct (Z.lt_ge_cases s1 ((NumDirect + NumIndirect) * SectorSize)) as [Hin|Hfull].
  - (* the block takes more sectors *)
    replace (mkFileHeader s1 T1) with (mkFileHeader s1 (NumDirect + (T1 - NumDirect)))
      by (f_equal; lia).
    replace (after b0 (T1 + 1)) with (after b0 (NumDirect + 1 + (T1 - NumDirect)))
      by (f_equal; lia).
    rewrite (AllocateIndirectSpace_fill b0 s2 T2 NumDirect (NumDirect + 1)
               (NumDirect * SectorSize) (drawn b0 NumDirect) (T1 - NumDirect) s1);
      try assumption; try reflexivity; try lia.
    2:{ nia. }
    2:{ rewrite D1. unfold singleBlock. now rewrite Z.min_l by lia. }
    fold (singleBlock b0 T2).
    match goal with
    | |- context [Disk_write (snd ?a) ?b ?c] => set (d1 := Disk_write (snd a) b c)
    end.
    assert (D2 : sectors d1 (drawn b0 NumDirect) = Indirect_image (singleBlock b0 T2))
      by apply Disk_write_same.
    clearbody d1.
    destruct (Z.leb_spec T2 (NumDirect + NumIndirect)) as [Hle|Hgt].
    + zbool. hsimpl. eexists. split; [reflexivity|].
      unfold allocated_layout, allocated_store, sectorsNeeded, indexBlocks. cbv zeta.
      fold T2. hsimpl. zbool. rewrite Z.min_l, Z.min_r by lia.
      split; [|f_equal; lia].
      split; [f_equal; lia|]. split; [intros _; exact D2 | intros; lia].
    + assert (Hs2 : (NumDirect + NumIndirect) * SectorSize < s2) by nia.
      zbool. unfold bind at 1. unfold ASSERT. zbool. hsimpl.
      rewrite Z.min_r by lia.
      replace (NumDirect + 1 + NumIndirect) with doublePos by (unfold doublePos; ring).
      apply Allocate_double_phase;
        [ exact HS2 | fold T2; lia
        | exact Hbudget | exact D2 | lia ].
  - (* the block is full *)
    assert (ET1 : T1 = NumDirect + NumIndirect) by nia.
    assert (Es1 : s1 = (NumDirect + NumIndirect) * SectorSize) by nia.
    rewrite AllocateIndirectSpace_skip by (cbn [this numBytes]; lia).
    cbn [this freeMap synchDisk numBytes]. rewrite D1.
    unfold singleBlock at 1. rewrite Indirect_image_of_image. fold (singleBlock b0 T1).
    match goal with
    | |- context [Disk_write (snd ?a) ?b ?c] => set (d1 := Disk_write (snd a) b c)
    end.
    assert (D2 : sectors d1 (drawn b0 NumDirect) = Indirect_image (singleBlock b0 T2)).
    { unfold d1. rewrite Disk_write_same. unfold singleBlock.
      now rewrite !Z.min_r by lia. }
    clearbody d1.
    destruct (Z.eq_dec s2 s1) as [E12|N12].
    + assert (ET2 : T2 = T1) by (subst T1 T2; now rewrite E12).
      rewrite E12, Z.sub_diag. zbool. hsimpl. eexists. split; [reflexivity|].
      unfold allocated_layout, allocated_store, sectorsNeeded, indexBlocks. cbv zeta.
      fold T1. hsimpl. zbool. rewrite Z.min_r by lia.
      split; [|reflexivity].
      split; [reflexivity|]. split; [intros _; now rewrite <- ET2 | intros; lia].
    + assert (Hgt : NumDirect + NumIndirect < T2) by nia.
      zbool. unfold bind at 1. unfold ASSERT. zbool. hsimpl.
      rewrite ET1, Es1.
      replace (NumDirect + NumIndirect + 1) with doublePos by (unfold doublePos; ring).
      apply Allocate_double_phase;
        [ exact HS2 | fold T2; lia
        | exact Hbudget | exact D2 | lia ].
Qed.

(** A block written back as it was read leaves the contents of the disk as
    they were. *)
Lemma rewrite_same d x0 c f c' x :
  sectors d x0 = Indirect_image (Indirect.mk c (tabf f c' NumIndirect)) ->
  sectors (Disk_write (snd (Disk_read d x0)) x0
             (Indirect_image (Indirect_of_image (sectors d x0)))) x = sectors d x.
Proof.
  intros E. destruct (Z.eq_dec x x0) as [->|Hne].
  - rewrite Disk_write_same, E. apply Indirect_image_of_image.
  - now rewrite Disk_write_other by assumption.
Qed.

(** One iteration of the [do ... while] loop on a secondary block that the
    file already reaches past: the block is read and written back, and the
    loop goes on to the next one. *)
Lemma AllocateDoubleIndirectBlock_loop_skip b0 s K1 h b n fuel k d :
  0 <= k < K1 -> K1 <= NumIndirect ->
  drawn b0 (secondaryPos k) <> -1 ->
  SectorSize * (NumDirect + NumIndirect * (1 + k)) + NumIndirect * SectorSize
    <= numBytes h ->
  s <> numBytes h ->
  (1 <= fuel)%nat ->
  let q := fun k' => drawn b0 (secondaryPos k') in
  AllocateDoubleIndirectBlock_loop (S n) fuel s
    (Indirect.mk K1 (tabf q K1 NumIndirect)) k (mkMachine h b d) =
  AllocateDoubleIndirectBlock_loop n fuel s
    (Indirect.mk K1 (tabf q K1 NumIndirect)) (k + 1)
    (mkMachine h b
       (Disk_write (snd (Disk_read (snd (Disk_read d (q k))) (q k))) (q k)
          (Indirect_image (Indirect_of_image (sectors d (q k)))))).
Proof.
  intros Hk HK Hq Hnb Hs Hfuel q.
  cbn [AllocateDoubleIndirectBlock_loop].
  unfold bind at 1. unfold ASSERT. hsimpl. zbool. hsimpl.
  unfold bind at 1. rewrite load_tabf_run by lia. zbool.
  replace (q k =? -1) with false by (symmetry; now apply Z.eqb_neq).
  hsimpl. unfold bind at 1. unfold bind at 1.
  unfold ReadSector at 1. cbn [this freeMap synchDisk Disk_read].
  hsimpl. unfold bind at 1. rewrite load_tabf_run by lia. zbool.
  unfold bind at 1.
  rewrite AllocateIndirectSpace_skip by (cbn [this numBytes]; assumption).
  cbn [this freeMap synchDisk numBytes sectors].
  replace (s - numBytes h =? 0) with false by (symmetry; apply Z.eqb_neq; lia).
  reflexivity.
Qed.

(** One iteration of the [do ... while] loop on the secondary block in
    which the file ends: the block takes the sectors still needed, up to its
    capacity. *)
Lemma AllocateDoubleIndirectBlock_loop_fill b0 s1 s T K1 ds hs hd hh n fuel k c d :
  (T - 1) * SectorSize < s <= T * SectorSize ->
  0 <= k < K1 -> K1 <= NumIndirect ->
  drawn b0 (secondaryPos k) <> -1 ->
  0 <= c <= NumIndirect -> firstLogical k + c <= T ->
  firstLogical k * SectorSize <= s1 < (firstLogical k + NumIndirect) * SectorSize ->
  let q := fun k' => drawn b0 (secondaryPos k') in
  let c' := Z.min (T - firstLogical k) NumIndirect in
  let d1 :=
    Disk_write (snd (Disk_read (snd (Disk_read d (q k))) (q k))) (q k)
      (Indirect_image
         (Indirect.mk c' (tabf (fun j => drawn b0 (secondaryPos k + 1 + j)) c' NumIndirect))) in
  sectors d (q k) =
    Indirect_image
      (Indirect.mk c (tabf (fun j => drawn b0 (secondaryPos k + 1 + j)) c NumIndirect)) ->
  (Z.to_nat NumIndirect + 2 <= fuel)%nat ->
  AllocateDoubleIndirectBlock_loop (S n) fuel s
    (Indirect.mk K1 (tabf q K1 NumIndirect)) k
    (mkMachine (mkFileHeader s1 (firstLogical k + c) ds hs hd hh)
               (after b0 (secondaryPos k + 1 + c)) d) =
  if T <=? firstLogical k + NumIndirect then
    Ret tt (mkMachine (mkFileHeader s T ds hs hd hh)
                      (after b0 (secondaryPos k + 1 + c')) d1)
  else
    AllocateDoubleIndirectBlock_loop n fuel s
      (Indirect.mk K1 (tabf q K1 NumIndirect)) (k + 1)
      (mkMachine (mkFileHeader (SectorSize * (NumDirect + NumIndirect * (1 + (k + 1))))
                               (firstLogical (k + 1)) ds hs hd hh)
                 (after b0 (secondaryPos (k + 1))) d1).
Proof.
  intros HT Hk HK Hq Hc HcT Hs1 q c' d1 Hblk Hfuel.
  assert (Hc' : c' = Z.min (T - firstLogical k) NumIndirect) by reflexivity.
  clearbody c'.
  assert (Hpos : 0 <= secondaryPos k) by (unfold secondaryPos; nia).
  cbn [AllocateDoubleIndirectBlock_loop].
  unfold bind at 1. unfold ASSERT. hsimpl. zbool. hsimpl.
  unfold bind at 1. rewrite load_tabf_run by lia. zbool.
  replace (q k =? -1) with false by (symmetry; now apply Z.eqb_neq).
  hsimpl. unfold bind at 1. unfold bind at 1.
  unfold ReadSector at 1. cbn [this freeMap synchDisk Disk_read].
  hsimpl. unfold bind at 1. rewrite load_tabf_run by lia. zbool.
  unfold bind at 1. unfold q at 1.
  rewrite (AllocateIndirectSpace_fill b0 s T (firstLogical k) (secondaryPos k + 1)
             (SectorSize * (NumDirect + NumIndirect * (1 + k))));
    try assumption; try lia.
  2:{ unfold firstLogical. ring. }
  2:{ unfold firstLogical in *. nia. }
  rewrite <- Hc'. fold (q k). fold d1.
  destruct (Z.leb_spec T (firstLogical k + NumIndirect)) as [Hle|Hgt].
  - zbool. hsimpl.
    replace (firstLogical k + c') with T by lia.
    reflexivity.
  - assert (Hs : s - (firstLogical k + NumIndirect) * SectorSize <> 0) by nia.
    zbool. hsimpl.
    replace ((firstLogical k + NumIndirect) * SectorSize)
      with (SectorSize * (NumDirect + NumIndirect * (1 + (k + 1))))
      by (unfold firstLogical; ring).
    replace (firstLogical k + c') with (firstLogical (k + 1))
      by (unfold firstLogical in *; lia).
    replace (secondaryPos k + 1 + c') with (secondaryPos (k + 1))
      by (unfold secondaryPos; lia).
    reflexivity.
Qed.

Section Resume.

Variables (b0 : Bitmap.t) (s1 s2 : Z) (ds : list Z) (hs hh : Z) (fuel : nat).

Let T1 := sectorsFor s1.
Let T2 := sectorsFor s2.
Let K1 := secondaryBlocks T1.
Let K2 := secondaryBlocks T2.
Let q := fun k => drawn b0 (secondaryPos k).

Hypothesis Hgrow : 0 < s1 < s2.
Hypothesis Hcap : s2 <= maxCapacity.
Hypothesis Hdouble : NumDirect + NumIndirect < T1.
Hypothesis Hbudget : T2 + 2 + K2 <= Bitmap.NumClear b0.
Hypothesis Hfuel : (Z.to_nat NumIndirect + 2 <= fuel)%nat.

Lemma resume_facts :
  (T1 - 1) * SectorSize < s1 <= T1 * SectorSize /\
  (T2 - 1) * SectorSize < s2 <= T2 * SectorSize /\
  (K1 - 1) * NumIndirect < T1 - NumDirect - NumIndirect <= K1 * NumIndirect /\
  (K2 - 1) * NumIndirect < T2 - NumDirect - NumIndirect <= K2 * NumIndirect /\
  T1 <= T2 /\ 1 <= K1 /\ K1 <= K2 /\ K2 <= NumIndirect.
Proof.
  pose proof (sectorsFor_spec SectorSize_pos s1 ltac:(lia)) as HS1.
  pose proof (sectorsFor_spec SectorSize_pos s2 ltac:(lia)) as HS2.
  pose proof (secondaryBlocks_spec NumIndirect_pos T1) as HK1.
  pose proof (secondaryBlocks_spec NumIndirect_pos T2) as HK2.
  pose proof (sectorsFor_mono s1 s2 ltac:(lia)) as HT12.
  pose proof (sectorsFor_le_max SectorSize_pos NumDirect_pos NumIndirect_pos s2 Hcap) as HTmax.
  fold T1 in HS1, HT12. fold T2 in HS2, HT12, HTmax. fold K1 in HK1. fold K2 in HK2.
  pose proof (blocks_index T1 K1 0 HK1) as (B1 & _). rewrite firstLogical_0 in B1.
  pose proof (blocks_index T1 K1 (K1 - 1) HK1) as (B2 & _).
  pose proof (blocks_index T2 K2 (K1 - 1) HK2) as (B3 & _).
  pose proof (blocks_index T2 K2 (NumIndirect - 1) HK2) as (_ & B4).
  rewrite maxSectors_firstLogical in HTmax.
  repeat split; try lia.
Qed.

Lemma resume_distinct :
  (forall k, 0 <= k < K2 -> q k <> -1 /\ q k <> drawn b0 doublePos) /\
  (forall k k', 0 <= k < K2 -> 0 <= k' < K2 -> k <> k' -> q k <> q k').
Proof.
  destruct resume_facts as (_ & _ & _ & HK2 & _ & _ & _ & HKN).
  assert (B : forall k, 0 <= k < K2 ->
            NumDirect + NumIndirect + 2 <= secondaryPos k < Bitmap.NumClear b0).
  { intros k Hk. rewrite secondaryPos_firstLogical.
    pose proof (firstLogical_lower k (proj1 Hk)).
    pose proof (blocks_index T2 K2 k HK2) as (B1 & _). lia. }
  split.
  - intros k Hk. specialize (B k Hk).
    assert (B' : 0 <= secondaryPos k < Bitmap.NumClear b0) by lia.
    split.
    + pose proof (drawn_nonneg b0 _ B'). unfold q. lia.
    + unfold q. intros E. apply drawn_inj in E; unfold doublePos in *; lia.
  - intros k k' Hk Hk' Hne E. unfold q in E.
    pose proof (B k Hk). pose proof (B k' Hk').
    apply drawn_inj in E; try lia.
    rewrite !secondaryPos_firstLogical in E.
    destruct (Z.lt_trichotomy k k') as [L|[L|L]]; try lia.
    + pose proof (firstLogical_lt k k' L). lia.
    + pose proof (firstLogical_lt k' k L). lia.
Qed.

(** The [do ... while] loop on a header that already has secondary blocks:
    the blocks the file reaches past are read and left as they are, the
    block the file ends in is filled, and new blocks follow, to the same
    effect as on a new header. *)
Lemma AllocateDoubleIndirectBlock_loop_resume :
  forall n k d,
    0 <= k <= K1 ->
    firstLogical k * SectorSize <= s1 ->
    (Z.to_nat (K2 - k) <= n)%nat ->
    sectors d (drawn b0 doublePos) = Indirect_image (doubleBlock b0 T1) ->
    (forall k', k <= k' < K1 ->
       sectors d (q k') = Indirect_image (secondaryBlock b0 T1 k')) ->
    exists d',
      AllocateDoubleIndirectBlock_loop n fuel s2
        (Indirect.mk K1 (tabf q K1 NumIndirect)) k
        (mkMachine (mkFileHeader s1 T1 ds hs (drawn b0 doublePos) hh)
                   (after b0 (T1 + 2 + K1)) d) =
      Ret tt (mkMachine (mkFileHeader s2 T2 ds hs (drawn b0 doublePos) hh)
                        (after b0 (T2 + 2 + K2)) d') /\
      sectors d' (drawn b0 doublePos) = Indirect_image (doubleBlock b0 T2) /\
      (forall k', k <= k' < K2 ->
         sectors d' (q k') = Indirect_image (secondaryBlock b0 T2 k')) /\
      (forall x, x <> drawn b0 doublePos ->
         (forall k', k <= k' < K2 -> x <> q k') ->
         sectors d' x = sectors d x).
Proof.
  destruct resume_facts as (HS1 & HS2 & HK1 & HK2 & HT12 & HK1pos & HK12 & HKN).
  destruct resume_distinct as (Hq & Hqq).
  induction n as [|n IH]; intros k d Hk Hinv Hn Hdbl Hsec;
    (assert (HkK2 : k < K2);
     [ pose proof (bytes_sectors s2 T2 (firstLogical k) HS2) as (B1 & _);
       pose proof (blocks_index T2 K2 k HK2) as (B2 & _);
       apply B2, B1; lia | ]).
  { (* the loop has at least one block to go *) exfalso. lia. }
  destruct (Z.eq_dec k K1) as [->|HkK1].
  - (* every block of the file is full: new blocks from here on *)
    pose proof (bytes_sectors s1 T1 (firstLogical K1) HS1) as (_ & B1 & B2).
    pose proof (blocks_index T1 K1 K1 HK1) as (B3 & _).
    assert (ET1 : T1 = firstLogical K1) by lia.
    assert (Es1 : s1 = SectorSize * (NumDirect + NumIndirect * (1 + K1))).
    { fold (firstLogical K1). rewrite Z.mul_comm. rewrite <- ET1 in *. lia. }
    clear B1 B2 B3.
    destruct (AllocateDoubleIndirectBlock_loop_run
                SectorSize_pos NumDirect_pos NumIndirect_pos
                b0 s2 T2 K2 ds hs hh fuel HS2 HK2 HKN Hbudget Hfuel
                (S n) K1 d ltac:(lia) Hn) as (d' & E & F1 & F2 & F3).
    exists d'. split; [|split; [exact F1|split; [exact F2|exact F3]]].
    rewrite <- Es1, <- ET1 in E.
    replace (secondaryPos K1) with (T1 + 2 + K1) in E
      by (rewrite ET1; unfold secondaryPos, firstLogical; ring).
    exact E.
  - destruct (Z.le_gt_cases ((firstLogical k + NumIndirect) * SectorSize) s1) as [Hpast|Hin].
    + (* the file reaches past block [k] *)
      assert (Hfull : firstLogical k + NumIndirect <= T1)
        by (apply (bytes_sectors s1 T1 _ HS1); exact Hpast).
      pose proof (Hsec k ltac:(lia)) as Hblk.
      rewrite (AllocateDoubleIndirectBlock_loop_skip b0 s2 K1 _ _ n fuel k d);
        try lia; try (apply Hq; lia).
      2:{ cbn [numBytes].
          replace (SectorSize * (NumDirect + NumIndirect * (1 + k)) + NumIndirect * SectorSize)
            with ((firstLogical k + NumIndirect) * SectorSize)
            by (unfold firstLogical; ring).
          exact Hpast. }
      2:{ cbn [numBytes]. lia. }
      fold q.
      match goal with
      | |- context [Disk_write (snd ?a) ?b ?c] => set (d1 := Disk_write (snd a) b c)
      end.
      assert (Hd1 : forall x, sectors d1 x = sectors d x).
      { intros x. unfold d1.
        exact (rewrite_same (snd (Disk_read d (q k))) (q k) _ _ _ x Hblk). }
      clearbody d1.
      destruct (IH (k + 1) d1) as (d' & E & F1 & F2 & F3).
      * lia.
      * rewrite firstLogical_succ. exact Hpast.
      * lia.
      * now rewrite Hd1.
      * intros k' Hk'. rewrite Hd1. apply Hsec. lia.
      * exists d'. split; [exact E|]. split; [exact F1|]. split.
        -- intros k' Hk'. destruct (Z.eq_dec k' k) as [->|Hne]; [|apply F2; lia].
           rewrite F3, Hd1, Hblk.
           ++ unfold secondaryBlock. now rewrite !Z.min_r by lia.
           ++ apply Hq. lia.
           ++ intros k2 Hk2. apply Hqq; lia.
        -- intros x Hx1 Hx2. rewrite F3, Hd1; [reflexivity | assumption |].
           intros k2 Hk2. apply Hx2. lia.
    + (* the file ends in block [k] *)
      pose proof (bytes_sectors s1 T1 (firstLogical k + NumIndirect) HS1) as (_ & B1 & _).
      pose proof (blocks_index T1 K1 k HK1) as (B2 & B3).
      assert (Hlast : K1 = k + 1) by lia.
      assert (Hc : 1 <= T1 - firstLogical k <= NumIndirect) by lia.
      clear B1 B2 B3.
      pose proof (Hsec k ltac:(lia)) as Hblk. unfold secondaryBlock in Hblk.
      rewrite Z.min_l in Hblk by lia.
      replace (mkFileHeader s1 T1)
        with (mkFileHeader s1 (firstLogical k + (T1 - firstLogical k))) by (f_equal; lia).
      replace (after b0 (T1 + 2 + K1))
        with (after b0 (secondaryPos k + 1 + (T1 - firstLogical k)))
        by (f_equal; rewrite secondaryPos_firstLogical; lia).
      assert (A1 : 0 <= k < K1) by lia.
      assert (A2 : K1 <= NumIndirect) by lia.
      assert (A3 : 0 <= k < K2) by lia.
      assert (A4 : 0 <= T1 - firstLogical k <= NumIndirect) by lia.
      assert (A5 : firstLogical k + (T1 - firstLogical k) <= T2) by lia.
      assert (A6 : firstLogical k * SectorSize <= s1
                   < (firstLogical k + NumIndirect) * SectorSize) by lia.
      pose proof (AllocateDoubleIndirectBlock_loop_fill b0 s1 s2 T2 K1 ds hs
                    (drawn b0 doublePos) hh n fuel k (T1 - firstLogical k) d
                    HS2 A1 A2 (proj1 (Hq k A3)) A4 A5 A6) as Efill.
      cbv zeta in Efill. specialize (Efill Hblk Hfuel). fold q in Efill.
      rewrite Efill. clear Efill.
      match goal with
      | |- context [Disk_write (snd ?a) ?b ?c] => set (d1 := Disk_write (snd a) b c)
      end.
      assert (D1 : sectors d1 (q k) = Indirect_image (secondaryBlock b0 T2 k))
        by apply Disk_write_same.
      assert (D2 : forall x, x <> q k -> sectors d1 x = sectors d x).
      { intros x Hx. unfold d1. now rewrite Disk_write_other by assumption. }
      clearbody d1.
      destruct (Z.leb_spec T2 (firstLogical k + NumIndirect)) as [Hle|Hgt].
      * (* and the request ends there too *)
        assert (EK : K2 = K1)
          by (pose proof (blocks_index T2 K2 k HK2) as (_ & B3); lia).
        exists d1. split; [|split; [|split]].
        -- do 2 f_equal. rewrite Z.min_l by lia. f_equal.
           rewrite secondaryPos_firstLogical. lia.
        -- rewrite D2 by (apply not_eq_sym, Hq; lia).
           rewrite Hdbl. unfold doubleBlock. fold K1 K2. now rewrite EK.
        -- intros k' Hk'. assert (k' = k) by lia. subst k'. exact D1.
        -- intros x _ Hx. apply D2. apply Hx. lia.
      * (* new blocks follow *)
        destruct (AllocateDoubleIndirectBlock_loop_run
                    SectorSize_pos NumDirect_pos NumIndirect_pos
                    b0 s2 T2 K2 ds hs hh fuel HS2 HK2 HKN Hbudget Hfuel
                    n (k + 1) d1) as (d' & E & F1 & F2 & F3).
        { pose proof (blocks_index T2 K2 k HK2) as (_ & B3). lia. }
        { lia. }
        rewrite Hlast. fold q in E. rewrite E.
        exists d'. split; [reflexivity|]. split; [exact F1|]. split.
        -- intros k' Hk'. destruct (Z.eq_dec k' k) as [->|Hne]; [|apply F2; lia].
           rewrite F3; [exact D1 | apply Hq; lia |].
           intros k2 Hk2. apply Hqq; lia.
        -- intros x Hx1 Hx2. rewrite F3; [| assumption |].
           ++ apply D2. apply Hx2. lia.
           ++ intros k2 Hk2. apply Hx2. lia.
Qed.

End Resume.

(** A header with a double-indirect block grows into the file a new header
    would have been given. *)
Lemma Allocate_grow_double b0 s1 s2 m1 fuel :
  0 <= s1 <= s2 -> s2 <= maxCapacity ->
  NumDirect + NumIndirect < sectorsFor s1 ->
  sectorsNeeded s2 <= Bitmap.NumClear b0 ->
  sectorsFor s1 <= Bitmap.NumClear b0 - sectorsNeeded s1 ->
  allocated_layout b0 s1 m1 ->
  (Z.to_nat (Z.max NumDirect NumIndirect) + 2 <= fuel)%nat ->
  exists m2, Allocate fuel s2 m1 = Ret true m2 /\ allocated_layout b0 s2 m2.
Proof.
  intros Hs Hcap HT1 Hbudget Hadm Hl Hfuel.
  pose proof (NumClear_nonneg b0) as Hnn.
  assert (Hs1 : 0 < s1).
  { destruct (Z.eq_dec s1 0) as [->|]; [|lia]. rewrite sectorsFor_nonpos in HT1; lia. }
  pose proof (sectorsFor_spec SectorSize_pos s1 Hs1) as HS1.
  pose proof (sectorsFor_spec SectorSize_pos s2 ltac:(lia)) as HS2.
  pose proof (sectorsFor_mono s1 s2 ltac:(lia)) as HT12.
  pose proof (sectorsFor_le_max SectorSize_pos NumDirect_pos NumIndirect_pos s2 Hcap) as HTmax.
  pose proof (indexBlocks_bounds NumDirect_pos NumIndirect_pos (sectorsFor s1))
    as (_ & _ & HI1).
  pose proof (indexBlocks_bounds NumDirect_pos NumIndirect_pos (sectorsFor s2))
    as (_ & _ & HI2).
  destruct (HI1 HT1) as (_ & EI1 & HK1 & _).
  destruct (HI2 ltac:(lia)) as (_ & EI2 & HK2 & _).
  pose proof (secondaryBlocks_spec NumIndirect_pos (sectorsFor s1)) as HKs1.
  pose proof (secondaryBlocks_spec NumIndirect_pos (sectorsFor s2)) as HKs2.
  assert (Hbudget1 : sectorsNeeded s1 <= Bitmap.NumClear b0)
    by (unfold sectorsNeeded in *; lia).
  rewrite (Allocate_grow_prefix b0 s1 s2 m1 fuel Hs ltac:(lia) Hbudget1 Hadm Hl ltac:(lia)).
  destruct Hl as ((Hh & D1 & D23) & Hfm). cbv zeta in Hh.
  specialize (D1 ltac:(lia)). destruct (D23 HT1) as (D2 & D3). clear D23.
  destruct m1 as [h b d]. cbn [this freeMap synchDisk sectors] in *. subst h b.
  unfold sectorsNeeded in *. rewrite EI1 in *. rewrite EI2 in *.
  replace (sectorsFor s1 <=? NumDirect) with false by (symmetry; apply Z.leb_gt; lia).
  replace (sectorsFor s1 <=? NumDirect + NumIndirect) with false
    by (symmetry; apply Z.leb_gt; lia).
  rewrite Z.min_r by lia.
  assert (Bs : 0 <= NumDirect < Bitmap.NumClear b0) by lia.
  assert (Bd : 0 <= doublePos < Bitmap.NumClear b0) by (unfold doublePos; lia).
  pose proof (drawn_nonneg b0 _ Bs) as Hsn. pose proof (drawn_nonneg b0 _ Bd) as Hdn.
  assert (Hsd : drawn b0 NumDirect <> drawn b0 doublePos).
  { intros E. apply drawn_inj in E; unfold doublePos in *; lia. }
  assert (Hpast : (NumDirect + NumIndirect) * SectorSize <= s1).
  { pose proof (bytes_sectors s1 (sectorsFor s1) (NumDirect + NumIndirect) HS1) as (B1 & _).
    apply Z.lt_le_incl, B1. exact HT1. }
  unfold bind at 1.
  rewrite AllocateIndirectSpace_skip
    by (cbn [this numBytes];
        replace (NumDirect * SectorSize + NumIndirect * SectorSize)
          with ((NumDirect + NumIndirect) * SectorSize) by ring;
        exact Hpast || lia).
  cbn [this freeMap synchDisk numBytes].
  match goal with
  | |- context [Disk_write (snd ?a) ?b ?c] => set (d1 := Disk_write (snd a) b c)
  end.
  assert (Hd1 : forall x, sectors d1 x = sectors d x).
  { intros x. unfold d1. unfold singleBlock in D1. exact (rewrite_same d _ _ _ _ x D1). }
  clearbody d1.
  destruct (Z.eq_dec s2 s1) as [E12|N12].
  - (* the size the file has *)
    rewrite E12, Z.sub_diag. zbool. hsimpl. eexists. split; [reflexivity|].
    unfold allocated_layout, allocated_store, sectorsNeeded. cbv zeta.
    rewrite EI1. hsimpl.
    replace (sectorsFor s1 <=? NumDirect) with false by (symmetry; apply Z.leb_gt; lia).
    replace (sectorsFor s1 <=? NumDirect + NumIndirect) with false
      by (symmetry; apply Z.leb_gt; lia).
    rewrite Z.min_r by lia.
    split; [|reflexivity].
    split; [reflexivity|]. split; [intros _; now rewrite Hd1|].
    intros _. split; [now rewrite Hd1|]. intros k Hk. rewrite Hd1. now apply D3.
  - (* a larger size *)
    replace (s2 - s1 =? 0) with false by (symmetry; apply Z.eqb_neq; lia).
    unfold bind at 1. unfold ASSERT.
    replace (s2 - s1 >? 0) with true by (symmetry; rewrite Z.gtb_ltb; apply Z.ltb_lt; lia).
    hsimpl. unfold bind at 1. unfold AllocateDoubleIndirectBlock.
    unfold bind at 1. hsimpl.
    replace (drawn b0 doublePos =? -1) with false by (symmetry; apply Z.eqb_neq; lia).
    hsimpl. unfold bind at 1. unfold bind at 1.
    unfold ReadSector. cbn [this freeMap synchDisk Disk_read].
    hsimpl. rewrite Hd1, D2. unfold doubleBlock at 1. rewrite Indirect_image_inv.
    set (d2 := mkDisk (sectors d1) _).
    destruct (AllocateDoubleIndirectBlock_loop_resume b0 s1 s2
                (tabf (drawn b0) NumDirect NumDirect) (drawn b0 NumDirect) (-1) fuel
                ltac:(lia) Hcap HT1 ltac:(lia) ltac:(lia) fuel 0 d2)
      as (d' & E & F1 & F2 & F3).
    + lia.
    + rewrite firstLogical_0. exact Hpast.
    + rewrite maxSectors_firstLogical in HTmax.
      pose proof (blocks_index (sectorsFor s2) _ (NumIndirect - 1) HKs2) as (_ & B4). lia.
    + unfold d2. cbn [sectors]. now rewrite Hd1.
    + intros k Hk. unfold d2. cbn [sectors]. rewrite Hd1. now apply D3.
    + replace (sectorsFor s1 + (2 + secondaryBlocks (sectorsFor s1)))
        with (sectorsFor s1 + 2 + secondaryBlocks (sectorsFor s1)) by ring.
      rewrite E. eexists. split; [reflexivity|].
      unfold allocated_layout, allocated_store, sectorsNeeded. cbv zeta.
      rewrite EI2. hsimpl.
      replace (sectorsFor s2 <=? NumDirect) with false by (symmetry; apply Z.leb_gt; lia).
      replace (sectorsFor s2 <=? NumDirect + NumIndirect) with false
        by (symmetry; apply Z.leb_gt; lia).
      rewrite Z.min_r by lia.
      split; [|f_equal; ring].
      split; [reflexivity|]. split; [|intros _; split; [exact F1|]].
      * intros _. rewrite F3; [| exact Hsd |].
        -- unfold d2. cbn [sectors]. rewrite Hd1, D1. unfold singleBlock.
           now rewrite !Z.min_r by lia.
        -- intros k Hk E'.
           pose proof (firstLogical_lower k (proj1 Hk)) as L1.
           pose proof (blocks_index (sectorsFor s2) _ k HKs2) as (L2 & _).
           apply drawn_inj in E'; rewrite ?secondaryPos_firstLogical in *; lia.
      * intros k Hk. apply F2. lia.
Qed.

(** Allocation on a file just allocated, for a size at least as large:
    the outcome is the file a new header would have been given. *)
Lemma Allocate_grow_layout b0 s1 s2 m1 fuel :
  0 <= s1 <= s2 -> s2 <= maxCapacity ->
  sectorsNeeded s2 <= Bitmap.NumClear b0 ->
  sectorsFor s1 <= Bitmap.NumClear b0 - sectorsNeeded s1 ->
  allocated_layout b0 s1 m1 ->
  (Z.to_nat (Z.max NumDirect NumIndirect) + 2 <= fuel)%nat ->
  exists m2, Allocate fuel s2 m1 = Ret true m2 /\ allocated_layout b0 s2 m2.
Proof.
  intros Hs Hcap Hbudget Hadm Hl Hfuel.
  destruct (Z.le_gt_cases (sectorsFor s1) NumDirect) as [H1|H1].
  - rewrite (Allocate_grow_direct b0 s1 s2 m1 fuel Hs H1 Hadm Hl ltac:(lia)).
    apply (Allocate_layout SectorSize_pos NumDirect_pos NumIndirect_pos); assumption.
  - destruct (Z.le_gt_cases (sectorsFor s1) (NumDirect + NumIndirect)) as [H2|H2].
    + apply (Allocate_grow_single b0 s1 s2 m1 fuel); try assumption. lia.
    + apply (Allocate_grow_double b0 s1 s2 m1 fuel); assumption.
Qed.

(** X17.  Growing a file.  [Allocate] on a header just allocated for [s1]
    bytes, with a size [s2] at least as large (at most [maxCapacity], the
    map holding the sectors a file of [s2] bytes needs, and passing the
    admission test: as many free sectors left as the file has sectors),
    returns [TRUE] and leaves the header and the map as an allocation of
    [s2] bytes on a new header leaves them, with the same sector for every
    logical sector: the sectors the file had are kept, and asking again for
    the size it has changes nothing. *)
Theorem Allocate_grows s1 s2 b0 d fuel :
  0 <= s1 <= s2 -> s2 <= maxCapacity ->
  sectorsNeeded s2 <= Bitmap.NumClear b0 ->
  sectorsFor s1 <= Bitmap.NumClear b0 - sectorsNeeded s1 ->
  (Z.to_nat (Z.max NumDirect NumIndirect) + 2 <= fuel)%nat ->
  exists m1 m2 m,
    Allocate fuel s1 (zeroed b0 d) = Ret true m1 /\
    Allocate fuel s2 m1 = Ret true m2 /\
    Allocate fuel s2 (zeroed b0 d) = Ret true m /\
    this m2 = this m /\ freeMap m2 = freeMap m /\
    forall i, 0 <= i < sectorsFor s2 ->
      exists p ma mb, GetPhysicSector i m2 = Ret p ma /\ GetPhysicSector i m = Ret p mb.
Proof.
  intros Hs Hcap Hbudget Hadm Hfuel.
  pose proof (NumClear_nonneg b0) as Hnn.
  pose proof (sectorsFor_nonneg SectorSize_pos s1) as HT0.
  assert (Hbudget1 : sectorsNeeded s1 <= Bitmap.NumClear b0) by lia.
  destruct (Allocate_layout SectorSize_pos NumDirect_pos NumIndirect_pos
              s1 b0 d fuel ltac:(lia) Hbudget1 Hfuel) as (m1 & E1 & Hl1).
  destruct (Allocate_grow_layout b0 s1 s2 m1 fuel Hs Hcap Hbudget Hadm Hl1 Hfuel)
    as (m2 & E2 & Hl2).
  destruct (Allocate_layout SectorSize_pos NumDirect_pos NumIndirect_pos
              s2 b0 d fuel Hcap Hbudget Hfuel) as (m & E & Hl).
  exists m1, m2, m. split; [exact E1|]. split; [exact E2|]. split; [exact E|].
  pose proof Hl2 as ((Hh2 & _) & Hf2). pose proof Hl as ((Hh & _) & Hf).
  cbv zeta in Hh2, Hh.
  split; [congruence|]. split; [congruence|].
  intros i Hi.
  destruct Hl2 as (Hst2 & _). destruct Hl as (Hst & _).
  destruct (GetPhysicSector_store SectorSize_pos NumDirect_pos NumIndirect_pos
              b0 s2 m2 i Hst2 Hcap Hbudget Hi) as (da & Ga & _).
  destruct (GetPhysicSector_store SectorSize_pos NumDirect_pos NumIndirect_pos
              b0 s2 m i Hst Hcap Hbudget Hi) as (db & Gb & _).
  eexists _, _, _. split; [exact Ga | exact Gb].
Qed.

End AllocatedFiles.

(** ** Printing *)

Lemma reads_only_refl m : reads_only m m.
Proof.
  repeat split. exists []. cbn [map]. now rewrite app_nil_r.
Qed.

Lemma reads_only_trans m1 m2 m3 :
  reads_only m1 m2 -> reads_only m2 m3 -> reads_only m1 m3.
Proof.
  intros (A1 & A2 & A3 & rs & A4) (B1 & B2 & B3 & rs' & B4).
  split; [congruence|]. split; [congruence|]. split; [congruence|].
  exists (rs ++ rs'). rewrite B4, A4, map_app. now rewrite app_assoc.
Qed.

Lemma reads_only_same_file m m' : reads_only m m' -> same_file m m'.
Proof. intros (A & _ & B & _). now split. Qed.

Lemma zseq_length lo n : length (zseq lo n) = n.
Proof. revert lo; induction n as [|n IH]; intros lo; simpl; auto. Qed.

Lemma zseq_app lo n n' :
  zseq lo (n + n') = zseq lo n ++ zseq (lo + Z.of_nat n) n'.
Proof.
  revert lo; induction n as [|n IH]; intros lo.
  - cbn [zseq app Nat.add]. f_equal. lia.
  - cbn [zseq app Nat.add]. f_equal. rewrite IH. do 2 f_equal. lia.
Qed.

Lemma zseq_In lo n x : In x (zseq lo n) <-> lo <= x < lo + Z.of_nat n.
Proof.
  revert lo; induction n as [|n IH]; intros lo; cbn [zseq In].
  - lia.
  - rewrite IH. lia.
Qed.

Section PrintRuns.

Context {K : Constants}.
Variable charAt : Sector -> Z -> Z.

Lemma GetPhysicSector_reads i m :
  match GetPhysicSector i m with
  | Ret _ m' | Fault _ m' => reads_only m m'
  | OutOfFuel => False
  end.
Proof.
  rewrite GetPhysicSector_eval. cbv zeta. unfold reads_only.
  assert (R0 : exists rs : list Z,
             requests (synchDisk m) = requests (synchDisk m) ++ map ReadRequest rs).
  { exists []. cbn [map]. now rewrite app_nil_r. }
  assert (R1 : forall a, exists rs : list Z,
             requests (synchDisk m) ++ [ReadRequest a] =
             requests (synchDisk m) ++ map ReadRequest rs).
  { intros a. now exists [a]. }
  assert (R2 : forall a c, exists rs : list Z,
             (requests (synchDisk m) ++ [ReadRequest a]) ++ [ReadRequest c] =
             requests (synchDisk m) ++ map ReadRequest rs).
  { intros a c. exists [a; c]. cbn [map]. now rewrite <- app_assoc. }
  repeat match goal with
         | |- context [if ?c then _ else _] => destruct c
         end; cbn [Disk_read snd this freeMap synchDisk sectors requests];
    repeat split; auto.
Qed.

Lemma ReadSector_reads n m :
  exists m', ReadSector n m = Ret (sectors (synchDisk m) n) m' /\ reads_only m m'.
Proof.
  eexists. split; [reflexivity|]. cbn [this freeMap synchDisk Disk_read snd sectors requests].
  repeat split. now exists [n].
Qed.

(** A translation that returns, returns the same sector on any machine with
    the same header and the same disk contents. *)
Lemma physical_same_file m m' i :
  same_file m m' -> translates m i ->
  exists m'', GetPhysicSector i m' = Ret (physical m i) m''.
Proof.
  intros F (p & m1 & E). unfold physical. rewrite E.
  exact (GetPhysicSector_same_file i m m' p m1 F E).
Qed.

(** *** Whatever the outcome *)

Lemma Print_blocks_reads fuel :
  forall i out m,
    match Print_blocks fuel i out m with
    | Ret _ m' | Fault _ m' => reads_only m m'
    | OutOfFuel => True
    end.
Proof.
  induction fuel as [|fuel IH]; intros i out m; [exact I|].
  cbn [Print_blocks]. unfold bind at 1. hsimpl.
  destruct (i <? numSectors (this m)); [|apply reads_only_refl].
  unfold bind at 1.
  pose proof (GetPhysicSector_reads i m) as G.
  destruct (GetPhysicSector i m) as [p m1|f m1|]; [|exact G|tauto].
  match goal with |- context [Print_blocks fuel ?j ?o m1] =>
    pose proof (IH j o m1) as H; destruct (Print_blocks fuel j o m1)
  end; try exact I; eapply reads_only_trans; eassumption.
Qed.

Lemma Print_chars_run fuel data :
  forall j k out m,
    let r := Z.max 0 (Z.min (SectorSize - j) (numBytes (this m) - k)) in
    (Z.to_nat r + 1 <= fuel)%nat ->
    Print_chars charAt fuel data j k out m =
    Ret (k + r, out ++ map (fun j' => print_char (charAt data j')) (zseq j (Z.to_nat r))) m.
Proof.
  induction fuel as [|fuel IH]; intros j k out m r Hfuel; [lia|].
  cbn [Print_chars]. unfold bind at 1. hsimpl.
  destruct (Z.ltb_spec j SectorSize) as [Hj|Hj];
    [destruct (Z.ltb_spec k (numBytes (this m))) as [Hk|Hk]|]; cbn [andb].
  - rewrite IH by (cbv zeta; lia).
    replace (Z.to_nat r) with (S (Z.to_nat (r - 1))) by (subst r; lia).
    cbn [zseq map]. rewrite <- app_assoc. cbn [app].
    replace (Z.max 0 (Z.min (SectorSize - (j + 1)) (numBytes (this m) - (k + 1))))
      with (r - 1) by (subst r; lia).
    do 2 f_equal. lia.
  - replace r with 0 by (subst r; lia). cbn [Z.to_nat zseq map].
    now rewrite app_nil_r, Z.add_0_r.
  - replace r with 0 by (subst r; lia). cbn [Z.to_nat zseq map].
    now rewrite app_nil_r, Z.add_0_r.
Qed.

Lemma Print_contents_reads n fuel :
  forall i k out m,
    match Print_contents charAt n fuel i k out m with
    | Ret _ m' | Fault _ m' => reads_only m m'
    | OutOfFuel => True
    end.
Proof.
  induction n as [|n IH]; intros i k out m; [exact I|].
  cbn [Print_contents]. unfold bind at 1. hsimpl.
  destruct (i <? numSectors (this m)); [|apply reads_only_refl].
  unfold bind at 1.
  pose proof (GetPhysicSector_reads i m) as G.
  destruct (GetPhysicSector i m) as [p m1|f m1|]; [|exact G|tauto].
  unfold bind at 1.
  destruct (ReadSector_reads p m1) as (m2 & E2 & R2). rewrite E2.
  unfold bind at 1.
  assert (R12 : reads_only m m2) by (eapply reads_only_trans; eassumption).
  assert (C : match Print_chars charAt fuel (sectors (synchDisk m1) p) 0 k out m2 with
              | Ret _ m' | Fault _ m' => m' = m2
              | OutOfFuel => True
              end).
  { clear. generalize 0 at 1. generalize k out. 
    induction fuel as [|fuel IHf]; intros k' out' j; [exact I|].
    cbn [Print_chars]. unfold bind at 1. hsimpl.
    destruct ((j <? SectorSize) && (k' <? numBytes (this m2))); [apply IHf | reflexivity]. }
  destruct (Print_chars charAt fuel _ 0 k out m2) as [r m3|f m3|]; [| now subst m3 | exact I].
  subst m3.
  match goal with |- context [Print_contents charAt n fuel ?j ?k' ?o m2] =>
    pose proof (IH j k' o m2) as H; destruct (Print_contents charAt n fuel j k' o m2)
  end; try exact I; eapply reads_only_trans; eassumption.
Qed.

(** X15.  [Print] only reads: whatever its outcome, the header, the map and
    the contents of the disk are what they were, and the disk has served
    read requests only. *)
Theorem Print_reads_only n fuel m :
  match Print charAt n fuel m with
  | Ret _ m' | Fault _ m' =>
      this m' = this m /\ freeMap m' = freeMap m /\
      sectors (synchDisk m') = sectors (synchDisk m) /\
      exists rs, requests (synchDisk m') = requests (synchDisk m) ++ map ReadRequest rs
  | OutOfFuel => True
  end.
Proof.
  unfold Print. unfold bind at 1. hsimpl. unfold bind at 1.
  match goal with |- context [Print_blocks n ?j ?o m] =>
    pose proof (Print_blocks_reads n j o m) as H; destruct (Print_blocks n j o m) as [out m1|f m1|]
  end; [|exact H|exact I].
  match goal with |- context [Print_contents charAt n fuel ?j ?k ?o m1] =>
    pose proof (Print_contents_reads n fuel j k o m1) as H';
    destruct (Print_contents charAt n fuel j k o m1)
  end; try exact I; exact (reads_only_trans _ _ _ H H').
Qed.

(** *** On a header whose logical sectors translate *)

Section Output.

Variable m : Machine.
Hypothesis SectorSize_pos : 0 < SectorSize.
Hypothesis Htranslates :
  forall i, 0 <= i < numSectors (this m) -> translates m i.

(** The line [Print] prints for the logical sector [i]: the chars of the
    sector that lie within the file. *)
Let line (i : Z) : list Printed :=
  map (fun j => print_char (charAt (sectors (synchDisk m) (physical m i)) j))
      (zseq 0 (Z.to_nat (Z.min SectorSize (numBytes (this m) - i * SectorSize))))
  ++ [PrintNewline].

Lemma Print_blocks_run fuel :
  forall i out m1,
    same_file m m1 -> 0 <= i ->
    (Z.to_nat (numSectors (this m) - i) + 1 <= fuel)%nat ->
    exists m',
      Print_blocks fuel i out m1 =
      Ret (out ++ map (fun i => print_block i (physical m i))
                      (zseq i (Z.to_nat (numSectors (this m) - i)))) m' /\
      same_file m m'.
Proof.
  induction fuel as [|fuel IH]; intros i out m1 F Hi Hfuel; [lia|].
  cbn [Print_blocks]. unfold bind at 1. hsimpl.
  destruct F as (Fh & Fs). rewrite Fh.
  destruct (Z.ltb_spec i (numSectors (this m))) as [Hlt|Hge].
  - unfold bind at 1.
    destruct (physical_same_file m m1 i (conj Fh Fs) (Htranslates i ltac:(lia))) as (m2 & G).
    rewrite G.
    pose proof (GetPhysicSector_reads i m1) as R. rewrite G in R.
    assert (F2 : same_file m m2).
    { eapply same_file_trans; [exact (conj Fh Fs) | now apply reads_only_same_file]. }
    destruct (IH (i + 1) (out ++ [print_block i (physical m i)]) m2 F2 ltac:(lia) ltac:(lia))
      as (m' & E & F').
    exists m'. split; [|exact F']. rewrite E. f_equal.
    replace (Z.to_nat (numSectors (this m) - i))
      with (S (Z.to_nat (numSectors (this m) - (i + 1)))) by lia.
    cbn [zseq map]. now rewrite <- app_assoc.
  - exists m1. split; [|now split].
    replace (Z.to_nat (numSectors (this m) - i)) with O by lia.
    cbn [zseq map]. now rewrite app_nil_r.
Qed.

Lemma Print_contents_run fuel :
  (Z.to_nat SectorSize + 1 <= fuel)%nat ->
  forall n i k out m1,
    same_file m m1 -> 0 <= i ->
    k = Z.max 0 (Z.min (numBytes (this m)) (i * SectorSize)) ->
    (Z.to_nat (numSectors (this m) - i) + 1 <= n)%nat ->
    exists m',
      Print_contents charAt n fuel i k out m1 =
      Ret (out ++ flat_map line (zseq i (Z.to_nat (numSectors (this m) - i)))) m'.
Proof.
  intros Hfuel.
  induction n as [|n IH]; intros i k out m1 F Hi Hk Hn; [lia|].
  cbn [Print_contents]. unfold bind at 1. hsimpl.
  destruct F as (Fh & Fs). rewrite Fh.
  destruct (Z.ltb_spec i (numSectors (this m))) as [Hlt|Hge].
  - unfold bind at 1.
    destruct (physical_same_file m m1 i (conj Fh Fs) (Htranslates i ltac:(lia))) as (m2 & G).
    rewrite G.
    pose proof (GetPhysicSector_reads i m1) as R. rewrite G in R.
    assert (F2 : same_file m m2).
    { eapply same_file_trans; [exact (conj Fh Fs) | now apply reads_only_same_file]. }
    unfold bind at 1.
    destruct (ReadSector_reads (physical m i) m2) as (m3 & E3 & R3). rewrite E3.
    assert (F3 : same_file m m3).
    { eapply same_file_trans; [exact F2 | now apply reads_only_same_file]. }
    destruct F2 as (F2h & F2s). rewrite F2s.
    unfold bind at 1.
    pose proof (Print_chars_run fuel (sectors (synchDisk m) (physical m i)) 0 k out m3) as C.
    cbv zeta in C. destruct F3 as (F3h & F3s). rewrite F3h in C.
    set (x := i * SectorSize) in *.
    assert (Hx : 0 <= x) by (subst x; nia).
    assert (Hr : Z.to_nat (Z.max 0 (Z.min (SectorSize - 0) (numBytes (this m) - k))) =
                 Z.to_nat (Z.min SectorSize (numBytes (this m) - x))) by lia.
    rewrite Hr in C. rewrite C by lia. cbn [fst snd].
    destruct (IH (i + 1)
                 (k + Z.max 0 (Z.min (SectorSize - 0) (numBytes (this m) - k)))
                 ((out ++ map (fun j' => print_char
                                 (charAt (sectors (synchDisk m) (physical m i)) j'))
                            (zseq 0 (Z.to_nat (Z.min SectorSize (numBytes (this m) - x)))))
                    ++ [PrintNewline])
                 m3 (conj F3h F3s) ltac:(lia))
      as (m' & E).
    { replace ((i + 1) * SectorSize) with (x + SectorSize) by (subst x; ring). lia. }
    { lia. }
    exists m'. rewrite E. f_equal.
    replace (Z.to_nat (numSectors (this m) - i))
      with (S (Z.to_nat (numSectors (this m) - (i + 1)))) by lia.
    cbn [zseq flat_map]. unfold line at 2. fold x.
    now rewrite <- !app_assoc.
  - exists m1.
    replace (Z.to_nat (numSectors (this m) - i)) with O by lia.
    cbn [zseq flat_map]. now rewrite app_nil_r.
Qed.

(** X16.  What [Print] prints.  On a header whose logical sectors all
    translate, with room for [numSectors + 1] iterations of the outer loops
    and [SectorSize + 1] of the inner one, [Print] returns, having printed:
    the size; for each logical sector in turn its physical sector, marked by
    the range it lies in; the heading of the contents; and for each logical
    sector in turn one line with the chars of its sector that lie within the
    first [numBytes] bytes of the file -- [SectorSize] of them, fewer in the
    last sector, none past the end. *)
Theorem Print_output n fuel :
  (Z.to_nat (numSectors (this m)) + 1 <= n)%nat ->
  (Z.to_nat SectorSize + 1 <= fuel)%nat ->
  exists m',
    Print charAt n fuel m =
    Ret (PrintSize (numBytes (this m))
         :: map (fun i => print_block i (physical m i))
                (zseq 0 (Z.to_nat (numSectors (this m))))
         ++ PrintContents
         :: flat_map
              (fun i =>
                 map (fun j => print_char (charAt (sectors (synchDisk m) (physical m i)) j))
                     (zseq 0 (Z.to_nat (Z.min SectorSize
                                               (numBytes (this m) - i * SectorSize))))
                 ++ [PrintNewline])
              (zseq 0 (Z.to_nat (numSectors (this m))))) m'.
Proof.
  intros Hn Hfuel.
  unfold Print. unfold bind at 1. hsimpl. unfold bind at 1.
  destruct (Print_blocks_run n 0 [PrintSize (numBytes (this m))] m
              (same_file_refl m) ltac:(lia) ltac:(lia)) as (m1 & E1 & F1).
  rewrite E1. rewrite Z.sub_0_r.
  match goal with |- context [Print_contents charAt n fuel 0 0 ?o m1] =>
    destruct (Print_contents_run fuel Hfuel n 0 0 o m1 F1 ltac:(lia) ltac:(lia) ltac:(lia))
      as (m' & E)
  end.
  exists m'. rewrite E, Z.sub_0_r. f_equal.
  cbn [app]. now rewrite <- app_assoc.
Qed.

End Output.

End PrintRuns.

(** * The theorems at concrete inputs *)

Lemma GetPhysicSector_cases_witness :
  length (dataSectors (this unmarked_index_block)) = Z.to_nat (NumDirect (Constants := NachOS)) /\
  0 < NumIndirect (Constants := NachOS) /\
  0 <= 27 < maxSectors (K := NachOS) /\
  translated (K := NachOS) unmarked_index_block 27.
Proof.
  assert (H1 : length (dataSectors (this unmarked_index_block)) =
               Z.to_nat (NumDirect (Constants := NachOS))) by reflexivity.
  assert (H2 : 0 < NumIndirect (Constants := NachOS)) by reflexivity.
  assert (H3 : 0 <= 27 < maxSectors (K := NachOS)) by (vm_compute; split; [discriminate | reflexivity]).
  repeat split; try assumption; try (vm_compute; discriminate); try reflexivity.
  all: destruct (GetPhysicSector_cases (K := NachOS) unmarked_index_block 27 H1 H2 H3)
         as (_ & H & _);
       destruct (H ltac:(cbn; lia)) as (Ht & _);
       apply (Ht ltac:(discriminate)).
Defined.


Lemma WriteBack_FetchFrom_witness :
  length (dataSectors (this unmarked_index_block)) = Z.to_nat (NumDirect (Constants := NachOS)) /\
  exists d1 d2,
    WriteBack 5 (mkMachine (this unmarked_index_block) full_map blank_disk) =
      Ret tt (mkMachine (this unmarked_index_block) full_map d1) /\
    FetchFrom (K := NachOS) 5 (mkMachine (FileHeader_new (K := NachOS)) full_map d1) =
      Ret tt (mkMachine (this unmarked_index_block) full_map d2).
Proof.
  split; [reflexivity|].
  apply (WriteBack_FetchFrom (K := NachOS)). reflexivity.
Defined.

Lemma Allocate_terminates_witness :
  130432 <= maxCapacity (K := NachOS) /\
  sectorsNeeded (K := NachOS) 130432 <= Bitmap.NumClear (free_map 2048) /\
  (Z.to_nat (Z.max (NumDirect (Constants := NachOS)) (NumIndirect (Constants := NachOS))) + 2 <= 33)%nat /\
  exists m',
    Allocate (K := NachOS) 33 130432 (zeroed (K := NachOS) (free_map 2048) blank_disk) = Ret true m' /\
    130432 - numBytes (this m') = 0 /\
    numSectors (this m') = sectorsFor (K := NachOS) 130432 /\
    Bitmap.NumClear (freeMap m') =
      Bitmap.NumClear (free_map 2048) - sectorsNeeded (K := NachOS) 130432.
Proof.
  assert (H1 : 130432 <= maxCapacity (K := NachOS)) by (vm_compute; discriminate).
  assert (H2 : sectorsNeeded (K := NachOS) 130432 <= Bitmap.NumClear (free_map 2048))
    by (vm_compute; discriminate).
  assert (H3 : (Z.to_nat (Z.max (NumDirect (Constants := NachOS))
                                (NumIndirect (Constants := NachOS))) + 2 <= 33)%nat)
    by (vm_compute; lia).
  repeat (split; [assumption|]).
  exact (Allocate_terminates (K := NachOS) eq_refl eq_refl eq_refl
           130432 (free_map 2048) blank_disk 33 H1 H2 H3).
Defined.

Lemma Allocate_correct_witness :
  500 <= maxCapacity (K := NachOS) /\
  sectorsNeeded (K := NachOS) 500 <= Bitmap.NumClear (free_map 16) /\
  (Z.to_nat (Z.max (NumDirect (Constants := NachOS)) (NumIndirect (Constants := NachOS))) + 2 <= 33)%nat /\
  exists m',
    Allocate (K := NachOS) 33 500 (zeroed (K := NachOS) (free_map 16) blank_disk) = Ret true m' /\
    numBytes (this m') = 500 /\
    numSectors (this m') = sectorsFor (K := NachOS) 500.
Proof.
  assert (H1 : 500 <= maxCapacity (K := NachOS)) by (vm_compute; discriminate).
  assert (H2 : sectorsNeeded (K := NachOS) 500 <= Bitmap.NumClear (free_map 16))
    by (vm_compute; discriminate).
  assert (H3 : (Z.to_nat (Z.max (NumDirect (Constants := NachOS))
                                (NumIndirect (Constants := NachOS))) + 2 <= 33)%nat)
    by (vm_compute; lia).
  repeat (split; [assumption|]).
  destruct (Allocate_correct (K := NachOS) eq_refl eq_refl eq_refl
              500 (free_map 16) blank_disk 33 H1 H2 H3)
    as (m' & E & A & B & _).
  exists m'. split; [exact E|]. split; [exact A|exact B].
Defined.

Lemma Allocate_past_capacity_witness :
  maxCapacity (K := NachOS) < 130433 /\
  maxSectors (K := NachOS) + NumIndirect (Constants := NachOS) + 2
    <= Bitmap.NumClear (free_map 2048) /\
  (Z.to_nat (Z.max (NumDirect (Constants := NachOS)) (NumIndirect (Constants := NachOS))) + 2 <= 40)%nat /\
  exists m',
    Allocate (K := NachOS) 40 130433 (zeroed (K := NachOS) (free_map 2048) blank_disk)
      = Fault OutOfBounds m' /\
    numSectors (this m') = maxSectors (K := NachOS) /\
    Bitmap.NumClear (freeMap m') =
      Bitmap.NumClear (free_map 2048)
      - (maxSectors (K := NachOS) + NumIndirect (Constants := NachOS) + 2).
Proof.
  assert (H1 : maxCapacity (K := NachOS) < 130433) by (vm_compute; reflexivity).
  assert (H2 : maxSectors (K := NachOS) + NumIndirect (Constants := NachOS) + 2
               <= Bitmap.NumClear (free_map 2048)) by (vm_compute; discriminate).
  assert (H3 : (Z.to_nat (Z.max (NumDirect (Constants := NachOS))
                                (NumIndirect (Constants := NachOS))) + 2 <= 40)%nat)
    by (vm_compute; lia).
  repeat (split; [assumption|]).
  exact (Allocate_past_capacity (K := NachOS) eq_refl eq_refl eq_refl
           130433 (free_map 2048) blank_disk 40 H1 H2 H3).
Defined.

Lemma ByteToSector_out_of_range_witness :
  0 < SectorSize (Constants := NachOS) /\
  0 < NumDirect (Constants := NachOS) /\
  0 < NumIndirect (Constants := NachOS) /\
  ByteToSector (K := NachOS) (-128) unmarked_index_block =
    Fault OutOfBounds unmarked_index_block /\
  ByteToSector (K := NachOS) (-127) unmarked_index_block =
    ByteToSector (K := NachOS) 0 unmarked_index_block.
Proof.
  assert (H1 : 0 < SectorSize (Constants := NachOS)) by reflexivity.
  assert (H2 : 0 < NumDirect (Constants := NachOS)) by reflexivity.
  assert (H3 : 0 < NumIndirect (Constants := NachOS)) by reflexivity.
  repeat (split; [assumption|]).
  split.
  - destruct (ByteToSector_out_of_range (K := NachOS) (-128) unmarked_index_block H1 H2 H3)
      as (A & _).
    apply A. vm_compute. discriminate.
  - destruct (ByteToSector_out_of_range (K := NachOS) (-127) unmarked_index_block H1 H2 H3)
      as (_ & B & _).
    apply B. split; vm_compute; reflexivity.
Defined.

Lemma Deallocate_free_count_witness :
  exists m',
    Deallocate (K := NachOS) 40 unmarked_index_block = Ret tt m' /\
    Bitmap.NumClear (freeMap unmarked_index_block) + 28
      <= Bitmap.NumClear (freeMap m')
      <= Bitmap.NumClear (freeMap unmarked_index_block) + 28 + 2.
Proof.
  eexists. split; [vm_compute; reflexivity|].
  apply (Deallocate_free_count (K := NachOS) 40 unmarked_index_block).
  vm_compute. reflexivity.
Defined.

Lemma ByteToSector_allocated_witness :
  7553 <= maxCapacity (K := NachOS) /\
  sectorsNeeded (K := NachOS) 7553 <= Bitmap.NumClear (free_map 100) /\
  (Z.to_nat (Z.max (NumDirect (Constants := NachOS)) (NumIndirect (Constants := NachOS))) + 2 <= 40)%nat /\
  exists m',
    Allocate (K := NachOS) 40 7553 (zeroed (K := NachOS) (free_map 100) blank_disk) = Ret true m' /\
    (forall o, 0 <= o < 7553 ->
       exists p m'', ByteToSector (K := NachOS) o m' = Ret p m'' /\
                     Bitmap.Test p (free_map 100) = false /\
                     Bitmap.Test p (freeMap m') = true).
Proof.
  assert (H1 : 7553 <= maxCapacity (K := NachOS)) by (vm_compute; discriminate).
  assert (H2 : sectorsNeeded (K := NachOS) 7553 <= Bitmap.NumClear (free_map 100))
    by (vm_compute; discriminate).
  assert (H3 : (Z.to_nat (Z.max (NumDirect (Constants := NachOS))
                                (NumIndirect (Constants := NachOS))) + 2 <= 40)%nat)
    by (vm_compute; lia).
  repeat (split; [assumption|]).
  destruct (ByteToSector_allocated (K := NachOS) eq_refl eq_refl eq_refl
              7553 (free_map 100) blank_disk 40 H1 H2 H3)
    as (m' & E & A & _).
  exists m'. split; [exact E | exact A].
Defined.

Lemma Allocate_Deallocate_map_witness :
  7553 <= maxCapacity (K := NachOS) /\
  sectorsNeeded (K := NachOS) 7553 <= Bitmap.NumClear (free_map 100) /\
  (Z.to_nat (Z.max (NumDirect (Constants := NachOS)) (NumIndirect (Constants := NachOS))) + 2 <= 40)%nat /\
  (Z.to_nat (sectorsFor (K := NachOS) 7553) + 1 <= 100)%nat /\
  NumDirect (Constants := NachOS) + NumIndirect (Constants := NachOS)
    < sectorsFor (K := NachOS) 7553 /\
  exists m1 m2,
    Allocate (K := NachOS) 40 7553 (zeroed (K := NachOS) (free_map 100) blank_disk) = Ret true m1 /\
    Deallocate (K := NachOS) 100 m1 = Ret tt m2 /\
    Bitmap.NumClear (freeMap m2) =
    Bitmap.NumClear (free_map 100) - secondaryBlocks (K := NachOS) (sectorsFor (K := NachOS) 7553).
Proof.
  assert (H1 : 7553 <= maxCapacity (K := NachOS)) by (vm_compute; discriminate).
  assert (H2 : sectorsNeeded (K := NachOS) 7553 <= Bitmap.NumClear (free_map 100))
    by (vm_compute; discriminate).
  assert (H3 : (Z.to_nat (Z.max (NumDirect (Constants := NachOS))
                                (NumIndirect (Constants := NachOS))) + 2 <= 40)%nat)
    by (vm_compute; lia).
  assert (H4 : (Z.to_nat (sectorsFor (K := NachOS) 7553) + 1 <= 100)%nat)
    by (vm_compute; lia).
  assert (H5 : NumDirect (Constants := NachOS) + NumIndirect (Constants := NachOS)
               < sectorsFor (K := NachOS) 7553) by (vm_compute; reflexivity).
  repeat (split; [assumption|]).
  destruct (Allocate_Deallocate_map (K := NachOS) eq_refl eq_refl eq_refl
              7553 (free_map 100) blank_disk 40 100 H1 H2 H3 H4)
    as (m1 & m2 & E1 & E2 & _ & A).
  exists m1, m2. split; [exact E1|]. split; [exact E2 | exact (A H5)].
Defined.

Lemma Deallocate_twice_witness :
  0 < 7553 /\
  7553 <= maxCapacity (K := NachOS) /\
  sectorsNeeded (K := NachOS) 7553 <= Bitmap.NumClear (free_map 100) /\
  (Z.to_nat (Z.max (NumDirect (Constants := NachOS)) (NumIndirect (Constants := NachOS))) + 2 <= 40)%nat /\
  (Z.to_nat (sectorsFor (K := NachOS) 7553) + 1 <= 100)%nat /\
  exists m1 m2 m3,
    Allocate (K := NachOS) 40 7553 (zeroed (K := NachOS) (free_map 100) blank_disk) = Ret true m1 /\
    Deallocate (K := NachOS) 100 m1 = Ret tt m2 /\
    Deallocate (K := NachOS) 100 m2 = Fault AssertionFailed m3.
Proof.
  assert (H0 : 0 < 7553) by reflexivity.
  assert (H1 : 7553 <= maxCapacity (K := NachOS)) by (vm_compute; discriminate).
  assert (H2 : sectorsNeeded (K := NachOS) 7553 <= Bitmap.NumClear (free_map 100))
    by (vm_compute; discriminate).
  assert (H3 : (Z.to_nat (Z.max (NumDirect (Constants := NachOS))
                                (NumIndirect (Constants := NachOS))) + 2 <= 40)%nat)
    by (vm_compute; lia).
  assert (H4 : (Z.to_nat (sectorsFor (K := NachOS) 7553) + 1 <= 100)%nat)
    by (vm_compute; lia).
  repeat (split; [assumption|]).
  destruct (Deallocate_twice (K := NachOS) eq_refl eq_refl eq_refl
              7553 (free_map 100) blank_disk 40 100 H0 H1 H2 H3 H4)
    as (m1 & m2 & m3 & E1 & E2 & E3 & _).
  exists m1, m2, m3. split; [exact E1|]. split; [exact E2 | exact E3].
Defined.

Lemma Allocate_direct_any_map_witness :
  500 <= NumDirect (Constants := NachOS) * SectorSize (Constants := NachOS) /\
  (Z.to_nat (NumDirect (Constants := NachOS)) + 2 <= 30)%nat /\
  exists m',
    Allocate (K := NachOS) 30 500 (zeroed (K := NachOS) nearly_full_map blank_disk) = Ret true m' /\
    numSectors (this m') = sectorsFor (K := NachOS) 500 /\
    GetPhysicSector (K := NachOS) 3 m' = Ret (-1) m'.
Proof.
  assert (H1 : 500 <= NumDirect (Constants := NachOS) * SectorSize (Constants := NachOS))
    by (vm_compute; discriminate).
  assert (H2 : (Z.to_nat (NumDirect (Constants := NachOS)) + 2 <= 30)%nat)
    by (vm_compute; lia).
  repeat (split; [assumption|]).
  destruct (Allocate_direct_any_map (K := NachOS) eq_refl eq_refl
              500 nearly_full_map blank_disk 30 H1 H2)
    as (m' & E & _ & _ & A & _ & B).
  exists m'. split; [exact E|]. split; [exact A|].
  apply B; [split; [vm_compute; discriminate | vm_compute; reflexivity]
           | vm_compute; discriminate].
Defined.

Lemma Allocate_disk_footprint_witness :
  7553 <= maxCapacity (K := NachOS) /\
  sectorsNeeded (K := NachOS) 7553 <= Bitmap.NumClear header_map /\
  (Z.to_nat (Z.max (NumDirect (Constants := NachOS)) (NumIndirect (Constants := NachOS))) + 2 <= 40)%nat /\
  Bitmap.Test 0 header_map = true /\
  exists m',
    Allocate (K := NachOS) 40 7553 (zeroed (K := NachOS) header_map blank_disk) = Ret true m' /\
    sectors (synchDisk m') 0 = sectors blank_disk 0.
Proof.
  assert (H1 : 7553 <= maxCapacity (K := NachOS)) by (vm_compute; discriminate).
  assert (H2 : sectorsNeeded (K := NachOS) 7553 <= Bitmap.NumClear header_map)
    by (vm_compute; discriminate).
  assert (H3 : (Z.to_nat (Z.max (NumDirect (Constants := NachOS))
                                (NumIndirect (Constants := NachOS))) + 2 <= 40)%nat)
    by (vm_compute; lia).
  assert (H4 : Bitmap.Test 0 header_map = true) by reflexivity.
  repeat (split; [assumption|]).
  destruct (Allocate_disk_footprint (K := NachOS) eq_refl eq_refl eq_refl
              7553 header_map blank_disk 40 H1 H2 H3)
    as (m' & E & A & _).
  exists m'. split; [exact E | exact (A 0 H4)].
Defined.

Lemma Allocate_WriteBack_FetchFrom_witness :
  7553 <= maxCapacity (K := NachOS) /\
  sectorsNeeded (K := NachOS) 7553 <= Bitmap.NumClear header_map /\
  (Z.to_nat (Z.max (NumDirect (Constants := NachOS)) (NumIndirect (Constants := NachOS))) + 2 <= 40)%nat /\
  (Z.to_nat (sectorsFor (K := NachOS) 7553) + 1 <= 100)%nat /\
  Bitmap.Test 0 header_map = true /\
  exists m1 m2 m3 m4,
    Allocate (K := NachOS) 40 7553 (zeroed (K := NachOS) header_map blank_disk) = Ret true m1 /\
    WriteBack 0 m1 = Ret tt m2 /\
    FetchFrom (K := NachOS) 0
      (mkMachine (FileHeader_new (K := NachOS)) (freeMap m2) (synchDisk m2)) = Ret tt m3 /\
    this m3 = this m1 /\
    Deallocate (K := NachOS) 100 m3 = Ret tt m4.
Proof.
  assert (H1 : 7553 <= maxCapacity (K := NachOS)) by (vm_compute; discriminate).
  assert (H2 : sectorsNeeded (K := NachOS) 7553 <= Bitmap.NumClear header_map)
    by (vm_compute; discriminate).
  assert (H3 : (Z.to_nat (Z.max (NumDirect (Constants := NachOS))
                                (NumIndirect (Constants := NachOS))) + 2 <= 40)%nat)
    by (vm_compute; lia).
  assert (H4 : (Z.to_nat (sectorsFor (K := NachOS) 7553) + 1 <= 100)%nat)
    by (vm_compute; lia).
  assert (H5 : Bitmap.Test 0 header_map = true) by reflexivity.
  repeat (split; [assumption|]).
  destruct (Allocate_WriteBack_FetchFrom (K := NachOS) eq_refl eq_refl eq_refl
              7553 header_map blank_disk 40 100 0 (FileHeader_new (K := NachOS))
              H1 H2 H3 H4 H5)
    as (m1 & m2 & m3 & m4 & E1 & E2 & E3 & A & _ & E4 & _).
  exists m1, m2, m3, m4. repeat (split; [assumption|]). exact E4.
Defined.

Lemma Print_output_witness :
  0 < SectorSize (Constants := short_sectors) /\
  (forall i, 0 <= i < numSectors (this small_file) ->
             translates (K := short_sectors) small_file i) /\
  (Z.to_nat (numSectors (this small_file)) + 1 <= 3)%nat /\
  (Z.to_nat (SectorSize (Constants := short_sectors)) + 1 <= 5)%nat /\
  exists m',
    Print (K := short_sectors) word_char 3 5 small_file =
    Ret [PrintSize 6; PrintDirect 5; PrintDirect 6; PrintContents;
         PrintChar 72; PrintChar 105; PrintChar 33; PrintHex 10; PrintNewline;
         PrintChar 79; PrintChar 75; PrintNewline] m'.
Proof.
  assert (H1 : 0 < SectorSize (Constants := short_sectors)) by reflexivity.
  assert (H2 : forall i, 0 <= i < numSectors (this small_file) ->
                         translates (K := short_sectors) small_file i).
  { intros i Hi. cbn [small_file this numSectors] in Hi.
    assert (Hc : i = 0 \/ i = 1) by lia.
    destruct Hc as [-> | ->]; eexists _, _; vm_compute; reflexivity. }
  assert (H3 : (Z.to_nat (numSectors (this small_file)) + 1 <= 3)%nat) by (vm_compute; lia).
  assert (H4 : (Z.to_nat (SectorSize (Constants := short_sectors)) + 1 <= 5)%nat)
    by (vm_compute; lia).
  repeat (split; [assumption|]).
  destruct (Print_output (K := short_sectors) word_char small_file H1 H2 3 5 H3 H4)
    as (m' & E).
  exists m'. rewrite E. reflexivity.
Defined.

Lemma Allocate_grows_witness :
  0 <= 500 <= 7553 /\
  7553 <= maxCapacity (K := NachOS) /\
  sectorsNeeded (K := NachOS) 7553 <= Bitmap.NumClear (free_map 100) /\
  sectorsFor (K := NachOS) 500
    <= Bitmap.NumClear (free_map 100) - sectorsNeeded (K := NachOS) 500 /\
  (Z.to_nat (Z.max (NumDirect (Constants := NachOS)) (NumIndirect (Constants := NachOS))) + 2 <= 40)%nat /\
  exists m1 m2 m,
    Allocate (K := NachOS) 40 500 (zeroed (K := NachOS) (free_map 100) blank_disk) = Ret true m1 /\
    Allocate (K := NachOS) 40 7553 m1 = Ret true m2 /\
    Allocate (K := NachOS) 40 7553 (zeroed (K := NachOS) (free_map 100) blank_disk) = Ret true m /\
    this m2 = this m /\ freeMap m2 = freeMap m.
Proof.
  assert (H0 : 0 <= 500 <= 7553) by (split; discriminate).
  assert (H1 : 7553 <= maxCapacity (K := NachOS)) by (vm_compute; discriminate).
  assert (H2 : sectorsNeeded (K := NachOS) 7553 <= Bitmap.NumClear (free_map 100))
    by (vm_compute; discriminate).
  assert (H3 : sectorsFor (K := NachOS) 500
               <= Bitmap.NumClear (free_map 100) - sectorsNeeded (K := NachOS) 500)
    by (vm_compute; discriminate).
  assert (H4 : (Z.to_nat (Z.max (NumDirect (Constants := NachOS))
                                (NumIndirect (Constants := NachOS))) + 2 <= 40)%nat)
    by (vm_compute; lia).
  repeat (split; [assumption|]).
  destruct (Allocate_grows (K := NachOS) eq_refl eq_refl eq_refl
              500 7553 (free_map 100) blank_disk 40 H0 H1 H2 H3 H4)
    as (m1 & m2 & m & E1 & E2 & E & A & B & _).
  exists m1, m2, m. repeat (split; [assumption|]). exact B.
Defined.
